(** * Facto: canonical form, hash chain, Merkle engine and batching processor

    A shallow embedding of the Go services of the Facto repository
    (server/processor and server/api) and of the canonicalisation code of the
    TypeScript SDK (sdk/typescript/src/crypto.ts), with the properties stated
    in the specification proved, or refuted, against that embedding.

    Go strings are byte strings; they are modelled by [string], whose
    characters are the bytes.  Go slices that are only read are lists. *)

From Stdlib Require Import ZArith Ascii String List Bool Lia DecimalString.
From Stdlib Require Import Sorted Permutation.
From stdpp Require Import base tactics option list strings.

Local Open Scope Z_scope.

(** ** Bytes and hexadecimal strings (encoding/hex) *)

Module Hex.

Definition byte_of_ascii (c : ascii) : Z := Z.of_N (N_of_ascii c).
Definition ascii_of_byte (b : Z) : ascii := ascii_of_N (Z.to_N (b mod 256)).

Definition bytes_of_string (s : string) : list Z :=
  map byte_of_ascii (list_ascii_of_string s).
Definition string_of_bytes (l : list Z) : string :=
  string_of_list_ascii (map ascii_of_byte l).

(** [hextable]: the digits used by [hex.EncodeToString], lower case. *)
Definition hexdigit (n : Z) : ascii :=
  if n <? 10 then ascii_of_byte (48 + n) else ascii_of_byte (87 + n).

(** [reverseHexTable]: the value of a hexadecimal digit, upper or lower
    case; [None] stands for the entries 0xff of the table. *)
Definition fromHexChar (c : ascii) : option Z :=
  let n := byte_of_ascii c in
  if (48 <=? n) && (n <=? 57) then Some (n - 48)
  else if (97 <=? n) && (n <=? 102) then Some (n - 87)
  else if (65 <=? n) && (n <=? 70) then Some (n - 55)
  else None.

(** [hex.EncodeToString]. *)
Fixpoint EncodeToString (l : list Z) : string :=
  match l with
  | [] => EmptyString
  | b :: l' =>
      String (hexdigit (Z.shiftr (b mod 256) 4))
        (String (hexdigit (Z.land b 15)) (EncodeToString l'))
  end.

(** [hex.DecodeString] returns the bytes decoded before the first error
    together with the error.  The second component is [false] when an error
    (an invalid digit or an odd length) was met. *)
Fixpoint DecodeString (s : string) : list Z * bool :=
  match s with
  | EmptyString => ([], true)
  | String p EmptyString => ([], false)
  | String p (String q s') =>
      match fromHexChar p, fromHexChar q with
      | Some a, Some b =>
          let '(l, ok) := DecodeString s' in
          (Z.lor (Z.shiftl a 4) b :: l, ok)
      | _, _ => ([], false)
      end
  end.

End Hex.

(** ** SHA-256 (crypto/sha256), after FIPS 180-4, on 32-bit words in [Z] *)

Module SHA256.

Definition w32 (x : Z) : Z := Z.land x 0xffffffff.
Definition add32 (x y : Z) : Z := w32 (x + y).
Definition rotr (n x : Z) : Z :=
  Z.lor (Z.shiftr x n) (w32 (Z.shiftl x (32 - n))).
Definition not32 (x : Z) : Z := Z.lxor x 0xffffffff.

Definition Ch (x y z : Z) : Z := Z.lxor (Z.land x y) (Z.land (not32 x) z).
Definition Maj (x y z : Z) : Z :=
  Z.lxor (Z.lxor (Z.land x y) (Z.land x z)) (Z.land y z).
Definition bsig0 (x : Z) : Z := Z.lxor (Z.lxor (rotr 2 x) (rotr 13 x)) (rotr 22 x).
Definition bsig1 (x : Z) : Z := Z.lxor (Z.lxor (rotr 6 x) (rotr 11 x)) (rotr 25 x).
Definition ssig0 (x : Z) : Z := Z.lxor (Z.lxor (rotr 7 x) (rotr 18 x)) (Z.shiftr x 3).
Definition ssig1 (x : Z) : Z := Z.lxor (Z.lxor (rotr 17 x) (rotr 19 x)) (Z.shiftr x 10).

(** The round constants and the initial state, in decimal. *)
Definition K : list Z :=
  [ 1116352408; 1899447441; 3049323471; 3921009573; 961987163; 1508970993;
    2453635748; 2870763221; 3624381080; 310598401; 607225278; 1426881987;
    1925078388; 2162078206; 2614888103; 3248222580; 3835390401; 4022224774;
    264347078; 604807628; 770255983; 1249150122; 1555081692; 1996064986;
    2554220882; 2821834349; 2952996808; 3210313671; 3336571891; 3584528711;
    113926993; 338241895; 666307205; 773529912; 1294757372; 1396182291;
    1695183700; 1986661051; 2177026350; 2456956037; 2730485921; 2820302411;
    3259730800; 3345764771; 3516065817; 3600352804; 4094571909; 275423344;
    430227734; 506948616; 659060556; 883997877; 958139571; 1322822218;
    1537002063; 1747873779; 1955562222; 2024104815; 2227730452; 2361852424;
    2428436474; 2756734187; 3204031479; 3329325298 ].

Definition H0 : list Z :=
  [ 1779033703; 3144134277; 1013904242; 2773480762;
    1359893119; 2600822924; 528734635; 1541459225 ].

(** Big-endian encodings. *)
Fixpoint be_bytes (n : nat) (x : Z) : list Z :=
  match n with
  | O => []
  | S n' => Z.land (Z.shiftr x (8 * Z.of_nat n')) 255 :: be_bytes n' x
  end.

Fixpoint be_words (l : list Z) : list Z :=
  match l with
  | a :: b :: c :: d :: l' =>
      Z.lor (Z.lor (Z.shiftl a 24) (Z.shiftl b 16)) (Z.lor (Z.shiftl c 8) d)
      :: be_words l'
  | _ => []
  end.

(** Padding: one bit, zeros up to 56 modulo 64, the bit length on 8 bytes. *)
Definition pad (msg : list Z) : list Z :=
  let len := Z.of_nat (length msg) in
  let zeros := Z.to_nat ((55 - len) mod 64) in
  msg ++ [128] ++ repeat 0 zeros ++ be_bytes 8 (8 * len).

(** The message schedule: [extend n w] appends [n] words to the list [w],
    kept in reverse order (most recent first). *)
Fixpoint extend (n : nat) (w : list Z) : list Z :=
  match n with
  | O => w
  | S n' =>
      match w with
      | _ :: w2 :: _ :: _ :: _ :: _ :: w7 :: _ :: _ :: _ :: _ :: _ :: _ :: _ :: w15 :: w16 :: _ =>
          extend n' (add32 (add32 (ssig1 w2) w7) (add32 (ssig0 w15) w16) :: w)
      | _ => w
      end
  end.

Definition schedule (block : list Z) : list Z :=
  rev (extend 48 (rev block)).

Definition round (st : list Z) (kw : Z * Z) : list Z :=
  match st with
  | [a; b; c; d; e; f; g; h] =>
      let t1 := add32 (add32 (add32 h (bsig1 e)) (add32 (Ch e f g) (fst kw))) (snd kw) in
      let t2 := add32 (bsig0 a) (Maj a b c) in
      [add32 t1 t2; a; b; c; add32 d t1; e; f; g]
  | _ => st
  end.

Definition compress (st block : list Z) : list Z :=
  let st' := fold_left round (combine K (schedule block)) st in
  map (fun p => add32 (fst p) (snd p)) (combine st st').

Fixpoint blocks (n : nat) (ws : list Z) (st : list Z) : list Z :=
  match n with
  | O => st
  | S n' => blocks n' (skipn 16 ws) (compress st (firstn 16 ws))
  end.

(** [sha256.Sum256]: the 32-byte digest of a byte sequence. *)
Definition Sum256 (msg : list Z) : list Z :=
  let ws := be_words (pad msg) in
  flat_map (be_bytes 4) (blocks (length ws / 16) ws H0).

End SHA256.

(** ** Results of code that can panic *)

Inductive result (A : Type) : Type :=
| Returned (a : A)
| Panic (msg : string).
Arguments Returned {A} a.
Arguments Panic {A} msg.

(** ** The processor's Merkle tree (server/processor/merkle.go)

    The tree is a linked structure of [*MerkleNode]: a node is modelled by
    its address in a store, [mem], which is a list that grows by allocation
    at its end.  A pointer always refers to an allocated node; the reads
    below give the empty hash and no link to an address that is not
    allocated, which the code never forms. *)

Module Merkle.

Abbreviation ptr := nat.

Record MerkleNode := {
  Hash : string;
  Left : option ptr;
  Right : option ptr;
  Parent : option ptr
}.

Abbreviation heap := (list MerkleNode).

Record MerkleTree := {
  mem : heap;
  root : option ptr;
  leaves : list ptr
}.

Record ProofElement := {
  PHash : string;
  Position : string
}.

(** [hashPair] computes SHA256(left || right); the errors of
    [hex.DecodeString] are dropped, so that the bytes decoded before an
    invalid digit are hashed. *)
Definition hashPair (left right : string) : string :=
  let leftBytes := fst (Hex.DecodeString left) in
  let rightBytes := fst (Hex.DecodeString right) in
  let combined := leftBytes ++ rightBytes in
  Hex.EncodeToString (SHA256.Sum256 combined).

Definition leaf (h : string) : MerkleNode :=
  {| Hash := h; Left := None; Right := None; Parent := None |}.

Definition hashOf (m : heap) (p : ptr) : string :=
  match m !! p with Some n => Hash n | None => EmptyString end.
Definition parentOf (m : heap) (p : ptr) : option ptr :=
  match m !! p with Some n => Parent n | None => None end.
Definition leftOf (m : heap) (p : ptr) : option ptr :=
  match m !! p with Some n => Left n | None => None end.
Definition rightOf (m : heap) (p : ptr) : option ptr :=
  match m !! p with Some n => Right n | None => None end.

(** [node.Parent = parent] *)
Definition setParent (p parent : ptr) (m : heap) : heap :=
  alter (fun n => {| Hash := Hash n; Left := Left n; Right := Right n;
                     Parent := Some parent |}) p m.

(** One pass of the loop [for i := 0; i < len(nodes); i += 2] of [buildTree]:
    a parent is allocated for each pair, and for a last node without a
    partner [right] is [left] itself. *)
Fixpoint pairUp (m : heap) (nodes : list ptr) : heap * list ptr :=
  match nodes with
  | [] => (m, [])
  | [nl] =>
      let parent := length m in
      let m1 := m ++ [ {| Hash := hashPair (hashOf m nl) (hashOf m nl);
                          Left := Some nl; Right := Some nl;
                          Parent := None |} ] in
      (setParent nl parent (setParent nl parent m1), [parent])
  | nl :: nr :: rest =>
      let parent := length m in
      let m1 := m ++ [ {| Hash := hashPair (hashOf m nl) (hashOf m nr);
                          Left := Some nl; Right := Some nr;
                          Parent := None |} ] in
      let '(m2, parents) :=
        pairUp (setParent nr parent (setParent nl parent m1)) rest in
      (m2, parent :: parents)
  end.

(** "If odd number of parents, duplicate the last one". *)
Definition dupLast (m : heap) (parents : list ptr) : heap * list ptr :=
  if (1 <? length parents)%nat && Nat.odd (length parents) then
    (m ++ [ leaf (hashOf m (List.last parents O)) ], parents ++ [length m])
  else (m, parents).

(** [buildTree] is recursive on the list of parents; [fuel] bounds the depth
    of the recursion, and [None] is a recursion that does not end (the case
    of an empty list of nodes, which the code recurses on for ever). *)
Fixpoint buildTree (fuel : nat) (m : heap) (nodes : list ptr) : option (heap * ptr) :=
  match fuel with
  | O => None
  | S fuel' =>
      match nodes with
      | [r] => Some (m, r)
      | _ =>
          let '(m1, parents) := pairUp m nodes in
          let '(m2, parents2) := dupLast m1 parents in
          buildTree fuel' m2 parents2
      end
  end.

(** [sha256.New().Sum(nil)]: the digest of the empty input. *)
Definition emptyHash : string := Hex.EncodeToString (SHA256.Sum256 []).

Definition BuildMerkleTree (hashes : list string) : option MerkleTree :=
  match hashes with
  | [] => Some {| mem := [ leaf emptyHash ]; root := Some O; leaves := [] |}
  | _ =>
      let m := map leaf hashes in
      let lv := seq 0 (length hashes) in
      let '(m1, lv1) :=
        if Nat.odd (length lv) then
          (m ++ [ leaf (hashOf m (List.last lv O)) ], lv ++ [length m])
        else (m, lv) in
      match buildTree (length lv1) m1 lv1 with
      | Some (m2, r) => Some {| mem := m2; root := Some r; leaves := lv1 |}
      | None => None
      end
  end.

Definition Root (t : MerkleTree) : string :=
  match root t with
  | None => EmptyString
  | Some r => hashOf (mem t) r
  end.

(** The loop [for node.Parent != nil] of [GetProof]. *)
Fixpoint climb (fuel : nat) (m : heap) (node : ptr) (proof : list ProofElement)
  : option (list ProofElement) :=
  match fuel with
  | O => None
  | S fuel' =>
      match parentOf m node with
      | None => Some proof
      | Some parent =>
          let '(sibling, position) :=
            if decide (leftOf m parent = Some node)
            then (rightOf m parent, "right"%string)
            else (leftOf m parent, "left"%string) in
          let proof' :=
            match sibling with
            | Some s => proof ++ [ {| PHash := hashOf m s; Position := position |} ]
            | None => proof
            end in
          climb fuel' m parent proof'
      end
  end.

(** [GetProof]; the index is a Go [int].  [None] is a walk that does not
    end within the number of allocated nodes. *)
Definition GetProof (t : MerkleTree) (index : Z) : option (list ProofElement) :=
  if (index <? 0) || (Z.of_nat (length (leaves t)) <=? index) then Some []
  else
    match leaves t !! Z.to_nat index with
    | Some node => climb (S (length (mem t))) (mem t) node []
    | None => Some []
    end.

(** The loop of [VerifyProof]. *)
Definition foldProof (leafHash : string) (proof : list ProofElement) : string :=
  fold_left
    (fun currentHash element =>
       if String.eqb (Position element) "left"
       then hashPair (PHash element) currentHash
       else hashPair currentHash (PHash element))
    proof leafHash.

Definition VerifyProof (leafHash : string) (proof : list ProofElement) (root : string) : bool :=
  String.eqb (foldProof leafHash proof) root.

End Merkle.

(** ** The query API's Merkle tree (server/api/handlers.go) *)

Module ApiMerkle.

Record merkleTree := {
  root : string;
  leaves : list string;
  levels : list (list string)
}.

Record ProofElement := {
  Hash : string;
  Position : string
}.

Definition hashPair (left right : string) : string :=
  let leftBytes := fst (Hex.DecodeString left) in
  let rightBytes := fst (Hex.DecodeString right) in
  let combined := leftBytes ++ rightBytes in
  Hex.EncodeToString (SHA256.Sum256 combined).

(** The inner loop [for i := 0; i < len(current); i += 2]; reading
    [current[i+1]] past the end panics. *)
Fixpoint pairs (current : list string) : result (list string) :=
  match current with
  | [] => Returned []
  | [_] => Panic "index out of range"
  | a :: b :: rest =>
      match pairs rest with
      | Returned next => Returned (hashPair a b :: next)
      | Panic msg => Panic msg
      end
  end.

(** The loop [for len(current) > 1]. *)
Fixpoint buildLevels (fuel : nat) (current : list string) (lvls : list (list string))
  : option (result (list string * list (list string))) :=
  match fuel with
  | O => None
  | S fuel' =>
      if (1 <? length current)%nat then
        let current1 :=
          if Nat.odd (length current)
          then current ++ [List.last current EmptyString]
          else current in
        match pairs current1 with
        | Returned next => buildLevels fuel' next (lvls ++ [next])
        | Panic msg => Some (Panic msg)
        end
      else Some (Returned (current, lvls))
  end.

Definition buildMerkleTree (hashes : list string) : option (result merkleTree) :=
  match hashes with
  | [] => Some (Returned {| root := EmptyString; leaves := []; levels := [] |})
  | _ =>
      match buildLevels (length hashes) hashes [hashes] with
      | Some (Returned (current, lvls)) =>
          match current with
          | r :: _ => Some (Returned {| root := r; leaves := hashes; levels := lvls |})
          | [] => Some (Panic "index out of range")
          end
      | Some (Panic msg) => Some (Panic msg)
      | None => None
      end
  end.

End ApiMerkle.

(** ** JSON values and their serialisations

    [value] is what [encoding/json] sees behind an [interface{}]: [Null] is a
    nil interface, pointer or slice, [NilMap] a nil [map[string]interface{}]
    held in an interface, [Float64] a float64 given by its IEEE 754 bits,
    [Int64] an int64.  A Go map and a JavaScript object are association
    lists without repeated keys; a Go map has no order of its own. *)

Module Json.

#[warnings="-register-all"]
Inductive value : Type :=
| Null
| NilMap
| Bool (b : bool)
| Float64 (bits : Z)
| Int64 (z : Z)
| Str (s : string)
| Array (l : list value)
| Object (m : list (string * value)).

(** [m[k] = v] *)
Fixpoint mapSet {V} (k : string) (v : V) (m : list (string * V)) : list (string * V) :=
  match m with
  | [] => [(k, v)]
  | (k', v') :: m' =>
      if String.eqb k k' then (k, v) :: m' else (k', v') :: mapSet k v m'
  end.

(** [m[k]] *)
Fixpoint mapGet {V} (k : string) (m : list (string * V)) : option V :=
  match m with
  | [] => None
  | (k', v') :: m' => if String.eqb k k' then Some v' else mapGet k m'
  end.

(** Sorting by key, in the byte order of Go's string comparison. *)
Fixpoint insertByKey {V} (kv : string * V) (l : list (string * V)) : list (string * V) :=
  match l with
  | [] => [kv]
  | kv' :: l' =>
      if String.leb (fst kv') (fst kv) then kv' :: insertByKey kv l' else kv :: l
  end.

Definition sortByKey {V} (l : list (string * V)) : list (string * V) :=
  fold_right insertByKey [] l.

Fixpoint insertKey (k : string) (l : list string) : list string :=
  match l with
  | [] => [k]
  | k' :: l' => if String.leb k' k then k' :: insertKey k l' else k :: l
  end.

(** [sort.Strings], and JavaScript's [Array.prototype.sort] on ASCII keys. *)
Definition sortStrings (l : list string) : list string :=
  fold_right insertKey [] l.

Definition join (sep : string) (l : list string) : string := String.concat sep l.

(** [strconv.AppendInt(b, n, 10)] *)
Definition formatInt (z : Z) : string := NilZero.string_of_int (Z.to_int z).

(** *** Go's encoder of strings ([appendString] with HTML escaping) *)

Definition byte (c : ascii) : Z := Hex.byte_of_ascii c.

(** [htmlSafeSet], for a byte below 0x80. *)
Definition htmlSafe (b : Z) : bool :=
  (32 <=? b) && negb (b =? 34) && negb (b =? 92)
  && negb (b =? 60) && negb (b =? 62) && negb (b =? 38).

Definition escapeAscii (c : ascii) : string :=
  let b := byte c in
  if htmlSafe b then String c EmptyString
  else if (b =? 92) || (b =? 34) then String "\" (String c EmptyString)
  else if b =? 8 then "\b"
  else if b =? 12 then "\f"
  else if b =? 10 then "\n"
  else if b =? 13 then "\r"
  else if b =? 9 then "\t"
  else String.append "\u00"
         (String (Hex.hexdigit (Z.shiftr b 4))
            (String (Hex.hexdigit (Z.land b 15)) EmptyString)).

Definition between (lo hi : Z) (c : ascii) : bool :=
  (lo <=? byte c) && (byte c <=? hi).

(** The length of the UTF-8 sequence that starts with the byte [b] and
    goes on with [s], after the tables [first] and [acceptRanges] of
    [unicode/utf8]; 0 when the sequence is not valid. *)
Definition runeSize (b : Z) (s : string) : nat :=
  let two lo hi :=
    match s with
    | String c1 _ => if between lo hi c1 then 2%nat else 0%nat
    | _ => 0%nat
    end in
  let three lo hi :=
    match s with
    | String c1 (String c2 _) =>
        if between lo hi c1 && between 128 191 c2 then 3%nat else 0%nat
    | _ => 0%nat
    end in
  let four lo hi :=
    match s with
    | String c1 (String c2 (String c3 _)) =>
        if between lo hi c1 && between 128 191 c2 && between 128 191 c3
        then 4%nat else 0%nat
    | _ => 0%nat
    end in
  if (194 <=? b) && (b <=? 223) then two 128 191
  else if b =? 224 then three 160 191
  else if b =? 237 then three 128 159
  else if (225 <=? b) && (b <=? 239) then three 128 191
  else if b =? 240 then four 144 191
  else if (241 <=? b) && (b <=? 243) then four 128 191
  else if b =? 244 then four 128 143
  else 0%nat.

(** The escape written for a byte that starts no valid sequence. *)
Definition replacementEscape : string := "\ufffd".

Fixpoint encodeBody (s : string) : string :=
  match s with
  | EmptyString => EmptyString
  | String c s1 =>
      let b := byte c in
      if b <? 128 then String.append (escapeAscii c) (encodeBody s1)
      else
        match runeSize b s1 with
        | 2%nat =>
            match s1 with
            | String c1 s2 => String c (String c1 (encodeBody s2))
            | _ => String.append replacementEscape (encodeBody s1)
            end
        | 3%nat =>
            match s1 with
            | String c1 (String c2 s3) =>
                if (b =? 226) && (byte c1 =? 128)
                   && ((byte c2 =? 168) || (byte c2 =? 169))
                then String.append "\u202"
                       (String (Hex.hexdigit (Z.land (byte c2) 15)) (encodeBody s3))
                else String c (String c1 (String c2 (encodeBody s3)))
            | _ => String.append replacementEscape (encodeBody s1)
            end
        | 4%nat =>
            match s1 with
            | String c1 (String c2 (String c3 s4)) =>
                String c (String c1 (String c2 (String c3 (encodeBody s4))))
            | _ => String.append replacementEscape (encodeBody s1)
            end
        | _ => String.append replacementEscape (encodeBody s1)
        end
  end.

Definition encodeString (s : string) : string :=
  String "034"%char (String.append (encodeBody s) (String "034"%char EmptyString)).

End Json.

(** ** Events

    [FactoEvent] (processor) and [EventResponse] (query API) are two Go
    structs with the same fields and the same JSON names; one record stands
    for both.  A pointer field is an [option], nil being [None]; a map or a
    slice that can be nil is an [option] of an association list or of a
    list.  The field [Proof] of the Go structs is [Proof_] here. *)

Module Event.

Record ExecutionMeta := {
  ModelID : option string;
  ModelHash : option string;
  Temperature : option Z;       (* *float64, by its bits *)
  Seed : option Z;              (* *int64 *)
  MaxTokens : option Z;         (* *int32 *)
  ToolCalls : option (list Json.value);
  SDKVersion : string;
  SDKLanguage : string;
  Tags : option (list (string * string))
}.

Record Proof := {
  Signature : string;
  PublicKey : string;
  PrevHash : string;
  EventHash : string
}.

Record t := {
  FactoID : string;
  AgentID : string;
  SessionID : string;
  ParentFactoID : option string;
  ActionType : string;
  Status : string;
  InputData : option (list (string * Json.value));
  OutputData : option (list (string * Json.value));
  ExecMeta : ExecutionMeta;     (* the field ExecutionMeta *)
  Proof_ : Proof;
  StartedAt : Z;
  CompletedAt : Z
}.

End Event.

Abbreviation FactoEvent := Event.t.
Abbreviation EventResponse := Event.t.

(** ** Library functions used by the code

    The functions of the Go and JavaScript libraries that the repository
    calls and that are not modelled above.  They are parameters of the
    development: a property proved below holds whatever they compute. *)

Class Libs := {
  (** [encoding/json]: the text of a finite float64. *)
  formatFloat64 : Z -> string;
  (** ECMAScript [Number::toString]. *)
  numberToString : Z -> string;
  (** [sha3.Sum256], and [sha3_256] of @noble/hashes. *)
  sha3_Sum256 : list Z -> list Z;
  (** The check made by [ed25519.Verify] for a public key of 32 bytes:
      public key, message, signature. *)
  ed25519_check : list Z -> list Z -> list Z -> bool;
  (** [base64.StdEncoding.DecodeString]; [None] is an error. *)
  base64_DecodeString : string -> option (list Z);
  (** [base64.StdEncoding.EncodeToString] *)
  base64_EncodeToString : string -> string;
  (** [float32(x)] read back as a float64, on bits. *)
  float32 : Z -> Z;
  (** The instant, in nanoseconds, that a timestamp column gives back for
      the instant written to it. *)
  db_timestamp : Z -> Z;
  (** [json.Unmarshal] into a [map[string]interface{}] and into a
      [[]interface{}]; [None] is the nil value that an error or the text
      [null] leaves. *)
  json_Unmarshal_map : string -> option (list (string * Json.value));
  json_Unmarshal_slice : string -> option (list Json.value);
  (** [json.Unmarshal] into a [FactoEvent]; [None] is an error. *)
  json_Unmarshal_event : string -> option FactoEvent;
  (** [fromBase64] of the SDK ([Buffer.from] or [atob]) and
      [ed25519.verifyAsync] of @noble/ed25519 (signature, message, public
      key), which can throw. *)
  js_fromBase64 : string -> result (list Z);
  js_verifyAsync : list Z -> list Z -> list Z -> result bool
}.

(** ** The canonical form in Go (server/api/handlers.go) *)

Module GoCanonical.
Import Json Event.

Section WithLibs.
Context `{Libs}.

(** [json.Marshal]: the keys of a map are written in sorted order. *)
Fixpoint marshal (v : value) : string :=
  match v with
  | Null | NilMap => "null"
  | Bool true => "true"
  | Bool false => "false"
  | Float64 f => formatFloat64 f
  | Int64 z => formatInt z
  | Str s => encodeString s
  | Array l => String.append "[" (String.append (join "," (map marshal l)) "]")
  | Object m =>
      let members := map (fun kv => let '(k, v') := kv in (k, marshal v')) m in
      String.append "{"
        (String.append
           (join "," (map (fun ks => String.append (encodeString (fst ks))
                                       (String.append ":" (snd ks)))
                          (sortByKey members)))
           "}")
  end.

(** [sortedMap], on the value that holds the map: a value that is a map is
    rebuilt with its keys in sorted order and its values treated in the
    same way; a nil map gives an empty map; any other value is kept. *)
Fixpoint sortedValue (v : value) : value :=
  match v with
  | Object m =>
      Object (sortByKey (map (fun kv => let '(k, v') := kv in (k, sortedValue v')) m))
  | NilMap => Object []
  | _ => v
  end.

Definition sortedMap (m : list (string * value)) : list (string * value) :=
  sortByKey (map (fun kv => let '(k, v') := kv in (k, sortedValue v')) m).

Definition ptrString (p : option string) : value :=
  match p with Some s => Str s | None => Null end.
Definition ptrInt64 (p : option Z) : value :=
  match p with Some z => Int64 z | None => Null end.
Definition goMap (m : option (list (string * value))) : value :=
  match m with Some m' => Object m' | None => NilMap end.
Definition goSlice (l : option (list value)) : value :=
  match l with Some l' => Array l' | None => Null end.

Definition buildCanonicalForm (event : EventResponse) : string :=
  let canonical := [] in
  let canonical := mapSet "action_type" (Str (ActionType event)) canonical in
  let canonical := mapSet "agent_id" (Str (AgentID event)) canonical in
  let canonical := mapSet "completed_at" (Int64 (CompletedAt event)) canonical in
  let execMeta := [] in
  let execMeta :=
    match ModelID (ExecMeta event) with
    | Some modelID => mapSet "model_id" (Str modelID) execMeta
    | None => execMeta
    end in
  let execMeta := mapSet "seed" (ptrInt64 (Seed (ExecMeta event))) execMeta in
  let execMeta := mapSet "sdk_version" (Str (SDKVersion (ExecMeta event))) execMeta in
  let execMeta :=
    match Temperature (ExecMeta event) with
    | Some temperature => mapSet "temperature" (Float64 temperature) execMeta
    | None => execMeta
    end in
  let execMeta := mapSet "tool_calls" (goSlice (ToolCalls (ExecMeta event))) execMeta in
  let canonical := mapSet "execution_meta" (Object execMeta) canonical in
  let canonical := mapSet "input_data" (goMap (InputData event)) canonical in
  let canonical := mapSet "output_data" (goMap (OutputData event)) canonical in
  let canonical := mapSet "parent_facto_id" (ptrString (ParentFactoID event)) canonical in
  let canonical := mapSet "prev_hash" (Str (PrevHash (Proof_ event))) canonical in
  let canonical := mapSet "session_id" (Str (SessionID event)) canonical in
  let canonical := mapSet "started_at" (Int64 (StartedAt event)) canonical in
  let canonical := mapSet "status" (Str (Status event)) canonical in
  let canonical := mapSet "facto_id" (Str (FactoID event)) canonical in
  marshal (Object (sortedMap canonical)).

End WithLibs.
End GoCanonical.

(** ** The canonical form in the TypeScript SDK (sdk/typescript/src/crypto.ts)

    A [FactoEventWire] is read from the same record: [null] is [None], and
    the numbers that are integers are [Int64]. *)

Module TS.
Import Json Event.

(** ECMAScript [QuoteJSONString], on the bytes of a well-formed string. *)
Definition quoteChar (c : ascii) : string :=
  let b := byte c in
  if b =? 8 then "\b"
  else if b =? 9 then "\t"
  else if b =? 10 then "\n"
  else if b =? 12 then "\f"
  else if b =? 13 then "\r"
  else if b =? 34 then String "\" (String "034"%char EmptyString)
  else if b =? 92 then "\\"
  else if b <? 32 then
    String.append "\u00"
      (String (Hex.hexdigit (Z.shiftr b 4))
         (String (Hex.hexdigit (Z.land b 15)) EmptyString))
  else String c EmptyString.

Fixpoint quoteBody (s : string) : string :=
  match s with
  | EmptyString => EmptyString
  | String c s' => String.append (quoteChar c) (quoteBody s')
  end.

Definition QuoteJSONString (s : string) : string :=
  String "034"%char (String.append (quoteBody s) (String "034"%char EmptyString)).

Section WithLibs.
Context `{Libs}.

(** [JSON.stringify(value, replacer)] for a replacer that is an array:
    [SerializeJSONProperty] with the property list [K].  The members of
    every object, at any depth, are the properties named in [K], in the
    order of [K]; a property that the object lacks is skipped. *)
Fixpoint stringify (K : list string) (v : value) : string :=
  match v with
  | Null | NilMap => "null"
  | Bool true => "true"
  | Bool false => "false"
  | Float64 f => numberToString f
  | Int64 z => formatInt z
  | Str s => QuoteJSONString s
  | Array l => String.append "[" (String.append (join "," (map (stringify K) l)) "]")
  | Object m =>
      let members := map (fun kv => let '(k, v') := kv in (k, stringify K v')) m in
      String.append "{"
        (String.append
           (join ","
              (flat_map (fun P =>
                           match mapGet P members with
                           | Some str => [String.append (QuoteJSONString P)
                                            (String.append ":" str)]
                           | None => []
                           end) K))
           "}")
  end.

Definition nullable {A} (f : A -> value) (x : option A) : value :=
  match x with Some a => f a | None => Null end.

Definition buildCanonicalForm (event : FactoEvent) : string :=
  let canonical := [] in
  let canonical := mapSet "action_type" (Str (ActionType event)) canonical in
  let canonical := mapSet "agent_id" (Str (AgentID event)) canonical in
  let canonical := mapSet "completed_at" (Int64 (CompletedAt event)) canonical in
  let execMeta := [] in
  let execMeta :=
    match ModelID (ExecMeta event) with
    | Some model_id => mapSet "model_id" (Str model_id) execMeta
    | None => execMeta
    end in
  let execMeta := mapSet "seed" (nullable Int64 (Seed (ExecMeta event))) execMeta in
  let execMeta := mapSet "sdk_version" (Str (SDKVersion (ExecMeta event))) execMeta in
  let execMeta :=
    match Temperature (ExecMeta event) with
    | Some temperature => mapSet "temperature" (Float64 temperature) execMeta
    | None => execMeta
    end in
  let execMeta := mapSet "tool_calls" (nullable Array (ToolCalls (ExecMeta event))) execMeta in
  let canonical := mapSet "execution_meta" (Object execMeta) canonical in
  let canonical := mapSet "input_data" (nullable Object (InputData event)) canonical in
  let canonical := mapSet "output_data" (nullable Object (OutputData event)) canonical in
  let canonical := mapSet "parent_facto_id" (nullable Str (ParentFactoID event)) canonical in
  let canonical := mapSet "prev_hash" (Str (PrevHash (Proof_ event))) canonical in
  let canonical := mapSet "session_id" (Str (SessionID event)) canonical in
  let canonical := mapSet "started_at" (Int64 (StartedAt event)) canonical in
  let canonical := mapSet "status" (Str (Status event)) canonical in
  let canonical := mapSet "facto_id" (Str (FactoID event)) canonical in
  stringify (sortStrings (map fst canonical)) (Object canonical).

End WithLibs.
End TS.

(** ** The tables of the store

    A table is the sequence of the rows written to it, in the order in which
    a read returns them.  [time.Time] values are nanoseconds since the
    epoch. *)

Module Store.

(** A row of [events] and of [events_by_facto_id]. *)
Record Row := {
  agent_id : string;
  date : Z;
  facto_id : string;
  session_id : string;
  parent_facto_id : string;
  action_type : string;
  status : string;
  input_data : string;
  output_data : string;
  model_id : string;
  model_hash : string;
  temperature : Z;
  seed : Z;
  max_tokens : Z;
  tool_calls : string;
  sdk_version : string;
  sdk_language : string;
  tags : option (list (string * string));
  signature : string;
  public_key : string;
  prev_hash : string;
  event_hash : string;
  started_at : Z;
  completed_at : Z;
  received_at : Z
}.

(** A row of [merkle_roots]. *)
Record MerkleRootRow := {
  mr_date : Z;
  bucket_time : Z;
  root_hash : string;
  event_count : Z;
  first_facto_id : string;
  last_facto_id : string;
  event_hashes : list string;
  created_at : Z
}.

(** The columns of [events_by_session] are those of [Row] without [date],
    [model_hash], [seed], [max_tokens] and [tool_calls]; a row of that table
    is a [Row] in which these columns are not read. *)
Record Database := {
  events : list Row;
  events_by_facto_id : list Row;
  events_by_session : list Row;
  merkle_roots : list MerkleRootRow
}.

Definition day : Z := 86400000000000.

(** [t.UTC().Truncate(24 * time.Hour)] *)
Definition truncateDay (t : Z) : Z := (t / day) * day.

End Store.

(** ** The processor's storage (server/processor/storage.go) *)

Module ProcStorage.
Import Json Event Store.

(** Which of the writes of one flush fail, and the clock. *)
Record Env := {
  now : Z;
  events_fails : bool;
  by_facto_id_fails : bool;
  by_session_fails : bool;
  merkle_root_fails : bool
}.

Section WithLibs.
Context `{Libs}.

Record eventData := {
  event : FactoEvent;
  inputData : string;
  outputData : string;
  toolCalls : string;
  completedTime : Z;
  eventDate : Z;
  modelID : string;
  modelHash : string;
  sdkVersion : string;
  sdkLanguage : string;
  temperature_ : Z;
  seed_ : Z;
  maxTokens : Z;
  parentFactoID : string
}.

Definition orEmpty (p : option string) : string :=
  match p with Some s => s | None => EmptyString end.
Definition orZero (p : option Z) : Z :=
  match p with Some z => z | None => 0 end.

(** The pre-processing loop of [StoreBatch]. *)
Definition preprocess (event : FactoEvent) : eventData :=
  let completedTime := CompletedAt event in
  {| event := event;
     inputData := GoCanonical.marshal (GoCanonical.goMap (InputData event));
     outputData := GoCanonical.marshal (GoCanonical.goMap (OutputData event));
     toolCalls := GoCanonical.marshal (GoCanonical.goSlice (ToolCalls (ExecMeta event)));
     completedTime := completedTime;
     eventDate := truncateDay completedTime;
     modelID := orEmpty (ModelID (ExecMeta event));
     modelHash := orEmpty (ModelHash (ExecMeta event));
     sdkVersion := SDKVersion (ExecMeta event);
     sdkLanguage := SDKLanguage (ExecMeta event);
     temperature_ :=
       match Temperature (ExecMeta event) with
       | Some t => float32 t
       | None => 0
       end;
     seed_ := orZero (Seed (ExecMeta event));
     maxTokens := orZero (MaxTokens (ExecMeta event));
     parentFactoID := orEmpty (ParentFactoID event) |}.

(** The row written for an event to [events] and to [events_by_facto_id]. *)
Definition fullRow (now : Z) (e : eventData) : Row :=
  {| agent_id := AgentID (event e); date := eventDate e;
     facto_id := FactoID (event e); session_id := SessionID (event e);
     parent_facto_id := parentFactoID e;
     action_type := ActionType (event e); status := Status (event e);
     input_data := inputData e; output_data := outputData e;
     model_id := modelID e; model_hash := modelHash e;
     temperature := temperature_ e; seed := seed_ e; max_tokens := maxTokens e;
     tool_calls := toolCalls e;
     sdk_version := sdkVersion e; sdk_language := sdkLanguage e;
     tags := Tags (ExecMeta (event e));
     signature := Signature (Proof_ (event e));
     public_key := PublicKey (Proof_ (event e));
     prev_hash := PrevHash (Proof_ (event e));
     event_hash := EventHash (Proof_ (event e));
     started_at := db_timestamp (StartedAt (event e));
     completed_at := db_timestamp (completedTime e);
     received_at := db_timestamp now |}.

(** The row written to [events_by_session]: the columns that the table
    lacks are left at their zero values. *)
Definition sessionRow (now : Z) (e : eventData) : Row :=
  {| agent_id := AgentID (event e); date := 0;
     facto_id := FactoID (event e); session_id := SessionID (event e);
     parent_facto_id := parentFactoID e;
     action_type := ActionType (event e); status := Status (event e);
     input_data := inputData e; output_data := outputData e;
     model_id := modelID e; model_hash := EmptyString;
     temperature := temperature_ e; seed := 0; max_tokens := 0;
     tool_calls := EmptyString;
     sdk_version := sdkVersion e; sdk_language := sdkLanguage e;
     tags := Tags (ExecMeta (event e));
     signature := Signature (Proof_ (event e));
     public_key := PublicKey (Proof_ (event e));
     prev_hash := PrevHash (Proof_ (event e));
     event_hash := EventHash (Proof_ (event e));
     started_at := db_timestamp (StartedAt (event e));
     completed_at := db_timestamp (completedTime e);
     received_at := db_timestamp now |}.

(** [ExecuteBatch]: the rows of a batch are all written, or the batch fails
    and none is. *)
Definition executeBatch {A} (fails : bool) (table rows : list A) : list A * bool :=
  if fails then (table, false) else (table ++ rows, true).

Definition storeEventsBatch (env : Env) (db : Database) (es : list eventData)
  : Database * bool :=
  let '(t, ok) := executeBatch (events_fails env) (events db) (map (fullRow (now env)) es) in
  ({| events := t; events_by_facto_id := events_by_facto_id db;
      events_by_session := events_by_session db; merkle_roots := merkle_roots db |}, ok).

Definition storeByFactoIDBatch (env : Env) (db : Database) (es : list eventData)
  : Database * bool :=
  let '(t, ok) := executeBatch (by_facto_id_fails env) (events_by_facto_id db)
                    (map (fullRow (now env)) es) in
  ({| events := events db; events_by_facto_id := t;
      events_by_session := events_by_session db; merkle_roots := merkle_roots db |}, ok).

Definition storeBySessionBatch (env : Env) (db : Database) (es : list eventData)
  : Database * bool :=
  let '(t, ok) := executeBatch (by_session_fails env) (events_by_session db)
                    (map (sessionRow (now env)) es) in
  ({| events := events db; events_by_facto_id := events_by_facto_id db;
      events_by_session := t; merkle_roots := merkle_roots db |}, ok).

(** [StoreBatch]: the three batches write to three different tables, so that
    running them one after the other gives the store that running them
    together gives; [g.Wait()] returns an error when one of them failed. *)
Definition StoreBatch (env : Env) (db : Database) (evs : list FactoEvent)
  : Database * bool :=
  let processedEvents := map preprocess evs in
  let '(db1, ok1) := storeEventsBatch env db processedEvents in
  let '(db2, ok2) := storeByFactoIDBatch env db1 processedEvents in
  let '(db3, ok3) := storeBySessionBatch env db2 processedEvents in
  (db3, ok1 && ok2 && ok3).

Definition StoreMerkleRoot (env : Env) (db : Database) (bucketTime : Z)
    (rootHash : string) (eventCount : Z) (firstFactoID lastFactoID : string)
    (eventHashes : list string) : Database * bool :=
  let row := {| mr_date := truncateDay bucketTime; bucket_time := db_timestamp bucketTime;
                root_hash := rootHash; event_count := eventCount;
                first_facto_id := firstFactoID; last_facto_id := lastFactoID;
                event_hashes := eventHashes; created_at := db_timestamp (now env) |} in
  let '(t, ok) := executeBatch (merkle_root_fails env) (merkle_roots db) [row] in
  ({| events := events db; events_by_facto_id := events_by_facto_id db;
      events_by_session := events_by_session db; merkle_roots := t |}, ok).

End WithLibs.
End ProcStorage.

(** ** The consumer (server/processor/consumer.go) *)

Module Consumer.
Import Event Store ProcStorage.

(** A [jetstream.Msg]: its payload, and a name that tells messages apart. *)
Record Msg := {
  Data : string;
  msg_id : nat
}.

Inductive Reply := Ack (m : Msg) | Nak (m : Msg).

Record Metrics := {
  eventsConsumed : Z;
  eventsProcessed : Z;
  eventsFailedTotal : Z;
  batchesProcessed : Z;
  merkleTreesCreated : Z
}.

(** What the consumer acts on: the store, the replies sent to the message
    bus (the oldest first) and the counters. *)
Record World := {
  db : Database;
  replies : list Reply;
  metrics : Metrics
}.

Record t := {
  batchSize : Z;
  events : list FactoEvent;
  messages : list Msg
}.

(** [NewConsumer] *)
Definition NewConsumer (batchSize : Z) : t :=
  {| batchSize := batchSize; events := []; messages := [] |}.

Definition addProcessed (n : Z) (m : Metrics) : Metrics :=
  {| eventsConsumed := eventsConsumed m; eventsProcessed := eventsProcessed m + n;
     eventsFailedTotal := eventsFailedTotal m; batchesProcessed := batchesProcessed m;
     merkleTreesCreated := merkleTreesCreated m |}.
Definition addFailed (n : Z) (m : Metrics) : Metrics :=
  {| eventsConsumed := eventsConsumed m; eventsProcessed := eventsProcessed m;
     eventsFailedTotal := eventsFailedTotal m + n; batchesProcessed := batchesProcessed m;
     merkleTreesCreated := merkleTreesCreated m |}.
Definition incConsumed (m : Metrics) : Metrics :=
  {| eventsConsumed := eventsConsumed m + 1; eventsProcessed := eventsProcessed m;
     eventsFailedTotal := eventsFailedTotal m; batchesProcessed := batchesProcessed m;
     merkleTreesCreated := merkleTreesCreated m |}.
Definition incBatches (m : Metrics) : Metrics :=
  {| eventsConsumed := eventsConsumed m; eventsProcessed := eventsProcessed m;
     eventsFailedTotal := eventsFailedTotal m; batchesProcessed := batchesProcessed m + 1;
     merkleTreesCreated := merkleTreesCreated m |}.
Definition incMerkleTrees (m : Metrics) : Metrics :=
  {| eventsConsumed := eventsConsumed m; eventsProcessed := eventsProcessed m;
     eventsFailedTotal := eventsFailedTotal m; batchesProcessed := batchesProcessed m;
     merkleTreesCreated := merkleTreesCreated m + 1 |}.

Section WithLibs.
Context `{Libs}.

(** [flush]; [None] is a call of [BuildMerkleTree] that does not return. *)
Definition flush (env : Env) (c : t) (w : World) : option (t * World) :=
  if (length (events c) =? 0)%nat then Some (c, w)
  else
    let eventCount := Z.of_nat (length (events c)) in
    let hashes := map (fun event => EventHash (Proof_ event)) (events c) in
    match Merkle.BuildMerkleTree hashes with
    | None => None
    | Some tree =>
        let merkleRoot := Merkle.Root tree in
        let mt := incMerkleTrees (metrics w) in
        let '(db1, stored) := StoreBatch env (db w) (events c) in
        let w1 :=
          if negb stored then
            (* NAK all messages *)
            {| db := db1;
               replies := replies w ++ map Nak (messages c);
               metrics := addFailed eventCount mt |}
          else
            (* Store Merkle root; its error is only logged *)
            let db2 :=
              match events c with
              | [] => db1
              | first :: _ =>
                  fst (StoreMerkleRoot env db1 (now env) merkleRoot eventCount
                         (FactoID first) (FactoID (List.last (events c) first))
                         hashes)
              end in
            (* ACK all messages *)
            {| db := db2;
               replies := replies w ++ map Ack (messages c);
               metrics := addProcessed eventCount mt |} in
        let w2 := {| db := db w1; replies := replies w1;
                     metrics := incBatches (metrics w1) |} in
        (* Clear the batch *)
        Some ({| batchSize := batchSize c; events := []; messages := [] |}, w2)
    end.

(** [handleMessage] *)
Definition handleMessage (env : Env) (c : t) (w : World) (msg : Msg)
  : option (t * World) :=
  let w0 := {| db := db w; replies := replies w; metrics := incConsumed (metrics w) |} in
  match json_Unmarshal_event (Data msg) with
  | None =>
      Some (c, {| db := db w0; replies := replies w0 ++ [Nak msg];
                  metrics := addFailed 1 (metrics w0) |})
  | Some event =>
      let c1 := {| batchSize := batchSize c;
                   events := events c ++ [event];
                   messages := messages c ++ [msg] |} in
      if batchSize c <=? Z.of_nat (length (events c1)) then flush env c1 w0
      else Some (c1, w0)
  end.

(** The states of the consumer: the one that [NewConsumer] makes, and those
    that [handleMessage] and [flush] lead to, which are the only functions
    that write the two buffers. *)
Inductive reachable : t -> Prop :=
| reachable_new bs : reachable (NewConsumer bs)
| reachable_handle env c w msg c' w' :
    reachable c -> handleMessage env c w msg = Some (c', w') -> reachable c'
| reachable_flush env c w c' w' :
    reachable c -> flush env c w = Some (c', w') -> reachable c'.

End WithLibs.
End Consumer.

(** ** The query API's storage (server/api/storage.go) *)

Module ApiStorage.
Import Json Event Store.

Section WithLibs.
Context `{Libs}.

(** [json.Unmarshal([]byte(toolCalls), &tools)]: the text [[]] gives an
    empty slice. *)
Definition unmarshalSlice (text : string) : option (list value) :=
  if String.eqb text "[]" then Some [] else json_Unmarshal_slice text.

(** [temperature != 0] on the bits of a float64: both zeros compare equal
    to 0. *)
Definition floatNonZero (bits : Z) : bool :=
  negb (Z.land bits (2 ^ 63 - 1) =? 0).

Definition buildEventResponse
    (factoID agentID sessionID parentFactoID : string)
    (actionType status : string)
    (inputData outputData : string)
    (modelID modelHash : string)
    (temperature : Z)
    (seed : Z)
    (maxTokens : Z)
    (toolCalls : string)
    (sdkVersion sdkLanguage : string)
    (tags : option (list (string * string)))
    (signature publicKey : string)
    (prevHash eventHash : string)
    (startedAt completedAt : Z) : EventResponse :=
  let input := json_Unmarshal_map inputData in
  let output := json_Unmarshal_map outputData in
  let tools := unmarshalSlice toolCalls in
  let modelIDPtr := if negb (String.eqb modelID "") then Some modelID else None in
  let modelHashPtr := if negb (String.eqb modelHash "") then Some modelHash else None in
  let tempPtr := if floatNonZero temperature then Some temperature else None in
  let seedPtr := if negb (seed =? 0) then Some seed else None in
  let maxTokensPtr := if negb (maxTokens =? 0) then Some maxTokens else None in
  let parentPtr := if negb (String.eqb parentFactoID "") then Some parentFactoID else None in
  let tags := match tags with None => Some [] | Some _ => tags end in
  let tools := match tools with None => Some [] | Some _ => tools end in
  let input := match input with None => Some [] | Some _ => input end in
  let output := match output with None => Some [] | Some _ => output end in
  {| FactoID := factoID;
     AgentID := agentID;
     SessionID := sessionID;
     ParentFactoID := parentPtr;
     ActionType := actionType;
     Status := status;
     InputData := input;
     OutputData := output;
     ExecMeta := {| ModelID := modelIDPtr;
                    ModelHash := modelHashPtr;
                    Temperature := tempPtr;
                    Seed := seedPtr;
                    MaxTokens := maxTokensPtr;
                    ToolCalls := tools;
                    SDKVersion := sdkVersion;
                    SDKLanguage := sdkLanguage;
                    Tags := tags |};
     Proof_ := {| Signature := signature;
                  PublicKey := publicKey;
                  PrevHash := prevHash;
                  EventHash := eventHash |};
     StartedAt := startedAt;
     CompletedAt := completedAt |}.

(** The event built from a row of [events] or of [events_by_facto_id]. *)
Definition ofFullRow (r : Row) : EventResponse :=
  buildEventResponse (facto_id r) (agent_id r) (session_id r) (parent_facto_id r)
    (action_type r) (status r) (input_data r) (output_data r)
    (model_id r) (model_hash r) (temperature r) (seed r) (max_tokens r) (tool_calls r)
    (sdk_version r) (sdk_language r) (tags r)
    (signature r) (public_key r) (prev_hash r) (event_hash r)
    (started_at r) (completed_at r).

(** The event built from a row of [events_by_session]. *)
Definition ofSessionRow (r : Row) : EventResponse :=
  buildEventResponse (facto_id r) (agent_id r) (session_id r) (parent_facto_id r)
    (action_type r) (status r) (input_data r) (output_data r)
    (model_id r) "" (temperature r) 0 0 "[]"
    (sdk_version r) (sdk_language r) (tags r)
    (signature r) (public_key r) (prev_hash r) (event_hash r)
    (started_at r) (completed_at r).

(** The pagination at the end of [GetEvents] and [GetSessionEvents]:
    [events = events[:limit]] and [events[len(events)-1]] panic when they are
    out of range. *)
Definition paginate (limit : Z) (events : list EventResponse)
  : result (list EventResponse * option string) :=
  if limit <? Z.of_nat (length events) then
    if limit <? 0 then Panic "slice bounds out of range"
    else
      let events := firstn (Z.to_nat limit) events in
      match List.last (map Some events) None with
      | Some lastEvent =>
          Returned (events, Some (base64_EncodeToString (FactoID lastEvent)))
      | None => Panic "index out of range"
      end
  else Returned (events, None).

(** The loop [for iter.Scan(...)] of [GetSessionEvents]. *)
Fixpoint scanSession (rows : list Row) (limit : Z) (events : list EventResponse)
  : list EventResponse :=
  match rows with
  | [] => events
  | r :: rest =>
      let events := events ++ [ofSessionRow r] in
      if limit <? Z.of_nat (length events) then events
      else scanSession rest limit events
  end.

(** [GetSessionEvents]; [read_fails] tells whether [iter.Close()] returns an
    error, and [None] is the error returned. *)
Definition GetSessionEvents (db : Database) (read_fails : bool)
    (sessionID : string) (limit : Z) (cursor : string)
  : result (option (list EventResponse * option string)) :=
  let rows :=
    firstn (Z.to_nat (limit + 1))
      (filter (fun r => String.eqb (session_id r) sessionID = true)
              (events_by_session db)) in
  let events := scanSession rows limit [] in
  if read_fails then Returned None
  else
    match paginate limit events with
    | Returned page => Returned (Some page)
    | Panic msg => Panic msg
    end.

(** [GetEventByFactoID]; [Some None] is the absence of the event. *)
Definition GetEventByFactoID (db : Database) (read_fails : bool) (factoID : string)
  : option (option EventResponse) :=
  if read_fails then None
  else
    match filter (fun r => String.eqb (facto_id r) factoID = true)
                 (events_by_facto_id db) with
    | r :: _ => Some (Some (ofFullRow r))
    | [] => Some None
    end.

Fixpoint getDateRangeLoop (fuel : nat) (current endDate : Z) : list Z :=
  match fuel with
  | O => []
  | S fuel' =>
      if endDate <? current then []
      else current :: getDateRangeLoop fuel' (current + day) endDate
  end.

Definition getDateRange (start end_ : Z) : list Z :=
  let current := truncateDay start in
  let endDate := truncateDay end_ in
  getDateRangeLoop (Z.to_nat ((endDate - current) / day + 1)) current endDate.

(** The loop [for iter.Scan(...)] of [GetEvents]. *)
Fixpoint scanEvents (rows : list Row) (limit : Z) (events : list EventResponse)
  : list EventResponse :=
  match rows with
  | [] => events
  | r :: rest =>
      let events := events ++ [ofFullRow r] in
      if Z.of_nat (length events) >=? limit then events
      else scanEvents rest limit events
  end.

Fixpoint datesLoop (db : Database) (read_fails : bool) (agentID : string)
    (start end_ : Z) (limit : Z) (dates : list Z) (events : list EventResponse)
  : option (list EventResponse) :=
  match dates with
  | [] => Some events
  | d :: rest =>
      let rows :=
        firstn (Z.to_nat (limit + 1))
          (filter (fun r => (String.eqb (agent_id r) agentID && (date r =? d)
                             && (start <=? completed_at r)
                             && (completed_at r <=? end_)) = true)
                  (Store.events db)) in
      let events := scanEvents rows limit events in
      if read_fails then None
      else if Z.of_nat (length events) >=? limit then Some events
      else datesLoop db read_fails agentID start end_ limit rest events
  end.

Definition GetEvents (db : Database) (read_fails : bool) (agentID : string)
    (start end_ : Z) (limit : Z) (cursor : string)
  : result (option (list EventResponse * option string)) :=
  match datesLoop db read_fails agentID start end_ limit (getDateRange start end_) [] with
  | None => Returned None
  | Some events =>
      match paginate limit events with
      | Returned page => Returned (Some page)
      | Panic msg => Panic msg
      end
  end.

End WithLibs.
End ApiStorage.

(** ** The handlers of the query API (server/api/handlers.go) *)

Module Handlers.
Import Json Event Store ApiStorage.

Inductive http (A : Type) : Type :=
| Status200 (body : A)
| Status400
| Status404
| Status500.
Arguments Status200 {A} body.
Arguments Status400 {A}.
Arguments Status404 {A}.
Arguments Status500 {A}.

Module Verify.
Record Check := {
  HashValid : bool;
  SignatureValid : bool;
  ChainValid : option bool
}.
Record Response := {
  Valid : bool;
  Checks : Check
}.
End Verify.

Module ChainVerify.
Record Check := {
  AllHashesValid : bool;
  AllSignaturesValid : bool;
  ChainIntegrityValid : bool
}.
Record Response := {
  Valid : bool;
  EventCount : Z;
  Checks : Check;
  FirstEvent : string;
  LastEvent : string;
  SessionHash : string;
  Errors : list string
}.
End ChainVerify.

(** [s[:16]] *)
Definition slice16 (s : string) : result string :=
  if (String.length s <? 16)%nat then Panic "slice bounds out of range"
  else Returned (String.substring 0 16 s).

Definition zeroHash : string :=
  "0000000000000000000000000000000000000000000000000000000000000000".

(** [sort.Slice(events, ...)] with the order of [CompletedAt]: an insertion
    sort, which is what [sort.Slice] runs on a slice of at most 12 elements;
    the order in which a longer slice leaves events of equal [CompletedAt]
    is not defined by the library. *)
Fixpoint insertSorted (e : EventResponse) (sorted : list EventResponse)
  : list EventResponse :=
  match sorted with
  | [] => [e]
  | x :: rest =>
      if CompletedAt e <? CompletedAt x then e :: sorted
      else x :: insertSorted e rest
  end.

Definition sortSlice (events : list EventResponse) : list EventResponse :=
  fold_left (fun sorted e => insertSorted e sorted) events [].

Section WithLibs.
Context `{Libs}.

Definition verifyHash (event : EventResponse) : bool :=
  let canonical := GoCanonical.buildCanonicalForm event in
  let hash := sha3_Sum256 (Hex.bytes_of_string canonical) in
  let computedHash := Hex.EncodeToString hash in
  String.eqb computedHash (EventHash (Proof_ event)).

(** [ed25519.Verify] panics on a public key that is not of 32 bytes. *)
Definition ed25519_Verify (publicKey message sig : list Z) : result bool :=
  if (length publicKey =? 32)%nat
  then Returned (ed25519_check publicKey message sig)
  else Panic "ed25519: bad public key length".

Definition verifySignature (event : EventResponse) : result bool :=
  match base64_DecodeString (PublicKey (Proof_ event)) with
  | None => Returned false
  | Some pubKeyBytes =>
      if negb (length pubKeyBytes =? 32)%nat then Returned false
      else
        match base64_DecodeString (Signature (Proof_ event)) with
        | None => Returned false
        | Some sigBytes =>
            if negb (length sigBytes =? 64)%nat then Returned false
            else
              let canonical := GoCanonical.buildCanonicalForm event in
              ed25519_Verify pubKeyBytes (Hex.bytes_of_string canonical) sigBytes
        end
  end.

(** [VerifyEvent], for a request body that was bound to an event. *)
Definition VerifyEvent (event : EventResponse) : result (http Verify.Response) :=
  let hashValid := verifyHash event in
  match verifySignature event with
  | Panic msg => Panic msg
  | Returned signatureValid =>
      Returned (Status200
        {| Verify.Valid := hashValid && signatureValid;
           Verify.Checks := {| Verify.HashValid := hashValid;
                               Verify.SignatureValid := signatureValid;
                               Verify.ChainValid := None |} |})
  end.

Import ChainVerify.

Definition addError (msg : string) (r : Response) : Response :=
  {| Valid := Valid r; EventCount := EventCount r; Checks := Checks r;
     FirstEvent := FirstEvent r; LastEvent := LastEvent r;
     SessionHash := SessionHash r; Errors := Errors r ++ [msg] |}.

Definition setChecks (c : Check) (r : Response) : Response :=
  {| Valid := Valid r; EventCount := EventCount r; Checks := c;
     FirstEvent := FirstEvent r; LastEvent := LastEvent r;
     SessionHash := SessionHash r; Errors := Errors r |}.

(** "Verify all hashes" *)
Fixpoint hashLoop (events : list EventResponse) (response : Response) : Response :=
  match events with
  | [] => response
  | event :: rest =>
      let response :=
        if negb (verifyHash event) then
          addError (String.append "Hash invalid for event: " (FactoID event))
            (setChecks {| AllHashesValid := false;
                          AllSignaturesValid := AllSignaturesValid (Checks response);
                          ChainIntegrityValid := ChainIntegrityValid (Checks response) |}
                       response)
        else response in
      hashLoop rest response
  end.

(** "Verify all signatures" *)
Fixpoint signatureLoop (events : list EventResponse) (response : Response)
  : result Response :=
  match events with
  | [] => Returned response
  | event :: rest =>
      match verifySignature event with
      | Panic msg => Panic msg
      | Returned ok =>
          let response :=
            if negb ok then
              addError (String.append "Signature invalid for event: " (FactoID event))
                (setChecks {| AllHashesValid := AllHashesValid (Checks response);
                              AllSignaturesValid := false;
                              ChainIntegrityValid := ChainIntegrityValid (Checks response) |}
                           response)
            else response in
          signatureLoop rest response
      end
  end.

(** "Verify chain integrity (prev_hash links)" *)
Fixpoint chainLoop (events : list EventResponse) (expectedPrevHash : string)
    (response : Response) : result Response :=
  match events with
  | [] => Returned response
  | event :: rest =>
      let step :=
        if negb (String.eqb (PrevHash (Proof_ event)) expectedPrevHash) then
          match slice16 expectedPrevHash with
          | Panic msg => Panic msg
          | Returned expected16 =>
              match slice16 (PrevHash (Proof_ event)) with
              | Panic msg => Panic msg
              | Returned got16 =>
                  Returned
                    (addError
                       (String.concat ""
                          [ "Chain broken at event: "; FactoID event;
                            " (expected prev_hash: "; expected16;
                            "..., got: "; got16; "...)" ])
                       (setChecks
                          {| AllHashesValid := AllHashesValid (Checks response);
                             AllSignaturesValid := AllSignaturesValid (Checks response);
                             ChainIntegrityValid := false |}
                          response))
              end
          end
        else Returned response in
      match step with
      | Panic msg => Panic msg
      | Returned response => chainLoop rest (EventHash (Proof_ event)) response
      end
  end.

(** [VerifyChain], for the query parameter [session_id]. *)
Definition VerifyChain (db : Database) (read_fails : bool) (sessionID : string)
  : result (http Response) :=
  if String.eqb sessionID "" then Returned Status400
  else
    match GetSessionEvents db read_fails sessionID 10000 "" with
    | Panic msg => Panic msg
    | Returned None => Returned Status500
    | Returned (Some ([], _)) => Returned Status404
    | Returned (Some (events, _)) =>
        let events := sortSlice events in
        match events with
        | [] => Panic "index out of range"
        | first :: _ =>
            let response :=
              {| Valid := false;
                 EventCount := Z.of_nat (length events);
                 FirstEvent := FactoID first;
                 LastEvent := FactoID (List.last events first);
                 Checks := {| AllHashesValid := true;
                              AllSignaturesValid := true;
                              ChainIntegrityValid := true |};
                 SessionHash := EmptyString;
                 Errors := [] |} in
            let response := hashLoop events response in
            match signatureLoop events response with
            | Panic msg => Panic msg
            | Returned response =>
                match chainLoop events zeroHash response with
                | Panic msg => Panic msg
                | Returned response =>
                    let hashConcat :=
                      String.concat "" (map (fun event => EventHash (Proof_ event)) events) in
                    let sessionHashBytes := SHA256.Sum256 (Hex.bytes_of_string hashConcat) in
                    Returned (Status200
                      {| Valid := AllHashesValid (Checks response)
                                  && AllSignaturesValid (Checks response)
                                  && ChainIntegrityValid (Checks response);
                         EventCount := EventCount response;
                         Checks := Checks response;
                         FirstEvent := FirstEvent response;
                         LastEvent := LastEvent response;
                         SessionHash := Hex.EncodeToString sessionHashBytes;
                         Errors := Errors response |})
                end
            end
        end
    end.

End WithLibs.
End Handlers.

(** ** Verification in the TypeScript SDK (sdk/typescript/src/crypto.ts) *)

Module TSVerify.
Import Event.

Section WithLibs.
Context `{Libs}.

(** [computeHash] *)
Definition computeHash (canonical : string) : string :=
  Hex.EncodeToString (sha3_Sum256 (Hex.bytes_of_string canonical)).

(** [CryptoProvider.verify]: an exception of [verifyAsync] is caught. *)
Definition verify (message signature publicKey : list Z) : bool :=
  match js_verifyAsync signature message publicKey with
  | Returned ok => ok
  | Panic _ => false
  end.

(** [verifyEvent]; a [Panic] would be an exception that leaves it. *)
Definition verifyEvent (event : FactoEvent) : result (bool * bool) :=
  let canonical := TS.buildCanonicalForm event in
  let computedHash := computeHash canonical in
  let hashValid := String.eqb computedHash (EventHash (Proof_ event)) in
  let signatureValid :=
    match js_fromBase64 (PublicKey (Proof_ event)) with
    | Panic _ => false
    | Returned publicKey =>
        match js_fromBase64 (Signature (Proof_ event)) with
        | Panic _ => false
        | Returned signature =>
            verify (Hex.bytes_of_string canonical) signature publicKey
        end
    end in
  Returned (hashValid, signatureValid).

End WithLibs.
End TSVerify.

(** ** The text of the canonical form, written out

    The serialisations above, unfolded for the mapping that
    [buildCanonicalForm] builds: the keys in the order in which they are
    written, each followed by the text of its value. *)

Module CanonicalText.
Import Json Event.

(** [join "," l] followed by [tail], nested to the right. *)
Fixpoint joinTail (l : list string) (tail : string) : string :=
  match l with
  | [] => tail
  | [x] => String.append x tail
  | x :: l' => String.append x (String.append "," (joinTail l' tail))
  end.

Definition nullOr {A} (f : A -> string) (x : option A) : string :=
  match x with Some a => f a | None => "null" end.

(** The event [e] with another [execution_meta]. *)
Definition withExecMeta (e : FactoEvent) (m : ExecutionMeta) : FactoEvent :=
  {| FactoID := FactoID e; AgentID := AgentID e; SessionID := SessionID e;
     ParentFactoID := ParentFactoID e; ActionType := ActionType e;
     Status := Status e; InputData := InputData e; OutputData := OutputData e;
     ExecMeta := m; Proof_ := Proof_ e;
     StartedAt := StartedAt e; CompletedAt := CompletedAt e |}.

(** A text between double quotes. *)
Definition quoted (s : string) : string :=
  String "034"%char (String.append s (String "034"%char EmptyString)).

(** The names of the canonical mapping, sorted. *)
Definition canonicalKeys : list string :=
  [ "action_type"; "agent_id"; "completed_at"; "execution_meta"; "facto_id";
    "input_data"; "output_data"; "parent_facto_id"; "prev_hash"; "session_id";
    "started_at"; "status" ]%string.

Section WithLibs.
Context `{Libs}.

Definition goExecMetaText (m : ExecutionMeta) : string :=
  String.concat ""
    [ "{";
      match ModelID m with
      | Some id => String.concat "" [ encodeString "model_id"; ":"; encodeString id; "," ]
      | None => ""
      end;
      encodeString "sdk_version"; ":"; encodeString (SDKVersion m);
      ","; encodeString "seed"; ":"; nullOr formatInt (Seed m);
      match Temperature m with
      | Some x => String.concat "" [ ","; encodeString "temperature"; ":"; formatFloat64 x ]
      | None => ""
      end;
      ","; encodeString "tool_calls"; ":";
        GoCanonical.marshal (GoCanonical.goSlice (ToolCalls m));
      "}" ].

Definition goCanonicalText (e : EventResponse) : string :=
  String.concat ""
    [
      "{"; encodeString "action_type"; ":"; encodeString (ActionType e);
      ","; encodeString "agent_id"; ":"; encodeString (AgentID e);
      ","; encodeString "completed_at"; ":"; formatInt (CompletedAt e);
      ","; encodeString "execution_meta"; ":"; goExecMetaText (ExecMeta e);
      ","; encodeString "facto_id"; ":"; encodeString (FactoID e);
      ","; encodeString "input_data"; ":"; GoCanonical.marshal (GoCanonical.sortedValue (GoCanonical.goMap (InputData e)));
      ","; encodeString "output_data"; ":"; GoCanonical.marshal (GoCanonical.sortedValue (GoCanonical.goMap (OutputData e)));
      ","; encodeString "parent_facto_id"; ":"; nullOr encodeString (ParentFactoID e);
      ","; encodeString "prev_hash"; ":"; encodeString (PrevHash (Proof_ e));
      ","; encodeString "session_id"; ":"; encodeString (SessionID e);
      ","; encodeString "started_at"; ":"; formatInt (StartedAt e);
      ","; encodeString "status"; ":"; encodeString (Status e);
      "}" ].

Definition tsCanonicalText (e : FactoEvent) : string :=
  String.concat ""
    [
      "{"; TS.QuoteJSONString "action_type"; ":"; TS.QuoteJSONString (ActionType e);
      ","; TS.QuoteJSONString "agent_id"; ":"; TS.QuoteJSONString (AgentID e);
      ","; TS.QuoteJSONString "completed_at"; ":"; formatInt (CompletedAt e);
      ","; TS.QuoteJSONString "execution_meta"; ":"; "{}";
      ","; TS.QuoteJSONString "facto_id"; ":"; TS.QuoteJSONString (FactoID e);
      ","; TS.QuoteJSONString "input_data"; ":"; TS.stringify canonicalKeys (TS.nullable Object (InputData e));
      ","; TS.QuoteJSONString "output_data"; ":"; TS.stringify canonicalKeys (TS.nullable Object (OutputData e));
      ","; TS.QuoteJSONString "parent_facto_id"; ":"; nullOr TS.QuoteJSONString (ParentFactoID e);
      ","; TS.QuoteJSONString "prev_hash"; ":"; TS.QuoteJSONString (PrevHash (Proof_ e));
      ","; TS.QuoteJSONString "session_id"; ":"; TS.QuoteJSONString (SessionID e);
      ","; TS.QuoteJSONString "started_at"; ":"; formatInt (StartedAt e);
      ","; TS.QuoteJSONString "status"; ":"; TS.QuoteJSONString (Status e);
      "}" ].

End WithLibs.
End CanonicalText.

(** ** The chain of a session, as a function of the sorted events *)

Module ChainSpec.
Import Event Handlers.

(** Folding the expected prev-hash over the events: every [prev_hash] is
    the expected value, which starts at [expected] and becomes the
    [event_hash] of each event in turn. *)
Fixpoint linksOk (expected : string) (events : list EventResponse) : bool :=
  match events with
  | [] => true
  | event :: rest =>
      String.eqb (PrevHash (Proof_ event)) expected
      && linksOk (EventHash (Proof_ event)) rest
  end.

(** The entry recorded for an event whose [prev_hash] is not the expected
    value. *)
Definition brokenEntry (expected : string) (event : EventResponse) : string :=
  String.concat ""
    [ "Chain broken at event: "; FactoID event;
      " (expected prev_hash: "; String.substring 0 16 expected;
      "..., got: "; String.substring 0 16 (PrevHash (Proof_ event)); "...)" ].

Fixpoint brokenEntries (expected : string) (events : list EventResponse) : list string :=
  match events with
  | [] => []
  | event :: rest =>
      (if String.eqb (PrevHash (Proof_ event)) expected then []
       else [brokenEntry expected event])
      ++ brokenEntries (EventHash (Proof_ event)) rest
  end.

(** Every hash that the chain loop can slice has 16 characters or more. *)
Definition longHashes (event : EventResponse) : Prop :=
  (16 <= String.length (PrevHash (Proof_ event)))%nat /\
  (16 <= String.length (EventHash (Proof_ event)))%nat.

(** The rows whose hashes the handler can slice without a panic. *)
Definition longRow (r : Store.Row) : Prop :=
  (16 <= String.length (Store.prev_hash r))%nat /\
  (16 <= String.length (Store.event_hash r))%nat.

(** The instants that [UnixNano] gives as they are: those of the range of
    [int64]. *)
Definition inInt64 (z : Z) : Prop := (- 2 ^ 63 <= z < 2 ^ 63)%Z.

(** A float64, by its bits, that is neither an infinity nor a NaN:
    [json.Marshal] has an error for the others, which [buildCanonicalForm]
    drops. *)
Definition finiteFloat64 (bits : Z) : Prop :=
  Z.land (Z.shiftr bits 52) 2047 <> 2047%Z.

(** The rows for which the report of [VerifyChain] is stated: the hashes
    can be sliced, the temperature can be marshalled, and the time stamps are
    in the range of [UnixNano]. *)
Definition reportableRow (r : Store.Row) : Prop :=
  longRow r /\ finiteFloat64 (Store.temperature r) /\
  inInt64 (Store.started_at r) /\ inInt64 (Store.completed_at r).

End ChainSpec.

(** ** The record of a flush *)

Module FlushSpec.
Import Event Store ProcStorage Consumer.

Section WithLibs.
Context `{Libs}.

(** The record that a flush writes to [merkle_roots]. *)
Definition merkleRootRow (env : Env) (c : Consumer.t) (tree : Merkle.MerkleTree)
    (first : FactoEvent) : MerkleRootRow :=
  {| mr_date := truncateDay (now env);
     bucket_time := db_timestamp (now env);
     root_hash := Merkle.Root tree;
     event_count := Z.of_nat (length (Consumer.events c));
     first_facto_id := FactoID first;
     last_facto_id := FactoID (List.last (Consumer.events c) first);
     event_hashes := map (fun event => EventHash (Proof_ event)) (Consumer.events c);
     created_at := db_timestamp (now env) |}.

End WithLibs.
End FlushSpec.

(** ** Sample data *)

Module Samples.
Import Json Event Store.

(** Library functions for the evaluation of the code on sample data; no
    property below depends on what they compute. *)
Definition sampleLibs : Libs := {|
  formatFloat64 := fun _ => "0"%string;
  numberToString := fun _ => "0"%string;
  sha3_Sum256 := SHA256.Sum256;
  ed25519_check := fun _ _ _ => false;
  base64_DecodeString := fun _ => None;
  base64_EncodeToString := fun s => s;
  float32 := fun x => x;
  db_timestamp := fun t => t;
  json_Unmarshal_map := fun _ => None;
  json_Unmarshal_slice := fun _ => None;
  json_Unmarshal_event := fun _ => None;
  js_fromBase64 := fun _ => Panic "invalid";
  js_verifyAsync := fun _ _ _ => Panic "invalid"
|}.

Definition sampleMeta (seed : option Z) : ExecutionMeta :=
  {| ModelID := None; ModelHash := None; Temperature := None; Seed := seed;
     MaxTokens := None; ToolCalls := Some []; SDKVersion := "0.1.0";
     SDKLanguage := "typescript"; Tags := Some [] |}.

(** The event of the SDK's test of [buildCanonicalForm], with an input. *)
Definition sampleEvent (seed : option Z) (prev_hash event_hash : string)
    (completed_at : Z) : FactoEvent :=
  {| FactoID := "ft-test"; AgentID := "agent-test"; SessionID := "session-test";
     ParentFactoID := None; ActionType := "test"; Status := "success";
     InputData := Some [("key"%string, Str "value")];
     OutputData := Some [("result"%string, Str "ok")];
     ExecMeta := sampleMeta seed;
     Proof_ := {| Signature := ""; PublicKey := ""; PrevHash := prev_hash;
                  EventHash := event_hash |};
     StartedAt := 1000000000; CompletedAt := completed_at |}.

Definition ff64 : string :=
  "ffffffffffffffffffffffffffffffffffffffffffffffffffffffffffffffff".

Definition emptyDatabase : Database :=
  {| events := []; events_by_facto_id := []; events_by_session := [];
     merkle_roots := [] |}.

Definition sampleEnv : ProcStorage.Env :=
  {| ProcStorage.now := 1700000000000000000;
     ProcStorage.events_fails := false; ProcStorage.by_facto_id_fails := false;
     ProcStorage.by_session_fails := false; ProcStorage.merkle_root_fails := false |}.

(** The store after a batch of the given events was written. *)
Definition storeOf (evs : list FactoEvent) : Database :=
  fst (@ProcStorage.StoreBatch sampleLibs sampleEnv emptyDatabase evs).

(** A session of one event whose [prev_hash] has three characters. *)
Definition shortPrevHashSession : list FactoEvent :=
  [ sampleEvent None "abc" ff64 1000000001 ].

(** A session of two events whose [prev_hash] have 64 characters, the first
    of which has an [event_hash] of three characters. *)
Definition shortEventHashSession : list FactoEvent :=
  [ sampleEvent None Handlers.zeroHash "abc" 1000000001;
    sampleEvent None ff64 ff64 1000000002 ].

(** The sample event under another identifier. *)
Definition linkedEvent (facto_id prev_hash event_hash : string) (completed_at : Z)
  : FactoEvent :=
  {| FactoID := facto_id; AgentID := "agent-test"; SessionID := "session-test";
     ParentFactoID := None; ActionType := "test"; Status := "success";
     InputData := Some [("key"%string, Str "value")];
     OutputData := Some [("result"%string, Str "ok")];
     ExecMeta := sampleMeta None;
     Proof_ := {| Signature := ""; PublicKey := ""; PrevHash := prev_hash;
                  EventHash := event_hash |};
     StartedAt := completed_at - 1000000; CompletedAt := completed_at |}.

(** A session of two events, one second apart, whose [prev_hash] have 64
    characters: the first has an [event_hash] of three characters, which the
    [prev_hash] of the second is not. *)
Definition brokenChainSession : list FactoEvent :=
  [ linkedEvent "ft-1" Handlers.zeroHash "abc" 1700000000000000000;
    linkedEvent "ft-2" ff64 ff64 1700000001000000000 ].

(** A session of two events, one second apart, stored in the other order,
    whose links hold. *)
Definition linkedSession : list FactoEvent :=
  [ linkedEvent "ft-2" ff64 ff64 1700000001000000000;
    linkedEvent "ft-1" Handlers.zeroHash ff64 1700000000000000000 ].

(** The sample event signed with the seed 42. *)
Definition seededEvent : FactoEvent :=
  sampleEvent (Some 42) Handlers.zeroHash ff64 1000000001.

(** The text that the SDK's [buildCanonicalForm] gives for [seededEvent]. *)
Definition seededEventTsCanonical : string :=
  let q := CanonicalText.quoted in
  String.concat ""
    [ "{"; q "action_type"; ":"; q "test";
      ","; q "agent_id"; ":"; q "agent-test";
      ","; q "completed_at"; ":"; "1000000001";
      ","; q "execution_meta"; ":"; "{}";
      ","; q "facto_id"; ":"; q "ft-test";
      ","; q "input_data"; ":"; "{}";
      ","; q "output_data"; ":"; "{}";
      ","; q "parent_facto_id"; ":"; "null";
      ","; q "prev_hash"; ":"; q Handlers.zeroHash;
      ","; q "session_id"; ":"; q "session-test";
      ","; q "started_at"; ":"; "1000000000";
      ","; q "status"; ":"; q "success";
      "}" ]%string.

(** The text that the server's [buildCanonicalForm] gives for it. *)
Definition seededEventGoCanonical : string :=
  let q := CanonicalText.quoted in
  String.concat ""
    [ "{"; q "action_type"; ":"; q "test";
      ","; q "agent_id"; ":"; q "agent-test";
      ","; q "completed_at"; ":"; "1000000001";
      ","; q "execution_meta"; ":";
        "{"; q "sdk_version"; ":"; q "0.1.0";
        ","; q "seed"; ":"; "42";
        ","; q "tool_calls"; ":"; "[]"; "}";
      ","; q "facto_id"; ":"; q "ft-test";
      ","; q "input_data"; ":"; "{"; q "key"; ":"; q "value"; "}";
      ","; q "output_data"; ":"; "{"; q "result"; ":"; q "ok"; "}";
      ","; q "parent_facto_id"; ":"; "null";
      ","; q "prev_hash"; ":"; q Handlers.zeroHash;
      ","; q "session_id"; ":"; q "session-test";
      ","; q "started_at"; ":"; "1000000000";
      ","; q "status"; ":"; q "success";
      "}" ]%string.

(** The same library functions, with a decoder of messages that gives the
    sample event. *)
Definition decodingLibs : Libs := {|
  formatFloat64 := fun _ => "0"%string;
  numberToString := fun _ => "0"%string;
  sha3_Sum256 := SHA256.Sum256;
  ed25519_check := fun _ _ _ => false;
  base64_DecodeString := fun _ => None;
  base64_EncodeToString := fun s => s;
  float32 := fun x => x;
  db_timestamp := fun t => t;
  json_Unmarshal_map := fun _ => None;
  json_Unmarshal_slice := fun _ => None;
  json_Unmarshal_event := fun _ => Some (sampleEvent None Handlers.zeroHash ff64 1);
  js_fromBase64 := fun _ => Panic "invalid";
  js_verifyAsync := fun _ _ _ => Panic "invalid"
|}.

(** *** A signed event, for the decoders of Base64

    The value of a character of the Base64 alphabet. *)
Definition base64Value (c : ascii) : option Z :=
  let b := Hex.byte_of_ascii c in
  if (65 <=? b) && (b <=? 90) then Some (b - 65)
  else if (97 <=? b) && (b <=? 122) then Some (b - 71)
  else if (48 <=? b) && (b <=? 57) then Some (b + 4)
  else if b =? 43 then Some 62
  else if b =? 47 then Some 63
  else None.

(** The values of the characters of a text, up to its padding; a character
    that is not of the alphabet is skipped. *)
Fixpoint sextets (s : string) : list Z :=
  match s with
  | EmptyString => []
  | String c s' =>
      if Hex.byte_of_ascii c =? 61 then []
      else match base64Value c with
           | Some v => v :: sextets s'
           | None => sextets s'
           end
  end.

(** Four characters give three bytes; what is left of a text gives one byte
    or two. *)
Fixpoint bytesOfSextets (v : list Z) : list Z :=
  match v with
  | a :: b :: c :: d :: rest =>
      (a * 4 + b / 16) :: ((b mod 16) * 16 + c / 4) :: ((c mod 4) * 64 + d)
      :: bytesOfSextets rest
  | [a; b; c] => [a * 4 + b / 16; (b mod 16) * 16 + c / 4]
  | [a; b] => [a * 4 + b / 16]
  | _ => []
  end.

(** The decoder of the SDK in Node, [Buffer.from(text, 'base64')], which
    has no error: it reads the characters of the alphabet and skips the
    others. *)
Definition lenientBase64 (s : string) : list Z := bytesOfSextets (sextets s).

(** The decoder of the server, [base64.StdEncoding.DecodeString], on a text
    without line breaks: a character that is neither of the alphabet nor
    padding is an error. *)
Fixpoint inAlphabet (s : string) : bool :=
  match s with
  | EmptyString => true
  | String c s' =>
      match base64Value c with
      | Some _ => inAlphabet s'
      | None => (Hex.byte_of_ascii c =? 61) && inAlphabet s'
      end
  end.

Definition strictBase64 (s : string) : option (list Z) :=
  if inAlphabet s && (Nat.modulo (String.length s) 4 =? 0)%nat
  then Some (lenientBase64 s) else None.

(** The same bytes. *)
Definition bytesEqb (a b : list Z) : bool :=
  (length a =? length b)%nat && forallb (fun xy => fst xy =? snd xy) (combine a b).

(** The public key of the first test of RFC 8032, and the Ed25519 signature,
    under its private key, of the canonical form that the SDK builds for
    the sample event with the hashes below. *)
Definition signerPublicKey : list Z :=
  [215; 90; 152; 1; 130; 177; 10; 183; 213; 75; 254; 211; 201; 100; 7; 58;
   14; 225; 114; 243; 218; 166; 35; 37; 175; 2; 26; 104; 247; 7; 81; 26].

Definition signerSignature : list Z :=
  [199; 199; 215; 164; 158; 208; 7; 197; 249; 129; 182; 45; 15; 204; 65; 149;
   102; 84; 42; 197; 51; 141; 64; 54; 92; 134; 6; 227; 115; 34; 166; 201;
   70; 174; 204; 92; 169; 143; 230; 220; 68; 75; 130; 214; 124; 62; 32; 152;
   50; 121; 55; 125; 115; 200; 198; 36; 215; 210; 104; 118; 0; 96; 227; 15].

(** The sample event with that public key and that signature in Base64,
    and a space after the eighth character of the signature.  Its
    [event_hash] is the SHA3-256 of the SDK's canonical form. *)
Definition spacedSignatureEvent : FactoEvent :=
  {| FactoID := "ft-test"; AgentID := "agent-test"; SessionID := "session-test";
     ParentFactoID := None; ActionType := "test"; Status := "success";
     InputData := Some [("key"%string, Str "value")];
     OutputData := Some [("result"%string, Str "ok")];
     ExecMeta := sampleMeta None;
     Proof_ :=
       {| Signature :=
            String.append "x8fXpJ7Q B8X5gbYtD8xBlWZUKsUzjUA2XIYG43MipslGrs"
                          "xcqY/m3ERLgtZ8PiCYMnk3fXPIxiTX0mh2AGDjDw==";
          PublicKey := "11qYAYKxCrfVS/7TyWQHOg7hcvPapiMlrwIaaPcHURo=";
          PrevHash := Handlers.zeroHash;
          EventHash := "a10ea73774fece70ae6d27035aa575a2dba6c5b7f049c89d847c8ca5acea1bde" |};
     StartedAt := 1000000000; CompletedAt := 1000000001 |}.

(** The canonical form that was signed. *)
Definition signedCanonical : string :=
  let q := CanonicalText.quoted in
  String.concat ""
    [ "{"; q "action_type"; ":"; q "test";
      ","; q "agent_id"; ":"; q "agent-test";
      ","; q "completed_at"; ":"; "1000000001";
      ","; q "execution_meta"; ":"; "{}";
      ","; q "facto_id"; ":"; q "ft-test";
      ","; q "input_data"; ":"; "{}";
      ","; q "output_data"; ":"; "{}";
      ","; q "parent_facto_id"; ":"; "null";
      ","; q "prev_hash"; ":"; q Handlers.zeroHash;
      ","; q "session_id"; ":"; q "session-test";
      ","; q "started_at"; ":"; "1000000000";
      ","; q "status"; ":"; q "success";
      "}" ]%string.

(** Library functions with these two decoders.  The check of a signature
    stands for Ed25519 on the one signature above: it accepts it for the
    canonical form that was signed, under the signer's public key, and
    nothing else. *)
Definition lenientLibs : Libs := {|
  formatFloat64 := fun _ => "0"%string;
  numberToString := fun _ => "0"%string;
  sha3_Sum256 := SHA256.Sum256;
  ed25519_check := fun pk msg sg =>
    bytesEqb pk signerPublicKey && bytesEqb sg signerSignature
    && bytesEqb msg (Hex.bytes_of_string signedCanonical);
  base64_DecodeString := strictBase64;
  base64_EncodeToString := fun s => s;
  float32 := fun x => x;
  db_timestamp := fun t => t;
  json_Unmarshal_map := fun _ => None;
  json_Unmarshal_slice := fun _ => None;
  json_Unmarshal_event := fun _ => None;
  js_fromBase64 := fun s => Returned (lenientBase64 s);
  js_verifyAsync := fun sg msg pk =>
    Returned (bytesEqb pk signerPublicKey && bytesEqb sg signerSignature
              && bytesEqb msg (Hex.bytes_of_string signedCanonical))
|}.

(** A consumer that holds one message and its event, and the world in which
    it runs. *)
Definition sampleMsg : Consumer.Msg := {| Consumer.Data := "{}"; Consumer.msg_id := 1 |}.

Definition sampleConsumer : Consumer.t :=
  {| Consumer.batchSize := 1000;
     Consumer.events := [sampleEvent None Handlers.zeroHash ff64 1];
     Consumer.messages := [sampleMsg] |}.

Definition sampleWorld : Consumer.World :=
  {| Consumer.db := emptyDatabase; Consumer.replies := [];
     Consumer.metrics :=
       {| Consumer.eventsConsumed := 1; Consumer.eventsProcessed := 0;
          Consumer.eventsFailedTotal := 0; Consumer.batchesProcessed := 0;
          Consumer.merkleTreesCreated := 0 |} |}.

End Samples.

(** ** Reading the seed back from a canonical form

    A reader of the text of a canonical form that tells whether the member
    [seed] of [execution_meta] is [null].  It is used to tell two canonical
    forms apart. *)

Module Probe.
Import Json.

Definition isQuote (c : ascii) : bool := byte c =? 34.
Definition isBackslash (c : ascii) : bool := byte c =? 92.

(** The rest of a text after the end of a JSON string whose opening quote
    has been read. *)
Fixpoint scanBody (s : string) : option string :=
  match s with
  | EmptyString => None
  | String c s' =>
      if isQuote c then Some s'
      else if isBackslash c then
        match s' with
        | String _ s'' => scanBody s''
        | EmptyString => None
        end
      else scanBody s'
  end.

Definition scanString (s : string) : option string :=
  match s with
  | String c s' => if isQuote c then scanBody s' else None
  | EmptyString => None
  end.

Fixpoint stripPrefix (p s : string) : option string :=
  match p with
  | EmptyString => Some s
  | String c p' =>
      match s with
      | String d s' => if Ascii.eqb c d then stripPrefix p' s' else None
      | EmptyString => None
      end
  end.

(** A digit or a minus sign. *)
Definition isNumChar (c : ascii) : bool :=
  ((48 <=? byte c) && (byte c <=? 57)) || (byte c =? 45).

Fixpoint allNum (s : string) : bool :=
  match s with
  | EmptyString => true
  | String c s' => isNumChar c && allNum s'
  end.

Fixpoint skipNumber (s : string) : string :=
  match s with
  | String c s' => if isNumChar c then skipNumber s' else s
  | EmptyString => EmptyString
  end.

Definition expect (p : string) (k : string -> option bool) (s : string) : option bool :=
  match stripPrefix p s with Some s' => k s' | None => None end.
Definition expectString (k : string -> option bool) (s : string) : option bool :=
  match scanString s with Some s' => k s' | None => None end.
Definition expectNumber (k : string -> option bool) (s : string) : option bool :=
  k (skipNumber s).
Definition optionalModel (k : string -> option bool) (s : string) : option bool :=
  match stripPrefix (encodeString "model_id") s with
  | Some s1 => expect ":" (expectString (expect "," k)) s1
  | None => k s
  end.
Definition isNull (s : string) : option bool :=
  Some (match stripPrefix "null" s with Some _ => true | None => false end).

Definition seedProbe : string -> option bool :=
  expect "{" (expect (encodeString "action_type") (expect ":" (expectString
  (expect "," (expect (encodeString "agent_id") (expect ":" (expectString
  (expect "," (expect (encodeString "completed_at") (expect ":" (expectNumber
  (expect "," (expect (encodeString "execution_meta") (expect ":" (expect "{"
  (optionalModel
  (expect (encodeString "sdk_version") (expect ":" (expectString
  (expect "," (expect (encodeString "seed") (expect ":" isNull)))))))))))))))))))))).

End Probe.

(** ** Predicates on the node store, used to state the invariants *)

Module MerkleInv.
Import Merkle.

(** [frame S m m']: [m'] keeps every node of [m], with the same hash and
    children, and the same parent except for the nodes listed in [S]. *)
Definition frame (S : list ptr) (m m' : heap) : Prop :=
  (length m <= length m')%nat /\
  forall p, (p < length m)%nat ->
    hashOf m' p = hashOf m p /\ leftOf m' p = leftOf m p /\
    rightOf m' p = rightOf m p /\
    (p ∉ S -> parentOf m' p = parentOf m p).

(** [linked m n q]: [q] is the parent of [n], [n] is one of its children,
    and the hash of [q] is the hash of its children's pair. *)
Definition linked (m : heap) (n q : ptr) : Prop :=
  parentOf m n = Some q /\ (n < q)%nat /\ (q < length m)%nat /\
  exists l r, leftOf m q = Some l /\ rightOf m q = Some r /\
    (l < q)%nat /\ (r < q)%nat /\ (n = l \/ n = r) /\
    hashOf m q = hashPair (hashOf m l) (hashOf m r).

(** [reaches m n r]: following the parent links from [n] ends in [r]. *)
Inductive reaches (m : heap) : ptr -> ptr -> Prop :=
| reaches_top r : parentOf m r = None -> reaches m r r
| reaches_up n q r : linked m n q -> reaches m q r -> reaches m n r.

(** The hashes of one level from the hashes of the level below. *)
Fixpoint pairHashes (hs : list string) : list string :=
  match hs with
  | [] => []
  | [a] => [hashPair a a]
  | a :: b :: rest => hashPair a b :: pairHashes rest
  end.

Definition dupLastHash (hs : list string) : list string :=
  if (1 <? length hs)%nat && Nat.odd (length hs)
  then hs ++ [List.last hs EmptyString] else hs.

(** "If odd, duplicate last", on a level of hashes. *)
Definition padOdd (hs : list string) : list string :=
  if Nat.odd (length hs) then hs ++ [List.last hs EmptyString] else hs.

(** The root hash computed by [buildTree], on hashes alone. *)
(** What one pass of [pairUp] establishes. *)
Definition pairUp_post (m : heap) (nodes : list ptr) (m' : heap) (ps : list ptr) : Prop :=
  frame nodes m m' /\
  ps = seq (length m) (length ps) /\
  length m' = (length m + length ps)%nat /\
  length ps = Nat.div2 (S (length nodes)) /\
  (forall n, n ∈ nodes -> exists q, q ∈ ps /\ linked m' n q) /\
  (forall q, q ∈ ps -> parentOf m' q = None) /\
  map (hashOf m') ps = pairHashes (map (hashOf m) nodes).

Fixpoint reduceTree (fuel : nat) (hs : list string) : option string :=
  match fuel with
  | O => None
  | S fuel' =>
      match hs with
      | [h] => Some h
      | _ => reduceTree fuel' (dupLastHash (pairHashes hs))
      end
  end.

End MerkleInv.

Definition h_aa : string := "aaaaaaaaaaaaaaaaaaaaaaaaaaaaaaaaaaaaaaaaaaaaaaaaaaaaaaaaaaaaaaaa".
Definition h_bb : string := "bbbbbbbbbbbbbbbbbbbbbbbbbbbbbbbbbbbbbbbbbbbbbbbbbbbbbbbbbbbbbbbb".
Definition h_cc : string := "cccccccccccccccccccccccccccccccccccccccccccccccccccccccccccccccc".

(** ** The proofs of the query API's Merkle tree (server/api/handlers.go) *)

Module ApiProof.
Import ApiMerkle.

(** The sibling of the node [idx] of a level, and the side on which it
    stands. *)
Definition siblingOf (idx : Z) : Z * string :=
  if Z.rem idx 2 =? 0 then (idx + 1, "right"%string) else (idx - 1, "left"%string).

(** The loop [for level := 0; level < len(t.levels)-1; level++] of
    [getProof], on the levels that are left; reading [levelNodes] at a
    negative index panics. *)
Fixpoint proofLoop (levels : list (list string)) (idx : Z) (proof : list ProofElement)
  : result (list ProofElement) :=
  match levels with
  | levelNodes :: ((_ :: _) as rest) =>
      let levelNodes :=
        if Nat.odd (length levelNodes)
        then levelNodes ++ [List.last levelNodes EmptyString]
        else levelNodes in
      let '(siblingIdx, position) := siblingOf idx in
      let step :=
        if siblingIdx <? Z.of_nat (length levelNodes) then
          if siblingIdx <? 0 then Panic "index out of range"
          else
            match levelNodes !! Z.to_nat siblingIdx with
            | Some h => Returned (proof ++ [ {| Hash := h; Position := position |} ])
            | None => Panic "index out of range"
            end
        else Returned proof in
      match step with
      | Panic msg => Panic msg
      | Returned proof => proofLoop rest (Z.quot idx 2) proof
      end
  | _ => Returned proof
  end.

(** [getProof] *)
Definition getProof (t : merkleTree) (index : Z) : result (list ProofElement) :=
  if (index <? 0) || (Z.of_nat (length (leaves t)) <=? index) then Returned []
  else proofLoop (levels t) index [].

(** An element of a proof as [VerifyProof] of the processor reads it: the
    two types have the same fields [hash] and [position]. *)
Definition toVerifier (element : ProofElement) : Merkle.ProofElement :=
  {| Merkle.PHash := Hash element; Merkle.Position := Position element |}.

(** The levels above [hs] that [buildMerkleTree] records: each is the level
    of the pairs of the one below, padded when its length is odd, up to a
    level of one node. *)
Fixpoint levelsAbove (hs : list string) (above : list (list string)) : Prop :=
  match above with
  | [] => length hs = 1%nat
  | next :: above' =>
      (2 <= length hs)%nat /\ next = MerkleInv.pairHashes (MerkleInv.padOdd hs)
      /\ levelsAbove next above'
  end.

(** The node of the last level. *)
Definition topOf (levels : list (list string)) : string :=
  match List.last levels [] with
  | r :: _ => r
  | [] => EmptyString
  end.

End ApiProof.

(** ** The evidence package (server/api/handlers.go) *)

Module Evidence.
Import Event Store ApiStorage Handlers.

Record MerkleProof := {
  FactoID : string;
  EventHash : string;
  Proof : list ApiMerkle.ProofElement;
  Root : string
}.

Record Response := {
  PackageID : string;
  SessionID : string;
  Events : list EventResponse;
  MerkleProofs : list MerkleProof;
  ExportedAt : string;
  VerificationInstructions : string
}.

Definition verificationInstructions : string :=
"To verify this evidence package:

1. For each event:
   a. Reconstruct the canonical JSON form (sorted keys, no whitespace)
   b. Compute SHA3-256 hash and compare with event_hash
   c. Verify Ed25519 signature using the public_key
   d. Verify prev_hash links to previous event's event_hash

2. Verify the Merkle proofs:
   a. For each event, use the proof to compute the root
   b. All computed roots should match the package Merkle root

3. The chain of events is tamper-evident:
   - Any modification would break the hash chain
   - Any modification would invalidate the signature
   - Any modification would invalidate the Merkle proof".

(** What the package says of an event: its identifier, its hash, and a
    proof that [VerifyProof] accepts for that hash against the root. *)
Definition proves (root : string) (e : EventResponse) (p : MerkleProof) : Prop :=
  FactoID p = Event.FactoID e /\ EventHash p = Event.EventHash (Proof_ e) /\
  Root p = root /\
  Merkle.VerifyProof (EventHash p) (map ApiProof.toVerifier (Proof p)) (Root p) = true.

(** The loop [for i, e := range events] that fills [proofs], from the
    index [i] on. *)
Fixpoint proofsLoop (tree : ApiMerkle.merkleTree) (merkleRoot : string) (i : Z)
    (events : list EventResponse) : result (list MerkleProof) :=
  match events with
  | [] => Returned []
  | e :: rest =>
      match ApiProof.getProof tree i with
      | Panic msg => Panic msg
      | Returned proof =>
          match proofsLoop tree merkleRoot (i + 1) rest with
          | Panic msg => Panic msg
          | Returned proofs =>
              Returned ({| FactoID := Event.FactoID e;
                           EventHash := Event.EventHash (Proof_ e);
                           Proof := proof;
                           Root := merkleRoot |} :: proofs)
          end
      end
  end.

Section WithLibs.
Context `{Libs}.

(** [GetEvidencePackage], for the query parameter [session_id], which the
    binding requires not to be empty; [nowString] is [time.Now().String()]
    and [exportedAt] is [time.Now().UTC().Format(time.RFC3339)].  [None] is
    a call of [buildMerkleTree] that does not return. *)
Definition GetEvidencePackage (db : Database) (read_fails : bool)
    (nowString exportedAt : string) (sessionID : string)
  : option (result (http Response)) :=
  if String.eqb sessionID "" then Some (Returned Status400)
  else
    match GetSessionEvents db read_fails sessionID 10000 "" with
    | Panic msg => Some (Panic msg)
    | Returned None => Some (Returned Status500)
    | Returned (Some (events, _)) =>
        if (length events =? 0)%nat then Some (Returned Status404)
        else
          let hashes := map (fun e => Event.EventHash (Proof_ e)) events in
          match ApiMerkle.buildMerkleTree hashes with
          | None => None
          | Some (Panic msg) => Some (Panic msg)
          | Some (Returned tree) =>
              let merkleRoot := ApiMerkle.root tree in
              match proofsLoop tree merkleRoot 0 events with
              | Panic msg => Some (Panic msg)
              | Returned proofs =>
                  let packageHash :=
                    SHA256.Sum256 (Hex.bytes_of_string (String.append sessionID nowString)) in
                  let packageID :=
                    String.append "ev-" (Hex.EncodeToString (firstn 8 packageHash)) in
                  Some (Returned (Status200
                    {| PackageID := packageID;
                       SessionID := sessionID;
                       Events := events;
                       MerkleProofs := proofs;
                       ExportedAt := exportedAt;
                       VerificationInstructions := verificationInstructions |}))
              end
          end
    end.

End WithLibs.
End Evidence.

(** ** The entries of the report of [VerifyChain] *)

Module ChainReport.
Import Event Handlers.

Section WithLibs.
Context `{Libs}.

(** What [verifySignature] returns, when it returns. *)
Definition signatureOk (event : EventResponse) : bool :=
  match verifySignature event with
  | Returned ok => ok
  | Panic _ => false
  end.

(** The entries for the events whose hash is not the hash of their
    canonical form. *)
Fixpoint hashEntries (events : list EventResponse) : list string :=
  match events with
  | [] => []
  | event :: rest =>
      (if verifyHash event then []
       else [String.append "Hash invalid for event: " (FactoID event)])
      ++ hashEntries rest
  end.

(** The entries for the events whose signature is not accepted. *)
Fixpoint signatureEntries (events : list EventResponse) : list string :=
  match events with
  | [] => []
  | event :: rest =>
      (if signatureOk event then []
       else [String.append "Signature invalid for event: " (FactoID event)])
      ++ signatureEntries rest
  end.

End WithLibs.
End ChainReport.

(** ** The handlers that list events (server/api/handlers.go) *)

Module ApiHandlers.
Import Event Store ApiStorage Handlers.

(** [EventsResponse] *)
Record EventsResponse := {
  Events : list EventResponse;
  NextCursor : option string
}.

(** "if query.Limit <= 0 || query.Limit > 1000" *)
Definition clampLimit (limit : Z) : Z :=
  if (limit <=? 0) || (1000 <? limit) then 100 else limit.


(** The rows of [events_by_session] that the query of [GetSessionEvents]
    selects. *)
Definition sessionRows (db : Database) (sessionID : string) : list Row :=
  filter (fun r => String.eqb (session_id r) sessionID = true) (events_by_session db).

Section WithLibs.
Context `{Libs}.

(** [time.Parse(time.RFC3339, s)], in nanoseconds; [None] is an error. *)
Variable time_Parse : string -> option Z.

(** [Handlers.GetEvents], for the query parameters [agent_id], [start],
    [end], which the binding requires not to be empty, [limit] (0 when it is
    absent) and [cursor]. *)
Definition GetEvents (db : Database) (read_fails : bool)
    (agentID start end_ : string) (limit : Z) (cursor : string)
  : result (http EventsResponse) :=
  if String.eqb agentID "" || String.eqb start "" || String.eqb end_ ""
  then Returned Status400
  else
    let limit := clampLimit limit in
    match time_Parse start with
    | None => Returned Status400
    | Some startTime =>
        match time_Parse end_ with
        | None => Returned Status400
        | Some endTime =>
            match ApiStorage.GetEvents db read_fails agentID startTime endTime limit cursor with
            | Panic msg => Panic msg
            | Returned None => Returned Status500
            | Returned (Some (events, nextCursor)) =>
                Returned (Status200 {| Events := events; NextCursor := nextCursor |})
            end
        end
    end.

(** [Handlers.GetSessionEvents], for the path parameter [session_id] and the
    query parameters [limit] and [cursor]. *)
Definition GetSessionEvents (db : Database) (read_fails : bool)
    (sessionID : string) (limit : Z) (cursor : string)
  : result (http EventsResponse) :=
  if String.eqb sessionID "" then Returned Status400
  else
    let limit := clampLimit limit in
    match ApiStorage.GetSessionEvents db read_fails sessionID limit cursor with
    | Panic msg => Panic msg
    | Returned None => Returned Status500
    | Returned (Some (events, nextCursor)) =>
        Returned (Status200 {| Events := events; NextCursor := nextCursor |})
    end.

(** [Handlers.GetEventByFactoID], for the path parameter [facto_id]. *)
Definition GetEventByFactoID (db : Database) (read_fails : bool) (factoID : string)
  : http EventResponse :=
  if String.eqb factoID "" then Status400
  else
    match ApiStorage.GetEventByFactoID db read_fails factoID with
    | None => Status500
    | Some None => Status404
    | Some (Some event) => Status200 event
    end.

End WithLibs.
End ApiHandlers.

(** ** The client of the TypeScript SDK (sdk/typescript/src/client.ts)

    A [FactoEvent] of the SDK and its wire form are both modelled by
    [Event.t]: a property that is [undefined] in the first and [null] in the
    second is [None], so that [toWireFormat] leaves the record as it is.
    The calls of a client are taken one after the other: each [await] is
    over before the next call starts. *)

Module TSClient.
Import Json Event.

(** [Partial<ExecutionMeta>]; the [sdkVersion] and [sdkLanguage] of the
    options are not read. *)
Record PartialMeta := {
  modelId : option string;
  modelHash : option string;
  temperature : option Z;
  seed : option Z;
  maxTokens : option Z;
  toolCalls : option (list value);
  tags : option (list (string * string))
}.

Record RecordOptions := {
  actionType : string;
  inputData : list (string * value);
  outputData : list (string * value);
  status : option string;
  parentFactoId : option string;
  executionMeta : option PartialMeta;
  startedAt : option Z;
  completedAt : option Z
}.

(** The [Response] of [fetch]: [text] and [json] are what [response.text()]
    and [response.json()] resolve to ([rejected_count] for the second), or
    the exception that they throw. *)
Record Response := {
  ok : bool;
  http_status : Z;
  text : result string;
  json : result Z
}.

(** [CryptoProvider] *)
Record CryptoProvider := {
  privateKey : list Z;
  publicKey : list Z;
  prevHash : string
}.

Record FactoClient := {
  agentId : string;
  sessionId : string;
  batchSize : Z;
  maxRetries : Z;
  configTags : list (string * string);
  crypto : CryptoProvider;
  batch : list FactoEvent;
  closed : bool
}.

Definition SDK_VERSION : string := "0.1.0".
Definition SDK_LANGUAGE : string := "typescript".

(** [x ?? d] *)
Definition orElse {A} (x : option A) (d : A) : A :=
  match x with Some a => a | None => d end.

(** [options.executionMeta?.field] *)
Definition metaField {A} (f : PartialMeta -> option A) (m : option PartialMeta) : option A :=
  match m with Some m' => f m' | None => None end.

(** [{ ...a, ...b }] *)
Definition spread {V} (a b : list (string * V)) : list (string * V) :=
  fold_left (fun m kv => mapSet (fst kv) (snd kv) m) b a.

(** [toWireFormat] *)
Definition toWireFormat (event : FactoEvent) : FactoEvent :=
  {| FactoID := FactoID event;
     AgentID := AgentID event;
     SessionID := SessionID event;
     ParentFactoID := ParentFactoID event;
     ActionType := ActionType event;
     Status := Status event;
     InputData := InputData event;
     OutputData := OutputData event;
     ExecMeta :=
       {| ModelID := ModelID (ExecMeta event);
          ModelHash := ModelHash (ExecMeta event);
          Temperature := Temperature (ExecMeta event);
          Seed := Seed (ExecMeta event);
          MaxTokens := MaxTokens (ExecMeta event);
          ToolCalls := Some (orElse (ToolCalls (ExecMeta event)) []);
          SDKVersion := SDKVersion (ExecMeta event);
          SDKLanguage := SDKLanguage (ExecMeta event);
          Tags := Tags (ExecMeta event) |};
     Proof_ :=
       {| Signature := Signature (Proof_ event);
          PublicKey := PublicKey (Proof_ event);
          PrevHash := PrevHash (Proof_ event);
          EventHash := EventHash (Proof_ event) |};
     StartedAt := StartedAt event;
     CompletedAt := CompletedAt event |}.

(** [new CryptoProvider(privateKey)], for a key of 32 bytes whose public key
    is [publicKey]. *)
Definition newProvider (privateKey publicKey : list Z) : CryptoProvider :=
  {| privateKey := privateKey; publicKey := publicKey;
     prevHash := Handlers.zeroHash |}.

(** [updatePrevHash] *)
Definition updatePrevHash (p : CryptoProvider) (eventHash : string) : CryptoProvider :=
  {| privateKey := privateKey p; publicKey := publicKey p; prevHash := eventHash |}.

Definition setCrypto (c : FactoClient) (p : CryptoProvider) : FactoClient :=
  {| agentId := agentId c; sessionId := sessionId c; batchSize := batchSize c;
     maxRetries := maxRetries c; configTags := configTags c;
     crypto := p; batch := batch c; closed := closed c |}.

Definition setBatch (c : FactoClient) (b : list FactoEvent) : FactoClient :=
  {| agentId := agentId c; sessionId := sessionId c; batchSize := batchSize c;
     maxRetries := maxRetries c; configTags := configTags c;
     crypto := crypto c; batch := b; closed := closed c |}.

Section WithLibs.
Context `{Libs}.

(** [ed25519.signAsync(message, privateKey)], which can throw, and
    [toBase64]. *)
Variable js_signAsync : list Z -> list Z -> result (list Z).
Variable js_toBase64 : list Z -> string.

(** [fetch], for the body of the request: the outcome of the call number
    [n] that the client makes. *)
Variable fetch : nat -> list FactoEvent -> result Response.

(** [signEvent] *)
Definition signEvent (p : CryptoProvider) (event : FactoEvent)
  : result (string * string) :=
  let canonical := TS.buildCanonicalForm event in
  let eventHash := TSVerify.computeHash canonical in
  match js_signAsync (Hex.bytes_of_string canonical) (privateKey p) with
  | Panic msg => Panic msg
  | Returned signature => Returned (eventHash, js_toBase64 signature)
  end.

(** The body of the [try] of [sendBatch], after [fetch]. *)
Definition tryOnce (fetched : result Response) : result unit :=
  match fetched with
  | Panic msg => Panic msg
  | Returned response =>
      if negb (ok response) then
        if http_status response <? 500 then
          match text response with
          | Panic msg => Panic msg
          | Returned errorText =>
              Panic (String.concat ""
                       [ "Client error "; formatInt (http_status response); ": ";
                         errorText ])
          end
        else Panic (String.append "Server error " (formatInt (http_status response)))
      else
        match json response with
        | Panic msg => Panic msg
        | Returned _ => Returned tt
        end
  end.

(** The loop [for (let attempt = 0; attempt < maxRetries; attempt++)] of
    [sendBatch], with [remaining] rounds to go; [calls] counts the calls of
    [fetch]. *)
Fixpoint attempts (payload : list FactoEvent) (maxRetries : Z) (remaining : nat)
    (attempt : Z) (calls : nat) : result unit * nat :=
  match remaining with
  | O => (Returned tt, calls)
  | S remaining' =>
      match tryOnce (fetch calls payload) with
      | Returned _ => (Returned tt, S calls)
      | Panic error =>
          if attempt =? maxRetries - 1 then (Panic error, S calls)
          else attempts payload maxRetries remaining' (attempt + 1) (S calls)
      end
  end.

(** [sendBatch] *)
Definition sendBatch (c : FactoClient) (events : list FactoEvent) (calls : nat)
  : result unit * nat :=
  match events with
  | [] => (Returned tt, calls)
  | _ =>
      let payload := map toWireFormat events in
      attempts payload (maxRetries c) (Z.to_nat (maxRetries c)) 0 calls
  end.

(** [flush] *)
Definition flush (c : FactoClient) (calls : nat) : result unit * FactoClient * nat :=
  match batch c with
  | [] => (Returned tt, c, calls)
  | _ =>
      let batch0 := batch c in
      let c1 := setBatch c [] in
      match sendBatch c1 batch0 calls with
      | (Returned _, calls') => (Returned tt, c1, calls')
      | (Panic error, calls') => (Panic error, setBatch c1 (batch0 ++ batch c1), calls')
      end
  end.

(** [record]; [factoId] is what [generateFactoId] returns and [now] what
    [currentTimeNs] returns. *)
Definition record (c : FactoClient) (options : RecordOptions)
    (factoId : string) (now : Z) (calls : nat)
  : result string * FactoClient * nat :=
  let tags := spread (configTags c) (orElse (metaField tags (executionMeta options)) []) in
  let meta :=
    {| ModelID := metaField modelId (executionMeta options);
       ModelHash := metaField modelHash (executionMeta options);
       Temperature := metaField temperature (executionMeta options);
       Seed := metaField seed (executionMeta options);
       MaxTokens := metaField maxTokens (executionMeta options);
       ToolCalls := Some (orElse (metaField toolCalls (executionMeta options)) []);
       SDKVersion := SDK_VERSION;
       SDKLanguage := SDK_LANGUAGE;
       Tags := Some tags |} in
  let eventWire :=
    {| FactoID := factoId;
       AgentID := agentId c;
       SessionID := sessionId c;
       ParentFactoID := parentFactoId options;
       ActionType := actionType options;
       Status := orElse (status options) "success";
       InputData := Some (inputData options);
       OutputData := Some (outputData options);
       ExecMeta := meta;
       Proof_ := {| Signature := EmptyString;
                    PublicKey := js_toBase64 (publicKey (crypto c));
                    PrevHash := prevHash (crypto c);
                    EventHash := EmptyString |};
       StartedAt := orElse (startedAt options) now;
       CompletedAt := orElse (completedAt options) now |} in
  match signEvent (crypto c) eventWire with
  | Panic msg => (Panic msg, c, calls)
  | Returned (eventHash, signature) =>
      let event :=
        {| FactoID := factoId;
           AgentID := agentId c;
           SessionID := sessionId c;
           ParentFactoID := parentFactoId options;
           ActionType := actionType options;
           Status := orElse (status options) "success";
           InputData := Some (inputData options);
           OutputData := Some (outputData options);
           ExecMeta := meta;
           Proof_ := {| Signature := signature;
                        PublicKey := js_toBase64 (publicKey (crypto c));
                        PrevHash := prevHash (crypto c);
                        EventHash := eventHash |};
           StartedAt := orElse (startedAt options) now;
           CompletedAt := orElse (completedAt options) now |} in
      let c1 := setCrypto c (updatePrevHash (crypto c) eventHash) in
      let c2 := setBatch c1 (batch c1 ++ [event]) in
      if batchSize c2 <=? Z.of_nat (length (batch c2)) then
        match flush c2 calls with
        | (Returned _, c3, calls') => (Returned factoId, c3, calls')
        | (Panic error, c3, calls') => (Panic error, c3, calls')
        end
      else (Returned factoId, c2, calls)
  end.

(** The states of a client: the one that the constructor makes, for a
    private key of 32 bytes, and those that [record] and [flush] lead to. *)
Inductive reachable : FactoClient -> Prop :=
| reachable_new agentId sessionId batchSize maxRetries tags privateKey publicKey :
    reachable {| agentId := agentId; sessionId := sessionId; batchSize := batchSize;
                 maxRetries := maxRetries; configTags := tags;
                 crypto := newProvider privateKey publicKey;
                 batch := []; closed := false |}
| reachable_record c options factoId now calls r c' calls' :
    reachable c -> record c options factoId now calls = (r, c', calls') -> reachable c'
| reachable_flush c calls r c' calls' :
    reachable c -> flush c calls = (r, c', calls') -> reachable c'.

(** An event whose hash the SDK's own [verifyEvent] accepts in wire form,
    and that carries the public key and the names of the client. *)
Definition signedBy (c : FactoClient) (e : FactoEvent) : Prop :=
  String.eqb (TSVerify.computeHash (TS.buildCanonicalForm (toWireFormat e)))
             (EventHash (Proof_ e)) = true /\
  PublicKey (Proof_ e) = js_toBase64 (publicKey (crypto c)) /\
  AgentID e = agentId c /\ SessionID e = sessionId c.

(** The hash that the chain of the events [events] ends with, from
    [start]. *)
Definition lastHash (start : string) (events : list FactoEvent) : string :=
  List.last (map (fun e => EventHash (Proof_ e)) events) start.


(** The batch of a client is a chain of events signed by it, which ends
    with the hash that the provider will give as [prev_hash] to the next
    event. *)
Definition signedChain (c : FactoClient) : Prop :=
  exists start,
    ChainSpec.linksOk start (batch c) = true /\
    lastHash start (batch c) = prevHash (crypto c) /\
    Forall (signedBy c) (batch c).

End WithLibs.
End TSClient.

(** ** Sample data for the client *)

Module ClientSamples.
Import Json Event TSClient.

Definition sampleSign (message privateKey : list Z) : result (list Z) :=
  Returned [1; 2; 3].

Definition sampleToBase64 (bytes : list Z) : string := "AQID".

(** A service that refuses the first request with the status 400 and
    accepts the next ones. *)
Definition sampleFetch (n : nat) (payload : list FactoEvent) : result Response :=
  if (n <? 1)%nat
  then Returned {| ok := false; http_status := 400; text := Returned "bad request";
                   json := Panic "no body" |}
  else Returned {| ok := true; http_status := 200; text := Returned EmptyString;
                   json := Returned 0 |}.


Definition sampleClient : FactoClient :=
  {| agentId := "agent-test"; sessionId := "session-test"; batchSize := 100;
     maxRetries := 3; configTags := [];
     crypto := newProvider [] [1; 2; 3];
     batch := []; closed := false |}.

Definition sampleOptions : RecordOptions :=
  {| actionType := "test"; inputData := [("key"%string, Str "value")];
     outputData := [("result"%string, Str "ok")];
     status := None; parentFactoId := None; executionMeta := None;
     startedAt := None; completedAt := None |}.

End ClientSamples.

(** The bytes that [hashPair] reads from a text: those that
    [hex.DecodeString] decodes before its first error. *)
Definition decoded (h : string) : list Z := fst (Hex.DecodeString h).

Definition upper_aa : string :=
  "AAAAAAAAAAAAAAAAAAAAAAAAAAAAAAAAAAAAAAAAAAAAAAAAAAAAAAAAAAAAAAAA".

(** ** Telling an empty [execution_meta] in a canonical form *)

Module MetaProbe.
Import Json Probe.

Definition isEmptyObject (s : string) : option bool :=
  Some (match stripPrefix "{}" s with Some _ => true | None => false end).

(** A reader of the text of a canonical form that tells whether the member
    [execution_meta] is the empty object. *)
Definition emptyMetaProbe : string -> option bool :=
  expect "{" (expect (encodeString "action_type") (expect ":" (expectString
  (expect "," (expect (encodeString "agent_id") (expect ":" (expectString
  (expect "," (expect (encodeString "completed_at") (expect ":" (expectNumber
  (expect "," (expect (encodeString "execution_meta") (expect ":"
  isEmptyObject)))))))))))))).

End MetaProbe.

(** * Properties *)

Module MerkleFacts.
Import Merkle MerkleInv.

Local Open Scope nat_scope.

Lemma list_pair_ind {A} (P : list A -> Prop) :
  P [] -> (forall a, P [a]) -> (forall a b l, P l -> P (a :: b :: l)) ->
  forall l, P l.
Proof.
  intros H0 H1 H2.
  assert (forall l, P l /\ forall a, P (a :: l)) as H.
  { induction l as [|b l [IH1 IH2]]; split; auto. }
  intros l. apply H.
Qed.

(** *** Reading the store after an allocation or a parent assignment *)

Lemma frame_refl S m : frame S m m.
Proof. split; [lia|]. intros; repeat split; auto. Qed.

Lemma frame_trans S1 S2 m1 m2 m3 :
  frame S1 m1 m2 -> frame S2 m2 m3 -> frame (S1 ++ S2) m1 m3.
Proof.
  intros [L1 F1] [L2 F2]. split; [lia|].
  intros p Hp. destruct (F1 p Hp) as (a1 & b1 & c1 & d1).
  destruct (F2 p ltac:(lia)) as (a2 & b2 & c2 & d2).
  repeat split; try congruence.
  intros Hn. rewrite d2, d1; auto; intros Hin; apply Hn, elem_of_app; auto.
Qed.

Lemma frame_weaken S S' m m' :
  frame S m m' -> (forall p, p ∈ S -> p ∈ S') -> frame S' m m'.
Proof.
  intros [L F] Hs. split; [lia|]. intros p Hp.
  destruct (F p Hp) as (a & b & c & d). repeat split; auto.
Qed.

Lemma frame_alloc m n : frame [] m (m ++ [n]).
Proof.
  split; [rewrite length_app; lia|].
  intros p Hp. unfold hashOf, leftOf, rightOf, parentOf.
  rewrite lookup_app_l by lia. auto.
Qed.

Lemma frame_setParent m q par : frame [q] m (setParent q par m).
Proof.
  unfold setParent. split; [rewrite length_alter; lia|].
  intros p Hp. unfold hashOf, leftOf, rightOf, parentOf.
  destruct (decide (q = p)) as [->|Hne].
  - rewrite list_lookup_alter_eq. destruct (m !! p); simpl; repeat split; auto.
    intros Hn. exfalso. apply Hn. apply list_elem_of_singleton. reflexivity.
  - rewrite list_lookup_alter_ne by auto. auto.
Qed.

Lemma parentOf_setParent m q par :
  q < length m -> parentOf (setParent q par m) q = Some par.
Proof.
  intros Hq. unfold parentOf, setParent. rewrite list_lookup_alter_eq.
  destruct (lookup_lt_is_Some_2 m q Hq) as [n ->]. reflexivity.
Qed.

Lemma parentOf_setParent_ne m q par p :
  p <> q -> parentOf (setParent q par m) p = parentOf m p.
Proof.
  intros Hne. unfold parentOf, setParent. rewrite list_lookup_alter_ne; auto.
Qed.

Lemma linked_frame S m m' n q :
  linked m n q -> frame S m m' -> n ∉ S -> linked m' n q.
Proof.
  intros (Hp & Hnq & Hq & l & r & Hl & Hr & Hlq & Hrq & Hn & Hh) [L F] HnS.
  destruct (F n ltac:(lia)) as (_ & _ & _ & dn).
  destruct (F q ltac:(lia)) as (aq & bq & cq & _).
  destruct (F l ltac:(lia)) as (al & _).
  destruct (F r ltac:(lia)) as (ar & _).
  split; [rewrite dn; auto|]. split; [auto|]. split; [lia|].
  exists l, r. rewrite bq, cq, aq, al, ar. auto 10.
Qed.

Lemma lookup_alloc_new (m : heap) n : (m ++ [n]) !! length m = Some n.
Proof. rewrite lookup_app_r by lia. rewrite Nat.sub_diag. reflexivity. Qed.

(** *** Allocating a parent for two nodes *)

Lemma attach_spec (m : heap) a b :
  a < length m -> b < length m ->
  let par := length m in
  let m' := setParent b par (setParent a par
              (m ++ [ {| Hash := hashPair (hashOf m a) (hashOf m b);
                         Left := Some a; Right := Some b; Parent := None |} ])) in
  frame [a; b] m m' /\ length m' = S (length m) /\
  linked m' a par /\ linked m' b par /\
  parentOf m' par = None /\
  hashOf m' par = hashPair (hashOf m a) (hashOf m b).
Proof.
  intros Ha Hb par m'.
  set (P := {| Hash := hashPair (hashOf m a) (hashOf m b);
               Left := Some a; Right := Some b; Parent := None |}) in *.
  set (m1 := m ++ [P]) in *.
  assert (Hlen1 : length m1 = S (length m)).
  { unfold m1. rewrite length_app. simpl. lia. }
  assert (F1 : frame [a; b] m1 m').
  { unfold m'. eapply frame_weaken.
    - eapply frame_trans; apply frame_setParent.
    - intros p Hp. exact Hp. }
  assert (F0 : frame [a; b] m m').
  { eapply frame_weaken.
    - eapply frame_trans; [apply (frame_alloc m P)|exact F1].
    - intros p Hp. exact Hp. }
  assert (Hlen : length m' = S (length m)).
  { unfold m', setParent. rewrite !length_alter. exact Hlen1. }
  assert (Hnew : m1 !! par = Some P) by apply lookup_alloc_new.
  destruct F1 as [_ F1]. destruct (F1 par ltac:(lia)) as (hp & lp & rp & pp).
  assert (Hh : hashOf m' par = hashPair (hashOf m a) (hashOf m b)).
  { rewrite hp. unfold hashOf at 1. rewrite Hnew. reflexivity. }
  assert (Hl : leftOf m' par = Some a).
  { rewrite lp. unfold leftOf. rewrite Hnew. reflexivity. }
  assert (Hr : rightOf m' par = Some b).
  { rewrite rp. unfold rightOf. rewrite Hnew. reflexivity. }
  assert (Hp : parentOf m' par = None).
  { rewrite pp.
    - unfold parentOf. rewrite Hnew. reflexivity.
    - assert (par = length m) by reflexivity.
      intros Hin. apply elem_of_cons in Hin as [Heq|Hin]; [lia|].
      apply list_elem_of_singleton in Hin. lia. }
  assert (Hpa : parentOf m' a = Some par).
  { unfold m'. destruct (decide (a = b)) as [->|Hne].
    - apply parentOf_setParent. unfold setParent. rewrite length_alter. lia.
    - rewrite parentOf_setParent_ne by auto.
      apply parentOf_setParent. lia. }
  assert (Hpb : parentOf m' b = Some par).
  { unfold m'. apply parentOf_setParent. unfold setParent.
    rewrite length_alter. lia. }
  destruct F0 as [F0l F0].
  destruct (F0 a Ha) as (ha & _). destruct (F0 b Hb) as (hb & _).
  assert (Hh' : hashOf m' par = hashPair (hashOf m' a) (hashOf m' b))
    by (rewrite ha, hb; exact Hh).
  split; [split; auto|]. split; [exact Hlen|].
  split; [|split; [|split; [exact Hp|exact Hh]]].
  - split; [exact Hpa|]. split; [exact Ha|]. split; [lia|].
    exists a, b. auto 10.
  - split; [exact Hpb|]. split; [exact Hb|]. split; [lia|].
    exists a, b. auto 10.
Qed.

(** *** One pass of [pairUp] *)

Lemma map_hashOf_frame S (m m' : heap) (l : list ptr) :
  frame S m m' -> (forall n, n ∈ l -> n < length m) ->
  map (hashOf m') l = map (hashOf m) l.
Proof.
  intros [_ F] Hv. apply map_ext_in. intros n Hn.
  apply list_elem_of_In in Hn. destruct (F n (Hv n Hn)) as (h & _). exact h.
Qed.

Lemma pairUp_post_intro m nodes m' ps :
  frame nodes m m' ->
  ps = seq (length m) (length ps) ->
  length m' = length m + length ps ->
  length ps = Nat.div2 (S (length nodes)) ->
  (forall n, n ∈ nodes -> exists q, q ∈ ps /\ linked m' n q) ->
  (forall q, q ∈ ps -> parentOf m' q = None) ->
  map (hashOf m') ps = pairHashes (map (hashOf m) nodes) ->
  pairUp_post m nodes m' ps.
Proof. unfold pairUp_post. auto 10. Qed.

Lemma pairUp_spec nodes : forall m,
  (forall n, n ∈ nodes -> n < length m) -> NoDup nodes ->
  (forall n, n ∈ nodes -> parentOf m n = None) ->
  pairUp_post m nodes (pairUp m nodes).1 (pairUp m nodes).2.
Proof.
  induction nodes as [|a|a b rest IH] using list_pair_ind; intros m Hv Hd Hn.
  - simpl. apply pairUp_post_intro; auto using frame_refl;
      intros ? Hin; inversion Hin.
  - assert (Ha : a < length m) by (apply Hv; left).
    destruct (attach_spec m a a Ha Ha) as (F & L & La & _ & Hp & Hh).
    cbn [pairUp fst snd]. apply pairUp_post_intro.
    + eapply frame_weaken; [exact F|]. intros p Hin.
      apply elem_of_cons in Hin as [->|Hin]; [left|exact Hin].
    + reflexivity.
    + simpl. lia.
    + reflexivity.
    + intros n Hin. apply list_elem_of_singleton in Hin as ->.
      exists (length m). split; [left|exact La].
    + intros q Hin. apply list_elem_of_singleton in Hin as ->. exact Hp.
    + simpl. rewrite Hh. reflexivity.
  - assert (Ha : a < length m) by (apply Hv; left).
    assert (Hb : b < length m) by (apply Hv; right; left).
    destruct (attach_spec m a b Ha Hb) as (F & L & La & Lb & Hp & Hh).
    cbn [pairUp].
    set (m1 := setParent b (length m) (setParent a (length m) _)) in *.
    apply NoDup_cons in Hd as [Hab Hd]. apply NoDup_cons in Hd as [Hbr Hd].
    assert (Har : a ∉ rest) by (intros Hin; apply Hab; right; exact Hin).
    assert (Hv0 : forall n, n ∈ rest -> n < length m).
    { intros n Hin. apply Hv. right; right; exact Hin. }
    assert (Hv1 : forall n, n ∈ rest -> n < length m1).
    { intros n Hin. rewrite L. specialize (Hv0 n Hin). lia. }
    assert (Hn1 : forall n, n ∈ rest -> parentOf m1 n = None).
    { intros n Hin. destruct F as [_ F].
      destruct (F n (Hv0 n Hin)) as (_ & _ & _ & h4).
      rewrite h4; [apply Hn; right; right; exact Hin|].
      intros Hin'. apply elem_of_cons in Hin' as [->|Hin']; [contradiction|].
      apply list_elem_of_singleton in Hin' as ->. contradiction. }
    specialize (IH m1 Hv1 Hd Hn1).
    destruct (pairUp m1 rest) as [m2 ps] eqn:E. cbn [fst snd] in *.
    destruct IH as (F2 & Hseq & Hlen & Hdiv & Hlink & Hpar & Hmap).
    assert (Hfresh : length m ∉ rest).
    { intros Hin. specialize (Hv0 _ Hin). lia. }
    apply pairUp_post_intro.
    + eapply frame_weaken; [eapply frame_trans; [exact F|exact F2]|].
      intros p Hin. exact Hin.
    + simpl. rewrite L in Hseq. rewrite <- Hseq. reflexivity.
    + simpl. lia.
    + simpl. rewrite Hdiv. reflexivity.
    + intros n Hin. apply elem_of_cons in Hin as [->|Hin].
      { exists (length m). split; [left|]. eapply linked_frame; eauto. }
      apply elem_of_cons in Hin as [->|Hin].
      { exists (length m). split; [left|]. eapply linked_frame; eauto. }
      destruct (Hlink n Hin) as (q & Hq & Hl). exists q. split; [right; exact Hq|exact Hl].
    + intros q Hin. apply elem_of_cons in Hin as [->|Hin]; [|apply Hpar; exact Hin].
      destruct F2 as [_ F2]. destruct (F2 (length m) ltac:(lia)) as (_ & _ & _ & g4).
      rewrite g4; [exact Hp|exact Hfresh].
    + simpl. f_equal.
      * destruct F2 as [_ F2]. destruct (F2 (length m) ltac:(lia)) as (g1 & _).
        rewrite g1. exact Hh.
      * rewrite Hmap. f_equal.
        eapply (map_hashOf_frame [a; b]); [exact F|exact Hv0].
Qed.

(** *** Duplicating the last parent *)

Lemma frame_restrict S T m m' :
  frame (S ++ T) m m' -> (forall p, p ∈ T -> length m <= p) -> frame S m m'.
Proof.
  intros [L F] HT. split; [exact L|]. intros p Hp.
  destruct (F p Hp) as (h1 & h2 & h3 & h4). repeat split; auto.
  intros Hn. apply h4. intros Hin. apply elem_of_app in Hin as [Hin|Hin]; [auto|].
  specialize (HT p Hin). lia.
Qed.

Lemma last_map_default {A B} (f : A -> B) (l : list A) d d' :
  l <> [] -> f (List.last l d) = List.last (map f l) d'.
Proof.
  induction l as [|a l IH]; [congruence|]. intros _.
  destruct l as [|b l]; [reflexivity|].
  change (f (List.last (b :: l) d) = List.last (map f (b :: l)) d').
  apply IH. congruence.
Qed.

Lemma lookup_last_default {A} (l : list A) d :
  l <> [] -> l !! (0 + length l - 1) = Some (List.last l d).
Proof.
  induction l as [|a l IH]; [congruence|]. intros _.
  destruct l as [|b l]; [reflexivity|].
  change (List.last (a :: b :: l) d) with (List.last (b :: l) d).
  rewrite <- IH by congruence. simpl. rewrite Nat.sub_0_r. reflexivity.
Qed.

Lemma last_seq_in (j n d : nat) : n <> 0 -> List.last (seq j n) d = j + n - 1.
Proof.
  revert j. induction n as [|n IH]; [congruence|]. intros j _.
  destruct n as [|n]; [simpl; lia|].
  change (List.last (seq (S j) (S n)) d = j + S (S n) - 1).
  rewrite IH by lia. lia.
Qed.

Lemma dupLast_spec (m0 m : heap) ps :
  ps = seq (length m0) (length ps) ->
  length m = length m0 + length ps ->
  (forall q, q ∈ ps -> parentOf m q = None) ->
  let m2 := (dupLast m ps).1 in
  let ps2 := (dupLast m ps).2 in
  frame [] m m2 /\
  (forall q, q ∈ ps2 -> length m0 <= q < length m2) /\
  NoDup ps2 /\
  (forall q, q ∈ ps2 -> parentOf m2 q = None) /\
  (forall q, q ∈ ps -> q ∈ ps2) /\
  map (hashOf m2) ps2 = dupLastHash (map (hashOf m) ps) /\
  length ps2 = length (dupLastHash (map (hashOf m) ps)).
Proof.
  intros Hseq Hlen Hpar. unfold dupLast, dupLastHash. rewrite length_map.
  assert (Hrange : forall q, q ∈ ps -> length m0 <= q < length m).
  { intros q Hq. rewrite Hseq in Hq. apply elem_of_seq in Hq. lia. }
  destruct ((1 <? length ps) && Nat.odd (length ps)) eqn:E; cbn [fst snd].
  - apply andb_true_iff in E as [E1 E2]. apply Nat.ltb_lt in E1.
    set (d := leaf (hashOf m (List.last ps 0))).
    assert (F : frame [] m (m ++ [d])) by apply frame_alloc.
    assert (Hne : ps <> []) by (intros ->; simpl in E1; lia).
    split; [exact F|]. split; [|split; [|split; [|split; [|split]]]].
    + intros q Hq. rewrite length_app. simpl.
      apply elem_of_app in Hq as [Hq|Hq].
      * specialize (Hrange q Hq). lia.
      * apply list_elem_of_singleton in Hq as ->. lia.
    + apply NoDup_app. split; [rewrite Hseq; apply NoDup_seq|]. split.
      * intros q Hq Hq'. apply list_elem_of_singleton in Hq' as ->.
        specialize (Hrange _ Hq). lia.
      * apply NoDup_singleton.
    + intros q Hq. apply elem_of_app in Hq as [Hq|Hq].
      * destruct F as [_ F]. destruct (F q) as (_ & _ & _ & h4).
        { specialize (Hrange q Hq). lia. }
        rewrite h4; [auto|]. intros Hin. inversion Hin.
      * apply list_elem_of_singleton in Hq as ->.
        unfold parentOf. rewrite lookup_alloc_new. reflexivity.
    + intros q Hq. apply elem_of_app. left. exact Hq.
    + rewrite map_app. simpl. f_equal.
      * eapply (map_hashOf_frame []); [exact F|]. intros n Hn.
        specialize (Hrange n Hn). lia.
      * unfold hashOf at 1. rewrite lookup_alloc_new. simpl.
        f_equal. apply last_map_default. exact Hne.
    + rewrite !length_app, length_map. reflexivity.
  - split; [apply frame_refl|]. split; [exact Hrange|].
    split; [rewrite Hseq; apply NoDup_seq|]. split; [exact Hpar|].
    split; [auto|]. split; [reflexivity|]. rewrite length_map. reflexivity.
Qed.

Lemma dupLastHash_length_bound (hs : list string) (n : nat) :
  2 <= n -> length hs = Nat.div2 (S n) -> 1 <= length (dupLastHash hs) < n.
Proof.
  intros Hn Hlen. unfold dupLastHash.
  pose proof (Nat.div2_odd (S n)) as Hd. rewrite <- Hlen in Hd.
  destruct (Nat.odd (S n)); simpl in Hd;
  destruct (Nat.ltb_spec 1 (length hs)) as [H1|H1]; simpl;
  try (destruct (Nat.odd (length hs)) eqn:E; [|lia];
       rewrite length_app; simpl;
       destruct (length hs) as [|[|[|k]]]; simpl in *; try lia; discriminate);
  lia.
Qed.

(** *** [buildTree] links every node of its list to the root it returns *)

Lemma buildTree_spec fuel : forall (m : heap) nodes,
  nodes <> [] -> length nodes <= fuel ->
  (forall n, n ∈ nodes -> n < length m) -> NoDup nodes ->
  (forall n, n ∈ nodes -> parentOf m n = None) ->
  exists m' r, buildTree fuel m nodes = Some (m', r) /\
    frame nodes m m' /\ r < length m' /\
    (forall n, n ∈ nodes -> reaches m' n r) /\
    reduceTree fuel (map (hashOf m) nodes) = Some (hashOf m' r).
Proof.
  induction fuel as [|fuel IH]; intros m nodes Hne Hfuel Hv Hd Hn.
  { destruct nodes; [congruence|simpl in Hfuel; lia]. }
  destruct nodes as [|a [|b rest]]; [congruence| |].
  - exists m, a. simpl. split; [reflexivity|]. split; [apply frame_refl|].
    split; [apply Hv; left|]. split; [|reflexivity].
    intros n Hin. apply list_elem_of_singleton in Hin as ->.
    apply reaches_top. apply Hn. left.
  - set (nodes := a :: b :: rest) in *.
    pose proof (pairUp_spec nodes m Hv Hd Hn) as Hpost.
    change (buildTree (S fuel) m nodes) with
      (let '(m1, parents) := pairUp m nodes in
       let '(m2, parents2) := dupLast m1 parents in
       buildTree fuel m2 parents2).
    change (reduceTree (S fuel) (map (hashOf m) nodes)) with
      (reduceTree fuel (dupLastHash (pairHashes (map (hashOf m) nodes)))).
    destruct (pairUp m nodes) as [m1 ps]. cbn [fst snd] in Hpost.
    destruct Hpost as (F1 & Hseq & Hlen & Hdiv & Hlink & Hpar & Hmap).
    pose proof (dupLast_spec m m1 ps Hseq Hlen Hpar) as Hdup.
    destruct (dupLast m1 ps) as [m2 ps2]. cbn [fst snd] in Hdup.
    destruct Hdup as (F2 & Hrange & Hd2 & Hpar2 & Hsub & Hmap2 & Hlen2).
    assert (Hbound : 1 <= length ps2 < length nodes).
    { rewrite Hlen2. apply dupLastHash_length_bound.
      - simpl. lia.
      - rewrite length_map. exact Hdiv. }
    destruct (IH m2 ps2) as (m' & r & Hb & F3 & Hr & Hreach & Hred).
    + intros ->. simpl in Hbound. lia.
    + lia.
    + intros q Hq. apply Hrange in Hq. lia.
    + exact Hd2.
    + exact Hpar2.
    + exists m', r. split; [exact Hb|].
      assert (Hout : forall p, p ∈ ps2 -> length m <= p).
      { intros p Hp. apply Hrange in Hp. lia. }
      split; [|split; [exact Hr|split]].
      * apply (frame_restrict nodes ps2); [|exact Hout].
        eapply frame_weaken; [eapply frame_trans; [eapply frame_trans|]|].
        -- exact F1.
        -- exact F2.
        -- exact F3.
        -- intros p Hp. rewrite app_nil_r in Hp. exact Hp.
      * intros n Hin. destruct (Hlink n Hin) as (q & Hq & Hl).
        apply (reaches_up m' n q r); [|apply Hreach, Hsub, Hq].
        eapply linked_frame; [eapply linked_frame; [exact Hl|exact F2|]|exact F3|].
        -- intros Hx. inversion Hx.
        -- intros Hx. specialize (Hout _ Hx). specialize (Hv _ Hin). lia.
      * rewrite <- Hred, Hmap2, Hmap. reflexivity.
Qed.

(** *** The walk of [GetProof] *)

Lemma reaches_le m n r : reaches m n r -> n <= r.
Proof.
  induction 1 as [r _|n q r (_ & Hlt & _) _ IH]; lia.
Qed.

Lemma foldProof_cons h e proof :
  foldProof h (e :: proof) =
  foldProof (if String.eqb (Position e) "left"
             then hashPair (PHash e) h else hashPair h (PHash e)) proof.
Proof. reflexivity. Qed.

Lemma climb_reaches m n r :
  reaches m n r ->
  forall fuel acc, r - n < fuel ->
  exists proof, climb fuel m n acc = Some (acc ++ proof) /\
    foldProof (hashOf m n) proof = hashOf m r.
Proof.
  induction 1 as [r Hr|n q r Hl Hreach IH]; intros fuel acc Hfuel.
  - exists []. destruct fuel as [|fuel]; [lia|]. simpl. rewrite Hr.
    rewrite app_nil_r. auto.
  - pose proof (reaches_le _ _ _ Hreach) as Hqr.
    destruct Hl as (Hp & Hnq & Hq & l & r0 & Hlft & Hrgt & Hlq & Hrq & Hn & Hh).
    destruct fuel as [|fuel]; [lia|]. simpl. rewrite Hp.
    destruct (decide (leftOf m q = Some n)) as [Heq|Hneq].
    + rewrite Hrgt.
      destruct (IH fuel (acc ++ [ {| PHash := hashOf m r0; Position := "right" |} ]))
        as (proof & Hc & Hf); [lia|].
      exists ({| PHash := hashOf m r0; Position := "right" |} :: proof).
      split.
      * rewrite Hc, <- app_assoc. reflexivity.
      * rewrite foldProof_cons. simpl.
        assert (l = n) by congruence. subst l. rewrite <- Hh. exact Hf.
    + rewrite Hlft.
      destruct (IH fuel (acc ++ [ {| PHash := hashOf m l; Position := "left" |} ]))
        as (proof & Hc & Hf); [lia|].
      exists ({| PHash := hashOf m l; Position := "left" |} :: proof).
      split.
      * rewrite Hc, <- app_assoc. reflexivity.
      * rewrite foldProof_cons. simpl.
        assert (n = r0) by (destruct Hn as [-> | ->]; [congruence|reflexivity]).
        subst r0. rewrite <- Hh. exact Hf.
Qed.

(** *** The tree built by [BuildMerkleTree] *)

Lemma parentOf_leaves (hs : list string) p : parentOf (map leaf hs) p = None.
Proof.
  unfold parentOf. rewrite list_lookup_fmap. destruct (hs !! p); reflexivity.
Qed.

Lemma hashOf_leaves (hs : list string) p h :
  hs !! p = Some h -> hashOf (map leaf hs) p = h.
Proof.
  intros H. unfold hashOf. rewrite list_lookup_fmap, H. reflexivity.
Qed.

(** The leaves handed to [buildTree], the store they live in, and what
    [buildTree] returns for them. *)
Lemma BuildMerkleTree_spec (E : list string) :
  E <> [] ->
  exists t r, BuildMerkleTree E = Some t /\ root t = Some r /\
    r < length (mem t) /\
    (forall i h, E !! i = Some h ->
       leaves t !! i = Some i /\ hashOf (mem t) i = h /\ reaches (mem t) i r) /\
    length (leaves t) = length (padOdd E) /\
    reduceTree (length (leaves t)) (padOdd E) = Some (hashOf (mem t) r).
Proof.
  intros Hne. unfold BuildMerkleTree.
  destruct E as [|e0 E0]; [congruence|]. set (E := e0 :: E0) in *.
  clearbody E. rewrite length_seq.
  set (m := map leaf E).
  assert (Hm : length m = length E) by (unfold m; apply length_map).
  set (alloc := if Nat.odd (length E)
                then (m ++ [ leaf (hashOf m (List.last (seq 0 (length E)) 0)) ],
                      seq 0 (length E) ++ [length m])
                else (m, seq 0 (length E))).
  assert (Hlen0 : length E <> 0) by (destruct E; [congruence|simpl; lia]).
  assert (Halloc :
    frame [] m alloc.1 /\
    alloc.2 = seq 0 (length alloc.2) /\ length alloc.1 = length alloc.2 /\
    length E <= length alloc.2 /\
    (forall p, parentOf alloc.1 p = None) /\
    map (hashOf alloc.1) alloc.2 =
      (if Nat.odd (length E) then E ++ [List.last E EmptyString] else E)).
  { unfold alloc. destruct (Nat.odd (length E)); cbn [fst snd].
    - split; [apply frame_alloc|]. rewrite !length_app, length_seq, Hm. simpl.
      split; [rewrite seq_app; reflexivity|]. split; [reflexivity|].
      split; [lia|]. split.
      + intros p. unfold parentOf. rewrite lookup_app.
        pose proof (parentOf_leaves E p) as Hp. unfold parentOf in Hp. fold m in Hp.
        destruct (m !! p) eqn:Em; [exact Hp|].
        destruct (p - length m) as [|k]; reflexivity.
      + rewrite map_app. simpl. f_equal.
        * rewrite (map_hashOf_frame [] m _ _ (frame_alloc m _)).
          -- unfold m. apply list_eq. intros i.
             rewrite list_lookup_fmap. destruct (E !! i) as [h|] eqn:Ei.
             ++ rewrite lookup_seq_lt by (apply lookup_lt_Some in Ei; exact Ei).
                simpl. f_equal. apply hashOf_leaves. exact Ei.
             ++ rewrite lookup_seq_ge by (apply lookup_ge_None in Ei; exact Ei).
                reflexivity.
          -- intros n Hn. apply elem_of_seq in Hn. lia.
        * unfold hashOf at 1. rewrite <- Hm at 1. rewrite lookup_alloc_new. simpl.
          rewrite last_seq_in by exact Hlen0. f_equal.
          unfold hashOf, m. rewrite list_lookup_fmap.
          rewrite (lookup_last_default E EmptyString Hne). reflexivity.
    - split; [apply frame_refl|]. rewrite length_seq.
      split; [reflexivity|]. split; [exact Hm|]. split; [lia|].
      split; [apply parentOf_leaves|].
      unfold m. apply list_eq. intros i.
      rewrite list_lookup_fmap. destruct (E !! i) as [h|] eqn:Ei.
      + rewrite lookup_seq_lt by (apply lookup_lt_Some in Ei; exact Ei).
        simpl. f_equal. apply hashOf_leaves. exact Ei.
      + rewrite lookup_seq_ge by (apply lookup_ge_None in Ei; exact Ei).
        reflexivity. }
  destruct alloc as [m1 lv1]. cbn [fst snd] in Halloc.
  destruct Halloc as (F & Hseq & Hl1 & Hle & Hpar & Hmap).
  destruct (buildTree_spec (length lv1) m1 lv1) as (m2 & r & Hb & F2 & Hr & Hreach & Hred).
  - intros ->. simpl in Hle. lia.
  - lia.
  - intros n Hn. rewrite Hseq in Hn. apply elem_of_seq in Hn. lia.
  - rewrite Hseq. apply NoDup_seq.
  - intros n _. apply Hpar.
  - rewrite Hb. eexists; exists r. split; [reflexivity|]. cbn [root mem leaves].
    split; [reflexivity|]. split; [exact Hr|]. split.
    + intros i h Hi. pose proof (lookup_lt_Some _ _ _ Hi) as Hlt.
      assert (Hin : lv1 !! i = Some i).
      { rewrite Hseq. rewrite lookup_seq_lt by lia. reflexivity. }
      split; [exact Hin|]. split.
      * destruct F2 as [_ F2]. destruct (F2 i ltac:(lia)) as (h1 & _). rewrite h1.
        destruct F as [_ F]. destruct (F i ltac:(lia)) as (h2 & _). rewrite h2.
        apply hashOf_leaves. exact Hi.
      * apply Hreach. apply list_elem_of_lookup. exists i. exact Hin.
    + unfold padOdd. rewrite <- Hmap, length_map. split; [reflexivity|exact Hred].
Qed.

(** C6. For a list [E] of leaf hashes and an index [i] of it, the proof
    that [GetProof] returns for [i] in the tree built over [E], folded from
    the leaf [E[i]] with the hash of (sibling, current) for a sibling on the
    left and of (current, sibling) otherwise, gives the root of the tree;
    [VerifyProof] accepts it. *)
Theorem merkle_proof_round_trip (E : list string) (i : nat) (h : string) :
  E !! i = Some h ->
  exists t proof,
    BuildMerkleTree E = Some t /\
    GetProof t (Z.of_nat i) = Some proof /\
    foldProof h proof = Root t /\
    VerifyProof h proof (Root t) = true.
Proof.
  intros Hi.
  assert (Hne : E <> []) by (intros ->; inversion Hi).
  destruct (BuildMerkleTree_spec E Hne) as (t & r & Hb & Hroot & Hr & Hleaf & _).
  destruct (Hleaf i h Hi) as (Hlv & Hh & Hreach).
  destruct (climb_reaches _ _ _ Hreach (S (length (mem t))) []) as (proof & Hc & Hf);
    [lia|].
  exists t, proof. split; [exact Hb|].
  assert (HR : foldProof h proof = Root t).
  { unfold Root. rewrite Hroot, <- Hh. exact Hf. }
  split; [|split; [exact HR|]].
  - unfold GetProof. pose proof (lookup_lt_Some _ _ _ Hlv) as Hlt.
    replace (Z.of_nat i <? 0)%Z with false by (symmetry; apply Z.ltb_ge; lia).
    replace (Z.of_nat (length (leaves t)) <=? Z.of_nat i)%Z with false
      by (symmetry; apply Z.leb_gt; lia).
    simpl. rewrite Nat2Z.id, Hlv. exact Hc.
  - unfold VerifyProof. rewrite HR. apply String.eqb_refl.
Qed.

Lemma merkle_proof_round_trip_witness :
  exists t proof,
    BuildMerkleTree [h_aa; h_bb; h_cc] = Some t /\
    GetProof t 2 = Some proof /\
    foldProof h_cc proof = Root t /\
    VerifyProof h_cc proof (Root t) = true.
Proof.
  apply (merkle_proof_round_trip [h_aa; h_bb; h_cc] 2 h_cc). reflexivity.
Defined.

(** *** The two implementations on lists of two leaves or more *)

Lemma pairHashes_length_even (hs : list string) :
  Nat.even (length hs) = true -> 2 * length (pairHashes hs) = length hs.
Proof.
  induction hs as [|a|a b rest IH] using list_pair_ind; simpl; intros H.
  - reflexivity.
  - discriminate.
  - specialize (IH H). lia.
Qed.

Lemma pairs_even (hs : list string) :
  Nat.even (length hs) = true -> ApiMerkle.pairs hs = Returned (pairHashes hs).
Proof.
  induction hs as [|a|a b rest IH] using list_pair_ind; simpl; intros H.
  - reflexivity.
  - discriminate.
  - rewrite (IH H). reflexivity.
Qed.

Lemma padOdd_even (hs : list string) : Nat.even (length (padOdd hs)) = true.
Proof.
  unfold padOdd. destruct (Nat.odd (length hs)) eqn:E.
  - rewrite length_app. simpl. rewrite Nat.add_1_r, Nat.even_succ. exact E.
  - rewrite <- Nat.negb_odd, E. reflexivity.
Qed.

Lemma padOdd_length (hs : list string) :
  length hs <= length (padOdd hs) <= S (length hs).
Proof.
  unfold padOdd. destruct (Nat.odd (length hs)); [rewrite length_app; simpl|]; lia.
Qed.

Lemma levels_agree f1 : forall (hs : list string) lvls f2,
  2 <= length hs <= f1 -> length (padOdd hs) <= f2 ->
  exists r lv', ApiMerkle.buildLevels f1 hs lvls = Some (Returned ([r], lv')) /\
    reduceTree f2 (padOdd hs) = Some r.
Proof.
  induction f1 as [|f1 IH]; intros hs lvls f2 Hlen Hf2; [lia|].
  pose proof (padOdd_even hs) as Hev. pose proof (padOdd_length hs) as Hpl.
  pose proof (pairHashes_length_even _ Hev) as Hnl.
  cbn [ApiMerkle.buildLevels].
  replace (1 <? length hs) with true by (symmetry; apply Nat.ltb_lt; lia).
  fold (padOdd hs). rewrite (pairs_even _ Hev).
  set (next := pairHashes (padOdd hs)) in *.
  destruct f2 as [|f2]; [lia|].
  assert (Hred : reduceTree (S f2) (padOdd hs) = reduceTree f2 (dupLastHash next)).
  { destruct (padOdd hs) as [|a [|b l]]; simpl in Hpl; try lia. reflexivity. }
  rewrite Hred.
  destruct (Nat.le_gt_cases (length next) 1) as [Hone|Hmany].
  - destruct next as [|r [|? ?]] eqn:En; simpl in Hone, Hnl; try lia.
    exists r. destruct f1 as [|f1]; [lia|]. destruct f2 as [|f2]; [lia|].
    eexists. split; reflexivity.
  - assert (Hdup : dupLastHash next = padOdd next).
    { unfold dupLastHash, padOdd.
      replace (1 <? length next) with true by (symmetry; apply Nat.ltb_lt; lia).
      reflexivity. }
    rewrite Hdup. pose proof (padOdd_length next) as Hpn.
    apply IH; lia.
Qed.

(** X3. On every list of two leaf hashes or more, the processor's tree and the
    query API's tree have the same root. *)
Lemma roots_agree_from_two_leaves (L : list string) :
  2 <= length L ->
  exists t t', BuildMerkleTree L = Some t /\
    ApiMerkle.buildMerkleTree L = Some (Returned t') /\
    Root t = ApiMerkle.root t'.
Proof.
  intros Hlen.
  assert (Hne : L <> []) by (intros ->; simpl in Hlen; lia).
  destruct (BuildMerkleTree_spec L Hne) as (t & r & Hb & Hroot & _ & _ & Hlv & Hred).
  destruct (levels_agree (length L) L [L] (length (leaves t))) as (r' & lv' & Hbl & Hr');
    [lia|lia|].
  exists t. unfold ApiMerkle.buildMerkleTree. rewrite Hbl.
  destruct L as [|a L']; [congruence|].
  eexists. split; [exact Hb|]. split; [reflexivity|].
  unfold Root. rewrite Hroot. cbn [ApiMerkle.root]. congruence.
Qed.

(** *** Lists of one leaf and of no leaf *)

Lemma processor_single_leaf (h : string) :
  exists t, BuildMerkleTree [h] = Some t /\ Root t = hashPair h h.
Proof. eexists. split; reflexivity. Qed.

Lemma api_single_leaf (h : string) :
  exists t, ApiMerkle.buildMerkleTree [h] = Some (Returned t) /\ ApiMerkle.root t = h.
Proof. eexists. split; reflexivity. Qed.

(** C5. The empty list has the root hex(SHA-256 of no byte) in the processor, and
    a single leaf [h] has the root [h] in the query API; but the processor
    pairs a single leaf with a copy of itself, so that its root is the hash
    of the pair and not [h], and the query API gives the empty list the
    empty string as root. *)
Theorem merkle_single_leaf_and_empty_roots :
  (forall h, Root <$> BuildMerkleTree [h] = Some (hashPair h h)) /\
  Root <$> BuildMerkleTree [h_aa]
    = Some "693e5f0f347a5d70acbb7baaab9beb988301b3e9588e32c73d7dcdfb7b2c4604"%string /\
  Root <$> BuildMerkleTree []
    = Some "e3b0c44298fc1c149afbf4c8996fb92427ae41e4649b934ca495991b7852b855"%string /\
  (forall h, ApiMerkle.buildMerkleTree [h]
     = Some (Returned {| ApiMerkle.root := h; ApiMerkle.leaves := [h];
                         ApiMerkle.levels := [[h]] |})) /\
  ApiMerkle.buildMerkleTree []
    = Some (Returned {| ApiMerkle.root := EmptyString; ApiMerkle.leaves := [];
                        ApiMerkle.levels := [] |}).
Proof.
  split; [intros h; reflexivity|].
  split; [vm_compute; reflexivity|].
  split; [vm_compute; reflexivity|].
  split; [intros h; reflexivity|reflexivity].
Qed.

(** C9. The two implementations give different roots to a list of one leaf
    and to the empty list. *)
Theorem merkle_roots_differ_on_short_lists :
  (exists t t', BuildMerkleTree [h_aa] = Some t /\
     ApiMerkle.buildMerkleTree [h_aa] = Some (Returned t') /\
     Root t = "693e5f0f347a5d70acbb7baaab9beb988301b3e9588e32c73d7dcdfb7b2c4604"%string /\
     ApiMerkle.root t' = h_aa /\
     Root t <> ApiMerkle.root t') /\
  (exists t t', BuildMerkleTree [] = Some t /\
     ApiMerkle.buildMerkleTree [] = Some (Returned t') /\
     Root t = "e3b0c44298fc1c149afbf4c8996fb92427ae41e4649b934ca495991b7852b855"%string /\
     ApiMerkle.root t' = EmptyString /\
     Root t <> ApiMerkle.root t').
Proof.
  split.
  - eexists. eexists. split; [reflexivity|]. split; [reflexivity|].
    split; [vm_compute; reflexivity|]. split; [reflexivity|].
    vm_compute. discriminate.
  - eexists. eexists. split; [reflexivity|]. split; [reflexivity|].
    split; [vm_compute; reflexivity|]. split; [reflexivity|].
    vm_compute. discriminate.
Qed.

End MerkleFacts.




(** ** The canonical form *)

Module CanonicalFacts.
Import Json Event CanonicalText.

Lemma append_assoc (a b c : string) :
  String.append (String.append a b) c = String.append a (String.append b c).
Proof.
  induction a as [|x a IH]; [reflexivity|].
  change (String x (String.append (String.append a b) c)
          = String x (String.append a (String.append b c))).
  f_equal. exact IH.
Qed.

Lemma join_tail (l : list string) (tail : string) :
  String.append (join "," l) tail = joinTail l tail.
Proof.
  unfold join. induction l as [|x l IH]; [reflexivity|].
  destruct l as [|y l]; [reflexivity|].
  change (String.concat "," (x :: y :: l))
    with (String.append x (String.append "," (String.concat "," (y :: l)))).
  rewrite !append_assoc, IH. reflexivity.
Qed.

Section WithLibs.
Context `{Libs}.

Lemma marshal_Object (m : list (string * value)) :
  GoCanonical.marshal (Object m) =
  String.append "{"
    (joinTail
       (map (fun ks => String.append (encodeString (fst ks)) (String.append ":" (snd ks)))
            (sortByKey (map (fun kv => let '(k, v') := kv in (k, GoCanonical.marshal v')) m)))
       "}").
Proof.
  change (GoCanonical.marshal (Object m)) with
    (String.append "{"
       (String.append
          (join "," (map (fun ks => String.append (encodeString (fst ks))
                                      (String.append ":" (snd ks)))
                         (sortByKey (map (fun kv => let '(k, v') := kv in
                                                  (k, GoCanonical.marshal v')) m))))
          "}")).
  rewrite join_tail. reflexivity.
Qed.

Lemma stringify_Object K (m : list (string * value)) :
  TS.stringify K (Object m) =
  String.append "{"
    (joinTail
       (flat_map (fun P =>
                    match mapGet P (map (fun kv => let '(k, v') := kv in
                                                   (k, TS.stringify K v')) m) with
                    | Some str => [String.append (TS.QuoteJSONString P)
                                     (String.append ":" str)]
                    | None => []
                    end) K)
       "}").
Proof.
  change (TS.stringify K (Object m)) with
    (String.append "{"
       (String.append
          (join ","
             (flat_map (fun P =>
                    match mapGet P (map (fun kv => let '(k, v') := kv in
                                                   (k, TS.stringify K v')) m) with
                    | Some str => [String.append (TS.QuoteJSONString P)
                                     (String.append ":" str)]
                    | None => []
                    end) K))
          "}")).
  rewrite join_tail. reflexivity.
Qed.

(** The text of the mapping [execMeta]. *)
Lemma go_execMeta_text (m : ExecutionMeta) :
  GoCanonical.marshal (GoCanonical.sortedValue (Object
    (mapSet "tool_calls" (GoCanonical.goSlice (ToolCalls m))
       (let execMeta :=
          mapSet "sdk_version" (Str (SDKVersion m))
            (mapSet "seed" (GoCanonical.ptrInt64 (Seed m))
               (match ModelID m with
                | Some modelID => mapSet "model_id" (Str modelID) []
                | None => []
                end)) in
        match Temperature m with
        | Some temperature => mapSet "temperature" (Float64 temperature) execMeta
        | None => execMeta
        end))))
  = goExecMetaText m.
Proof.
  destruct m as [mid mh temp sd mt tc ver lang tg]. cbn [ModelID Seed SDKVersion Temperature ToolCalls].
  destruct mid, temp, sd, tc;
    (etransitivity; [apply marshal_Object|];
     cbv [goExecMetaText String.concat nullOr ModelID Seed SDKVersion Temperature ToolCalls];
     rewrite ?append_assoc; reflexivity).
Qed.

(** The text of a mapping with the twelve names of the canonical form. *)
Lemma go_canonical_shape (a ag fid ph sid st : string) (ca sa : Z)
    (X inp out par : value) :
  GoCanonical.marshal (Object (GoCanonical.sortedMap
    (mapSet "facto_id" (Str fid)
    (mapSet "status" (Str st)
    (mapSet "started_at" (Int64 sa)
    (mapSet "session_id" (Str sid)
    (mapSet "prev_hash" (Str ph)
    (mapSet "parent_facto_id" par
    (mapSet "output_data" out
    (mapSet "input_data" inp
    (mapSet "execution_meta" X
    (mapSet "completed_at" (Int64 ca)
    (mapSet "agent_id" (Str ag)
    (mapSet "action_type" (Str a) [])))))))))))))) =
  String.concat ""
    [
      "{"; encodeString "action_type"; ":"; encodeString a;
      ","; encodeString "agent_id"; ":"; encodeString ag;
      ","; encodeString "completed_at"; ":"; formatInt ca;
      ","; encodeString "execution_meta"; ":"; GoCanonical.marshal (GoCanonical.sortedValue X);
      ","; encodeString "facto_id"; ":"; encodeString fid;
      ","; encodeString "input_data"; ":"; GoCanonical.marshal (GoCanonical.sortedValue inp);
      ","; encodeString "output_data"; ":"; GoCanonical.marshal (GoCanonical.sortedValue out);
      ","; encodeString "parent_facto_id"; ":"; GoCanonical.marshal (GoCanonical.sortedValue par);
      ","; encodeString "prev_hash"; ":"; encodeString ph;
      ","; encodeString "session_id"; ":"; encodeString sid;
      ","; encodeString "started_at"; ":"; formatInt sa;
      ","; encodeString "status"; ":"; encodeString st;
      "}" ].
Proof.
  etransitivity; [apply marshal_Object|].
  cbv [String.concat]. rewrite ?append_assoc. reflexivity.
Qed.

(** In Go the canonical form of every event is the text
    [goCanonicalText]: the twelve names in sorted order, [execution_meta]
    with [model_id] and [temperature] when they are not nil, [seed] also
    when it is nil, [sdk_version] and [tool_calls], and [null] for a nil
    [parent_facto_id]. *)
Lemma go_buildCanonicalForm_text (e : EventResponse) :
  GoCanonical.buildCanonicalForm e = goCanonicalText e.
Proof.
  unfold goCanonicalText. rewrite <- go_execMeta_text.
  replace (nullOr encodeString (ParentFactoID e))
    with (GoCanonical.marshal (GoCanonical.sortedValue
            (GoCanonical.ptrString (ParentFactoID e))))
    by (destruct (ParentFactoID e); reflexivity).
  exact (go_canonical_shape (ActionType e) (AgentID e) (FactoID e)
           (PrevHash (Proof_ e)) (SessionID e) (Status e)
           (CompletedAt e) (StartedAt e) _
           (GoCanonical.goMap (InputData e)) (GoCanonical.goMap (OutputData e))
           (GoCanonical.ptrString (ParentFactoID e))).
Qed.

(** *** The TypeScript SDK *)

Lemma ts_canonical_shape (a ag fid ph sid st : string) (ca sa : Z)
    (X inp out par : value) :
  let canonical :=
    mapSet "facto_id" (Str fid)
    (mapSet "status" (Str st)
    (mapSet "started_at" (Int64 sa)
    (mapSet "session_id" (Str sid)
    (mapSet "prev_hash" (Str ph)
    (mapSet "parent_facto_id" par
    (mapSet "output_data" out
    (mapSet "input_data" inp
    (mapSet "execution_meta" X
    (mapSet "completed_at" (Int64 ca)
    (mapSet "agent_id" (Str ag)
    (mapSet "action_type" (Str a) []))))))))))) in
  TS.stringify (sortStrings (map fst canonical)) (Object canonical) =
  String.concat ""
    [
      "{"; TS.QuoteJSONString "action_type"; ":"; TS.QuoteJSONString a;
      ","; TS.QuoteJSONString "agent_id"; ":"; TS.QuoteJSONString ag;
      ","; TS.QuoteJSONString "completed_at"; ":"; formatInt ca;
      ","; TS.QuoteJSONString "execution_meta"; ":"; TS.stringify canonicalKeys X;
      ","; TS.QuoteJSONString "facto_id"; ":"; TS.QuoteJSONString fid;
      ","; TS.QuoteJSONString "input_data"; ":"; TS.stringify canonicalKeys inp;
      ","; TS.QuoteJSONString "output_data"; ":"; TS.stringify canonicalKeys out;
      ","; TS.QuoteJSONString "parent_facto_id"; ":"; TS.stringify canonicalKeys par;
      ","; TS.QuoteJSONString "prev_hash"; ":"; TS.QuoteJSONString ph;
      ","; TS.QuoteJSONString "session_id"; ":"; TS.QuoteJSONString sid;
      ","; TS.QuoteJSONString "started_at"; ":"; formatInt sa;
      ","; TS.QuoteJSONString "status"; ":"; TS.QuoteJSONString st;
      "}" ].
Proof.
  intros canonical. etransitivity; [apply stringify_Object|].
  cbv [String.concat]. rewrite ?append_assoc. reflexivity.
Qed.

(** The mapping [execMeta] has none of the twelve names of the replacer:
    its text is the empty object, whatever the event. *)
Lemma ts_execMeta_text (m : ExecutionMeta) :
  TS.stringify canonicalKeys (Object
    (mapSet "tool_calls" (TS.nullable Array (ToolCalls m))
       (let execMeta :=
          mapSet "sdk_version" (Str (SDKVersion m))
            (mapSet "seed" (TS.nullable Int64 (Seed m))
               (match ModelID m with
                | Some model_id => mapSet "model_id" (Str model_id) []
                | None => []
                end)) in
        match Temperature m with
        | Some temperature => mapSet "temperature" (Float64 temperature) execMeta
        | None => execMeta
        end)))
  = "{}"%string.
Proof.
  destruct m as [mid mh temp sd mt tc ver lang tg].
  cbn [ModelID Seed SDKVersion Temperature ToolCalls].
  destruct mid, temp; (etransitivity; [apply stringify_Object|]; reflexivity).
Qed.

(** In the SDK the canonical form of every event is the text
    [tsCanonicalText], in which [execution_meta] is the empty object and
    [input_data] and [output_data] keep, at every depth, only the members
    whose name is one of the twelve names of the canonical form. *)
Lemma ts_buildCanonicalForm_text (e : FactoEvent) :
  TS.buildCanonicalForm e = tsCanonicalText e.
Proof.
  unfold tsCanonicalText.
  rewrite <- (ts_execMeta_text (ExecMeta e)).
  replace (nullOr TS.QuoteJSONString (ParentFactoID e))
    with (TS.stringify canonicalKeys (TS.nullable Str (ParentFactoID e)))
    by (destruct (ParentFactoID e); reflexivity).
  exact (ts_canonical_shape (ActionType e) (AgentID e) (FactoID e)
           (PrevHash (Proof_ e)) (SessionID e) (Status e)
           (CompletedAt e) (StartedAt e) _
           (TS.nullable Object (InputData e)) (TS.nullable Object (OutputData e))
           (TS.nullable Str (ParentFactoID e))).
Qed.

(** C1.  The server's [buildCanonicalForm] gives, for every event, the text
    of the mapping with the twelve names in sorted order, in which
    [execution_meta] holds [model_id] when it is not nil, [sdk_version],
    [seed], [temperature] when it is not nil, and [tool_calls], and none of
    [model_hash], [max_tokens], [tags], [sdk_language].  The SDK's
    [buildCanonicalForm] gives the text in which [execution_meta] is the
    empty object: it is the same for two events that differ only by their
    [execution_meta], and for the sample event signed with the seed 42 the
    two functions give the two sample texts. *)
Theorem ts_canonical_form_empties_execution_meta (e : FactoEvent) (m : ExecutionMeta) :
  GoCanonical.buildCanonicalForm e = goCanonicalText e
  /\ TS.buildCanonicalForm e = tsCanonicalText e
  /\ TS.buildCanonicalForm (withExecMeta e m) = TS.buildCanonicalForm e
  /\ TS.buildCanonicalForm Samples.seededEvent = Samples.seededEventTsCanonical
  /\ GoCanonical.buildCanonicalForm Samples.seededEvent = Samples.seededEventGoCanonical.
Proof.
  split; [apply go_buildCanonicalForm_text|].
  split; [apply ts_buildCanonicalForm_text|].
  split; [rewrite !ts_buildCanonicalForm_text; reflexivity|].
  split.
  - rewrite ts_buildCanonicalForm_text. vm_compute. reflexivity.
  - rewrite go_buildCanonicalForm_text. vm_compute. reflexivity.
Qed.

End WithLibs.
End CanonicalFacts.

(** ** Verification of one event *)

Module VerifyFacts.
Import Event Handlers.

Section WithLibs.
Context `{Libs}.

Lemma verifySignature_returns (e : EventResponse) :
  exists ok, verifySignature e = Returned ok.
Proof.
  unfold verifySignature, ed25519_Verify.
  destruct (base64_DecodeString (PublicKey (Proof_ e))) as [pk|]; [|eauto].
  destruct (length pk =? 32)%nat eqn:Ek; simpl; [|eauto].
  destruct (base64_DecodeString (Signature (Proof_ e))) as [sg|]; [|eauto].
  destruct (length sg =? 64)%nat; simpl; eauto.
Qed.

(** What the server's [VerifyEvent] returns: the pair of checks, and no
    panic.  [hash_valid] is true exactly when the hexadecimal SHA3-256 of
    the canonical form is [proof.event_hash]; [signature_valid] is false when
    [proof.public_key] or [proof.signature] is not valid Base64 or does not
    decode to 32 and 64 bytes, and is otherwise the result of the Ed25519
    check over the canonical form. *)
Lemma server_verify_event_checks (e : EventResponse) :
  let canonical := Hex.bytes_of_string (GoCanonical.buildCanonicalForm e) in
  exists hv sv,
    VerifyEvent e = Returned (Status200
      {| Verify.Valid := hv && sv;
         Verify.Checks := {| Verify.HashValid := hv; Verify.SignatureValid := sv;
                             Verify.ChainValid := None |} |}) /\
    hv = verifyHash e /\ verifySignature e = Returned sv /\
    (hv = true <->
     Hex.EncodeToString (sha3_Sum256 canonical) = EventHash (Proof_ e)) /\
    (base64_DecodeString (PublicKey (Proof_ e)) = None -> sv = false) /\
    (base64_DecodeString (Signature (Proof_ e)) = None -> sv = false) /\
    (forall pk, base64_DecodeString (PublicKey (Proof_ e)) = Some pk ->
       length pk <> 32%nat -> sv = false) /\
    (forall sg, base64_DecodeString (Signature (Proof_ e)) = Some sg ->
       length sg <> 64%nat -> sv = false) /\
    (forall pk sg,
       base64_DecodeString (PublicKey (Proof_ e)) = Some pk ->
       base64_DecodeString (Signature (Proof_ e)) = Some sg ->
       length pk = 32%nat -> length sg = 64%nat ->
       sv = ed25519_check pk canonical sg).
Proof.
  intros canonical. subst canonical.
  destruct (verifySignature_returns e) as [sv Hsv].
  exists (verifyHash e), sv.
  split; [unfold VerifyEvent; rewrite Hsv; reflexivity|].
  split; [reflexivity|]. split; [exact Hsv|].
  split; [unfold verifyHash; apply String.eqb_eq|].
  unfold verifySignature, ed25519_Verify in Hsv.
  repeat split.
  - intros E. rewrite E in Hsv. congruence.
  - intros E. destruct (base64_DecodeString (PublicKey (Proof_ e))) as [pk|];
      [|congruence].
    destruct (negb (length pk =? 32)%nat); [congruence|].
    rewrite E in Hsv. congruence.
  - intros pk E Hlen. rewrite E in Hsv.
    apply Nat.eqb_neq in Hlen. rewrite Hlen in Hsv. simpl in Hsv. congruence.
  - intros sg E Hlen.
    destruct (base64_DecodeString (PublicKey (Proof_ e))) as [pk|];
      [|congruence].
    destruct (negb (length pk =? 32)%nat); [congruence|].
    rewrite E in Hsv. apply Nat.eqb_neq in Hlen. rewrite Hlen in Hsv.
    simpl in Hsv. congruence.
  - intros pk sg Epk Esg Hpk Hsg. rewrite Epk, Esg in Hsv.
    apply Nat.eqb_eq in Hpk, Hsg. rewrite Hpk, Hsg in Hsv. simpl in Hsv.
    congruence.
Qed.

(** What the SDK's [verifyEvent] returns: [hash_valid] compares the
    hexadecimal SHA3-256 of the SDK's canonical form with
    [proof.event_hash], and [signature_valid] is true exactly when
    [fromBase64] returns bytes for both texts and [verifyAsync] returns true
    for these bytes.  Nothing else is looked at: neither the texts nor the
    lengths. *)
Lemma sdk_verify_event_pair (e : FactoEvent) :
  let canonical := Hex.bytes_of_string (TS.buildCanonicalForm e) in
  exists sv,
    TSVerify.verifyEvent e
    = Returned (String.eqb (Hex.EncodeToString (sha3_Sum256 canonical))
                           (EventHash (Proof_ e)), sv) /\
    (sv = true <->
     exists pk sg,
       js_fromBase64 (PublicKey (Proof_ e)) = Returned pk /\
       js_fromBase64 (Signature (Proof_ e)) = Returned sg /\
       js_verifyAsync sg canonical pk = Returned true).
Proof.
  intros canonical. unfold TSVerify.verifyEvent, TSVerify.computeHash, TSVerify.verify.
  fold canonical. eexists. split; [reflexivity|].
  destruct (js_fromBase64 (PublicKey (Proof_ e))) as [pk|m1].
  2:{ split; [discriminate|]. intros (pk & sg & [=] & _). }
  destruct (js_fromBase64 (Signature (Proof_ e))) as [sg|m2].
  2:{ split; [discriminate|]. intros (pk' & sg & _ & [=] & _). }
  destruct (js_verifyAsync sg canonical pk) as [ok|m3] eqn:Ev.
  - split.
    + intros ->. exists pk, sg. auto.
    + intros (pk' & sg' & [= <-] & [= <-] & Hv). congruence.
  - split; [discriminate|].
    intros (pk' & sg' & [= <-] & [= <-] & Hv). congruence.
Qed.

(** C3. Single-event verification returns the pair of checks with
    [signature_valid] false for a [proof.signature] that is not valid
    Base64: the server's [verifySignature] does, and the SDK's
    [verifyEvent] does not.  The server decodes both texts, returns false on
    an error of the decoder or on other lengths than 32 and 64 bytes, and
    gives the rest to the Ed25519 check.  The SDK has no check of its own:
    [hash_valid] is the comparison of the hexadecimal SHA3-256 of its
    canonical form with [proof.event_hash], and [signature_valid] is what
    [verifyAsync] returns for whatever bytes [fromBase64] returns.  So on
    an event whose signature text the server's decoder refuses, and in which
    [fromBase64] reads a signature that [verifyAsync] accepts, the server
    answers false and the SDK answers true. *)
Theorem sdk_verify_event_has_no_base64_check (e : FactoEvent) (pk sg : list Z) :
  let canonical := Hex.bytes_of_string (TS.buildCanonicalForm e) in
  base64_DecodeString (Signature (Proof_ e)) = None ->
  js_fromBase64 (PublicKey (Proof_ e)) = Returned pk ->
  js_fromBase64 (Signature (Proof_ e)) = Returned sg ->
  js_verifyAsync sg canonical pk = Returned true ->
  verifySignature e = Returned false /\
  (exists hv,
     VerifyEvent e = Returned (Status200
       {| Verify.Valid := false;
          Verify.Checks := {| Verify.HashValid := hv; Verify.SignatureValid := false;
                              Verify.ChainValid := None |} |})) /\
  TSVerify.verifyEvent e
  = Returned (String.eqb (Hex.EncodeToString (sha3_Sum256 canonical))
                         (EventHash (Proof_ e)), true).
Proof.
  intros canonical Hbad Hpk Hsg Hok.
  destruct (server_verify_event_checks e)
    as (hv & sv & Hv & _ & Hs & _ & _ & Hmal & _).
  rewrite (Hmal Hbad) in Hv, Hs.
  split; [exact Hs|]. split.
  { exists hv. rewrite Hv, andb_false_r. reflexivity. }
  destruct (sdk_verify_event_pair e) as (sv' & Hv' & Hiff).
  fold canonical in Hv', Hiff. rewrite Hv'. do 2 f_equal.
  apply Hiff. exists pk, sg. auto.
Qed.

End WithLibs.

Lemma sdk_verify_event_has_no_base64_check_witness :
  @verifySignature Samples.lenientLibs Samples.spacedSignatureEvent = Returned false /\
  exists hv,
    @TSVerify.verifyEvent Samples.lenientLibs Samples.spacedSignatureEvent
    = Returned (hv, true).
Proof.
  destruct (@sdk_verify_event_has_no_base64_check Samples.lenientLibs
              Samples.spacedSignatureEvent
              Samples.signerPublicKey Samples.signerSignature)
    as (Hs & _ & Hv); try (vm_compute; reflexivity).
  split; [exact Hs|]. eexists. exact Hv.
Defined.

End VerifyFacts.

(** ** Reading a session, and verifying its chain *)

Module ChainFacts.
Import Event Store ApiStorage Handlers Handlers.ChainVerify ChainSpec.

Section WithLibs.
Context `{Libs}.

(** *** [GetSessionEvents] *)

Lemma scanSession_app (rows : list Row) : forall limit acc,
  (Z.of_nat (length acc + length rows) <= limit)%Z ->
  scanSession rows limit acc = acc ++ map ofSessionRow rows.
Proof.
  induction rows as [|r rows IH]; intros limit acc Hlen.
  - simpl. rewrite app_nil_r. reflexivity.
  - cbn [scanSession]. simpl in Hlen.
    replace (limit <? Z.of_nat (length (acc ++ [ofSessionRow r])))%Z with false.
    + rewrite IH.
      * rewrite <- app_assoc. reflexivity.
      * rewrite length_app. simpl. lia.
    + symmetry. apply Z.ltb_ge. rewrite length_app. simpl. lia.
Qed.

Lemma scanSession_elem (rows : list Row) : forall limit acc e,
  e ∈ scanSession rows limit acc ->
  e ∈ acc \/ exists r, r ∈ rows /\ e = ofSessionRow r.
Proof.
  induction rows as [|r rows IH]; intros limit acc e He.
  - left. exact He.
  - cbn [scanSession] in He.
    assert (Hacc : e ∈ acc ++ [ofSessionRow r] ->
                   e ∈ acc \/ exists r0, r0 ∈ r :: rows /\ e = ofSessionRow r0).
    { intros Hin. apply elem_of_app in Hin as [Hin|Hin]; [left; exact Hin|].
      apply list_elem_of_singleton in Hin. right. exists r. split; [left|exact Hin]. }
    destruct (limit <? Z.of_nat (length (acc ++ [ofSessionRow r])))%Z.
    + apply Hacc. exact He.
    + apply IH in He as [He|(r0 & Hr0 & He)]; [apply Hacc; exact He|].
      right. exists r0. split; [right; exact Hr0|exact He].
Qed.

Lemma elem_of_firstn {A} (x : A) n l : x ∈ firstn n l -> x ∈ l.
Proof.
  intros Hx. apply elem_of_take in Hx as (i & Hi & _).
  apply list_elem_of_lookup. exists i. exact Hi.
Qed.

Lemma last_map_Some {A} (l : list A) :
  l <> [] -> exists x, List.last (map Some l) None = Some x /\ x ∈ l.
Proof.
  induction l as [|a l IH]; [congruence|]. intros _.
  destruct l as [|b l].
  - exists a. split; [reflexivity|left].
  - destruct IH as (x & Hx & Hin); [congruence|].
    exists x. split; [exact Hx|right; exact Hin].
Qed.

(** Every event that [GetSessionEvents] returns is built from a row of the
    session, with the columns that the table lacks replaced by the empty
    string, 0, 0 and the text of an empty list; and with a positive limit it
    does not panic. *)
Lemma GetSessionEvents_returns db read_fails sessionID limit cursor :
  (0 < limit)%Z ->
  exists res, GetSessionEvents db read_fails sessionID limit cursor = Returned res /\
    forall events next, res = Some (events, next) ->
      forall e, e ∈ events ->
        exists r, r ∈ events_by_session db /\ session_id r = sessionID /\
                  e = ofSessionRow r.
Proof.
  intros Hlimit. unfold GetSessionEvents.
  set (rows := firstn _ _).
  assert (Hrows : forall e, e ∈ scanSession rows limit [] ->
            exists r, r ∈ events_by_session db /\ session_id r = sessionID /\
                      e = ofSessionRow r).
  { intros e He. apply scanSession_elem in He as [He|(r & Hr & He)]; [inversion He|].
    exists r. unfold rows in Hr.
    apply elem_of_firstn in Hr.
    apply list_elem_of_filter in Hr as [Hs Hr].
    split; [exact Hr|]. split; [apply String.eqb_eq; exact Hs|exact He]. }
  destruct read_fails.
  { eexists. split; [reflexivity|]. intros ? ? [=]. }
  unfold paginate.
  destruct (limit <? Z.of_nat (length (scanSession rows limit [])))%Z eqn:E.
  - apply Z.ltb_lt in E.
    replace (limit <? 0)%Z with false by (symmetry; apply Z.ltb_ge; lia).
    set (page := firstn (Z.to_nat limit) (scanSession rows limit [])).
    assert (Hne : page <> []).
    { intros Hnil. apply (f_equal (@length _)) in Hnil. unfold page in Hnil.
      rewrite length_take_le in Hnil by lia. simpl in Hnil. lia. }
    destruct (last_map_Some page Hne) as (x & Hx & _). rewrite Hx.
    eexists. split; [reflexivity|]. intros events next [= <- <-] e He.
    apply Hrows. unfold page in He.
    apply elem_of_firstn in He. exact He.
  - eexists. split; [reflexivity|]. intros events next [= <- <-] e He.
    apply Hrows. exact He.
Qed.

(** When the session has no more rows than the limit, all of them are
    returned. *)
Lemma GetSessionEvents_all db sessionID limit cursor :
  let rows := filter (fun r => String.eqb (session_id r) sessionID = true)
                     (events_by_session db) in
  (Z.of_nat (length rows) <= limit)%Z ->
  GetSessionEvents db false sessionID limit cursor
  = Returned (Some (map ofSessionRow rows, None)).
Proof.
  intros rows Hlen. unfold GetSessionEvents. fold rows.
  rewrite firstn_all2 by lia.
  rewrite scanSession_app by (simpl; lia). simpl.
  unfold paginate. rewrite length_map.
  replace (limit <? Z.of_nat (length rows))%Z with false
    by (symmetry; apply Z.ltb_ge; lia).
  reflexivity.
Qed.

(** *** The loops of [VerifyChain] *)

Lemma hashLoop_keeps (events : list EventResponse) : forall r,
  ChainIntegrityValid (Checks (hashLoop events r)) = ChainIntegrityValid (Checks r) /\
  AllSignaturesValid (Checks (hashLoop events r)) = AllSignaturesValid (Checks r).
Proof.
  induction events as [|e events IH]; intros r; [split; reflexivity|].
  cbn [hashLoop]. destruct (negb (verifyHash e)); [|apply IH].
  destruct (IH (addError (String.append "Hash invalid for event: " (FactoID e))
             (setChecks {| AllHashesValid := false;
                           AllSignaturesValid := AllSignaturesValid (Checks r);
                           ChainIntegrityValid := ChainIntegrityValid (Checks r) |} r)))
    as [H1 H2].
  rewrite H1, H2. split; reflexivity.
Qed.

Lemma signatureLoop_returns (events : list EventResponse) : forall r,
  exists r', signatureLoop events r = Returned r' /\
    ChainIntegrityValid (Checks r') = ChainIntegrityValid (Checks r).
Proof.
  induction events as [|e events IH]; intros r; [exists r; split; reflexivity|].
  cbn [signatureLoop].
  destruct (VerifyFacts.verifySignature_returns e) as [ok ->].
  destruct (negb ok); [|apply IH].
  destruct (IH (addError (String.append "Signature invalid for event: " (FactoID e))
             (setChecks {| AllHashesValid := AllHashesValid (Checks r);
                           AllSignaturesValid := false;
                           ChainIntegrityValid := ChainIntegrityValid (Checks r) |} r)))
    as (r' & Hr' & Hc).
  exists r'. split; [exact Hr'|]. rewrite Hc. reflexivity.
Qed.

End WithLibs.

Lemma slice16_long (s : string) :
  (16 <= String.length s)%nat -> slice16 s = Returned (String.substring 0 16 s).
Proof.
  intros Hs. unfold slice16.
  replace (String.length s <? 16)%nat with false
    by (symmetry; apply Nat.ltb_ge; exact Hs).
  reflexivity.
Qed.

Lemma slice16_short (s : string) :
  (String.length s < 16)%nat -> slice16 s = Panic "slice bounds out of range".
Proof.
  intros Hs. unfold slice16.
  replace (String.length s <? 16)%nat with true
    by (symmetry; apply Nat.ltb_lt; exact Hs).
  reflexivity.
Qed.

(** When every hash that it can slice is long enough, the chain loop
    returns: the flag has been cleared exactly when a link is broken, and one
    entry, which names the event, has been added for each broken link. *)
Lemma chainLoop_long (events : list EventResponse) : forall expected r,
  (16 <= String.length expected)%nat -> Forall longHashes events ->
  exists r', chainLoop events expected r = Returned r' /\
    ChainIntegrityValid (Checks r')
      = ChainIntegrityValid (Checks r) && linksOk expected events /\
    AllHashesValid (Checks r') = AllHashesValid (Checks r) /\
    AllSignaturesValid (Checks r') = AllSignaturesValid (Checks r) /\
    Errors r' = Errors r ++ brokenEntries expected events /\
    EventCount r' = EventCount r /\ FirstEvent r' = FirstEvent r /\
    LastEvent r' = LastEvent r.
Proof.
  induction events as [|e events IH]; intros expected r Hexp Hall.
  - exists r. simpl. rewrite andb_true_r, app_nil_r. auto 10.
  - apply Forall_cons in Hall as [[Hp Hh] Hall].
    cbn [chainLoop linksOk brokenEntries].
    destruct (String.eqb (PrevHash (Proof_ e)) expected) eqn:E; cbn [negb].
    + destruct (IH (EventHash (Proof_ e)) r Hh Hall) as (r' & Hr' & Hc & Ha & Hs & He & Hrest).
      exists r'. split; [exact Hr'|]. rewrite Hc, He. simpl. auto 10.
    + rewrite (slice16_long _ Hexp), (slice16_long _ Hp).
      match goal with |- context [chainLoop events _ ?r0] =>
        destruct (IH (EventHash (Proof_ e)) r0 Hh Hall)
          as (r' & Hr' & Hc & Ha & Hs & He & Hrest) end.
      exists r'. split; [exact Hr'|]. rewrite Hc, Ha, Hs, He. cbn.
      rewrite andb_false_r, <- app_assoc. auto 10.
Qed.

(** The chain loop panics at a broken link whose [prev_hash] is short. *)
Lemma chainLoop_short_prev_hash (e : EventResponse) events expected r :
  String.eqb (PrevHash (Proof_ e)) expected = false ->
  (16 <= String.length expected)%nat ->
  (String.length (PrevHash (Proof_ e)) < 16)%nat ->
  chainLoop (e :: events) expected r = Panic "slice bounds out of range".
Proof.
  intros E Hexp Hp. cbn [chainLoop]. rewrite E. cbn [negb].
  rewrite (slice16_long _ Hexp), (slice16_short _ Hp). reflexivity.
Qed.

(** ... and at a broken link that follows an event whose [event_hash] is
    short. *)
Lemma chainLoop_short_expected (e : EventResponse) events expected r :
  String.eqb (PrevHash (Proof_ e)) expected = false ->
  (String.length expected < 16)%nat ->
  chainLoop (e :: events) expected r = Panic "slice bounds out of range".
Proof.
  intros E Hexp. cbn [chainLoop]. rewrite E. cbn [negb].
  rewrite (slice16_short _ Hexp). reflexivity.
Qed.

(** *** [sort.Slice] *)

Lemma insertSorted_Forall (P : EventResponse -> Prop) e l :
  P e -> Forall P l -> Forall P (insertSorted e l).
Proof.
  intros He Hl. induction Hl as [|x l Hx Hl IH]; simpl.
  - repeat constructor. exact He.
  - destruct (CompletedAt e <? CompletedAt x)%Z; repeat constructor; auto.
Qed.

Lemma sortSlice_Forall (P : EventResponse -> Prop) l :
  Forall P l -> Forall P (sortSlice l).
Proof.
  unfold sortSlice. intros Hl.
  assert (G : forall acc, Forall P acc ->
            Forall P (fold_left (fun sorted e => insertSorted e sorted) l acc)).
  { induction Hl as [|x l Hx Hl IH]; intros acc Hacc; simpl; [exact Hacc|].
    apply IH. apply insertSorted_Forall; assumption. }
  apply G. constructor.
Qed.

Lemma insertSorted_Permutation e l : Permutation (e :: l) (insertSorted e l).
Proof.
  induction l as [|x l IH]; simpl; [reflexivity|].
  destruct (CompletedAt e <? CompletedAt x)%Z; [reflexivity|].
  rewrite <- IH. apply perm_swap.
Qed.

Lemma sortSlice_Permutation l : Permutation l (sortSlice l).
Proof.
  unfold sortSlice.
  assert (G : forall acc,
            Permutation (acc ++ l)
              (fold_left (fun sorted e => insertSorted e sorted) l acc)).
  { induction l as [|x l IH]; intros acc; simpl; [rewrite app_nil_r; reflexivity|].
    rewrite <- IH, <- insertSorted_Permutation.
    symmetry. apply Permutation_middle. }
  apply (G []).
Qed.

(** The order of [CompletedAt], ascending. *)
Lemma insertSorted_sorted e l :
  StronglySorted (fun a b => (CompletedAt a <= CompletedAt b)%Z) l ->
  StronglySorted (fun a b => (CompletedAt a <= CompletedAt b)%Z) (insertSorted e l).
Proof.
  induction 1 as [|x l Hl IH Hx]; simpl.
  - repeat constructor.
  - destruct (Z.ltb_spec (CompletedAt e) (CompletedAt x)) as [Hlt|Hge].
    + constructor; [constructor; assumption|].
      constructor; [lia|]. eapply Forall_impl; [exact Hx|]. simpl. intros; lia.
    + constructor; [exact IH|].
      apply (insertSorted_Forall (fun b => (CompletedAt x <= CompletedAt b)%Z));
        [lia|exact Hx].
Qed.

Lemma sortSlice_sorted l :
  StronglySorted (fun a b => (CompletedAt a <= CompletedAt b)%Z) (sortSlice l).
Proof.
  unfold sortSlice.
  assert (G : forall acc,
            StronglySorted (fun a b => (CompletedAt a <= CompletedAt b)%Z) acc ->
            StronglySorted (fun a b => (CompletedAt a <= CompletedAt b)%Z)
              (fold_left (fun sorted e => insertSorted e sorted) l acc)).
  { induction l as [|x l IH]; intros acc Hacc; simpl; [exact Hacc|].
    apply IH, insertSorted_sorted, Hacc. }
  apply G. constructor.
Qed.


Lemma sortSlice_nil_inv l : sortSlice l = [] -> l = [].
Proof.
  intros Hs. pose proof (sortSlice_Permutation l) as Hp. rewrite Hs in Hp.
  apply Permutation_nil. symmetry. exact Hp.
Qed.

(** *** The handler *)

Section WithLibs.
Context `{Libs}.

Lemma VerifyChain_200 db read_fails sessionID events next e0 sorted :
  String.eqb sessionID "" = false ->
  GetSessionEvents db read_fails sessionID 10000 "" = Returned (Some (events, next)) ->
  sortSlice events = e0 :: sorted ->
  VerifyChain db read_fails sessionID =
  match signatureLoop (e0 :: sorted)
          (hashLoop (e0 :: sorted)
             {| Valid := false;
                EventCount := Z.of_nat (length (e0 :: sorted));
                FirstEvent := FactoID e0;
                LastEvent := FactoID (List.last (e0 :: sorted) e0);
                Checks := {| AllHashesValid := true; AllSignaturesValid := true;
                             ChainIntegrityValid := true |};
                SessionHash := EmptyString;
                Errors := [] |}) with
  | Panic msg => Panic msg
  | Returned response =>
      match chainLoop (e0 :: sorted) zeroHash response with
      | Panic msg => Panic msg
      | Returned response =>
          Returned (Status200
            {| Valid := AllHashesValid (Checks response)
                        && AllSignaturesValid (Checks response)
                        && ChainIntegrityValid (Checks response);
               EventCount := EventCount response;
               Checks := Checks response;
               FirstEvent := FirstEvent response;
               LastEvent := LastEvent response;
               SessionHash :=
                 Hex.EncodeToString
                   (SHA256.Sum256
                      (Hex.bytes_of_string
                         (String.concat ""
                            (map (fun event => EventHash (Proof_ event)) (e0 :: sorted)))));
               Errors := Errors response |})
      end
  end.
Proof.
  intros Hs Hg Hsort. unfold VerifyChain. rewrite Hs, Hg.
  destruct events as [|x events].
  - discriminate Hsort.
  - cbv zeta. rewrite Hsort. reflexivity.
Qed.

(** Under the length condition the handler verifies the chain of the
    events that it has read: it answers with a report in which
    [chain_integrity_valid] tells whether every [prev_hash] of the events,
    sorted by [completed_at], is the expected one, and whose errors end with
    one entry for each broken link. *)
Lemma VerifyChain_report db read_fails sessionID events next :
  String.eqb sessionID "" = false ->
  Forall longRow (events_by_session db) ->
  GetSessionEvents db read_fails sessionID 10000 "" = Returned (Some (events, next)) ->
  events <> [] ->
  exists response,
    VerifyChain db read_fails sessionID = Returned (Status200 response) /\
    ChainIntegrityValid (Checks response) = linksOk zeroHash (sortSlice events) /\
    (exists earlier,
       Errors response = earlier ++ brokenEntries zeroHash (sortSlice events)).
Proof.
  intros Hs Hlong Hg Hne.
  destruct (GetSessionEvents_returns db read_fails sessionID 10000 "" ltac:(lia))
    as (res & Hres & Hrows).
  rewrite Hg in Hres. injection Hres as <-.
  assert (Hall : Forall longHashes (sortSlice events)).
  { apply sortSlice_Forall. apply Forall_forall. intros e He.
    destruct (Hrows events next eq_refl e He) as (r & Hr & _ & ->).
    rewrite Forall_forall in Hlong. exact (Hlong r Hr). }
  destruct (sortSlice events) as [|e0 sorted] eqn:Hsort.
  { apply sortSlice_nil_inv in Hsort. contradiction. }
  rewrite (VerifyChain_200 _ _ _ _ _ _ _ Hs Hg Hsort).
  match goal with |- context [signatureLoop _ ?r0] =>
    destruct (signatureLoop_returns (e0 :: sorted) r0) as (r1 & -> & Hc1);
    destruct (hashLoop_keeps (e0 :: sorted)
                {| Valid := false;
                   EventCount := Z.of_nat (length (e0 :: sorted));
                   FirstEvent := FactoID e0;
                   LastEvent := FactoID (List.last (e0 :: sorted) e0);
                   Checks := {| AllHashesValid := true; AllSignaturesValid := true;
                                ChainIntegrityValid := true |};
                   SessionHash := EmptyString;
                   Errors := [] |}) as [Hc0 _] end.
  destruct (chainLoop_long (e0 :: sorted) zeroHash r1) as
    (r2 & -> & Hc2 & _ & _ & He2 & Hn2 & _); [simpl; lia|exact Hall|].
  eexists. split; [reflexivity|]. cbn [Checks Errors EventCount].
  split; [rewrite Hc2, Hc1, Hc0; reflexivity|].
  exists (Errors r1). exact He2.
Qed.

(** A session of one event whose [prev_hash] is [abc]: the handler panics
    when it slices 16 characters of it, whatever the libraries compute. *)
Lemma VerifyChain_short_prev_hash_panics :
  VerifyChain (Samples.storeOf Samples.shortPrevHashSession) false "session-test"
  = Panic "slice bounds out of range".
Proof.
  assert (Hg : exists e, PrevHash (Proof_ e) = "abc"%string /\
    GetSessionEvents (Samples.storeOf Samples.shortPrevHashSession) false
      "session-test" 10000 "" = Returned (Some ([e], None))).
  { eexists. split; [|rewrite GetSessionEvents_all; [reflexivity|vm_compute; discriminate]].
    reflexivity. }
  destruct Hg as (e & He & Hg).
  rewrite (VerifyChain_200 _ false "session-test" [e] None e [] eq_refl Hg eq_refl).
  match goal with |- context [signatureLoop _ ?r0] =>
    destruct (signatureLoop_returns [e] r0) as (r1 & -> & _) end.
  rewrite chainLoop_short_prev_hash; [reflexivity| | |].
  - rewrite He. reflexivity.
  - vm_compute. lia.
  - rewrite He. vm_compute. lia.
Qed.

(** C2. On a session of one event whose [prev_hash] is [abc], which is not
    the expected value, whole-chain verification does not report: no flag
    is set and no entry is added, the handler panics. *)
Theorem verify_chain_panics_on_short_prev_hash :
  Forall (fun r => session_id r = "session-test"%string /\ prev_hash r = "abc"%string)
    (events_by_session (Samples.storeOf Samples.shortPrevHashSession)) /\
  linksOk zeroHash (Samples.shortPrevHashSession) = false /\
  VerifyChain (Samples.storeOf Samples.shortPrevHashSession) false "session-test"
  = Panic "slice bounds out of range".
Proof.
  split; [repeat constructor|]. split; [reflexivity|].
  apply VerifyChain_short_prev_hash_panics.
Qed.

(** C10. The chain loop slices the first 16 characters of the expected
    prev-hash and of the stored [prev_hash] when it reports a mismatch, and
    the slice of the expected prev-hash is not safe when every [prev_hash]
    has 16 characters or more.  In this session of two events every
    [prev_hash] has 64 characters; the [event_hash] of the first event is
    [abc], which the [prev_hash] of the second is not: the chain is broken,
    and the handler panics when it slices the expected value for the entry
    of the report, whatever the libraries compute. *)
Theorem chain_report_panics_on_short_event_hash :
  Forall (fun r => session_id r = "session-test"%string /\
                   (16 <= String.length (prev_hash r))%nat)
    (events_by_session (Samples.storeOf Samples.brokenChainSession)) /\
  NoDup (map facto_id (events_by_session (Samples.storeOf Samples.brokenChainSession))) /\
  linksOk zeroHash Samples.brokenChainSession = false /\
  VerifyChain (Samples.storeOf Samples.brokenChainSession) false "session-test"
  = Panic "slice bounds out of range".
Proof.
  split; [repeat constructor; vm_compute; lia|].
  split.
  { apply (bool_decide_unpack _). vm_compute. exact I. }
  split; [reflexivity|].
  assert (Hg : exists e1 e2,
    PrevHash (Proof_ e1) = zeroHash /\ EventHash (Proof_ e1) = "abc"%string /\
    PrevHash (Proof_ e2) = Samples.ff64 /\
    CompletedAt e1 = 1700000000000000000%Z /\ CompletedAt e2 = 1700000001000000000%Z /\
    GetSessionEvents (Samples.storeOf Samples.brokenChainSession) false
      "session-test" 10000 "" = Returned (Some ([e1; e2], None))).
  { do 2 eexists. repeat split; reflexivity. }
  destruct Hg as (e1 & e2 & Hp1 & Hh1 & Hp2 & Ht1 & Ht2 & Hg).
  assert (Hsort : sortSlice [e1; e2] = [e1; e2]).
  { unfold sortSlice. cbn [fold_left insertSorted]. rewrite Ht1, Ht2. reflexivity. }
  rewrite (VerifyChain_200 _ false "session-test" [e1; e2] None e1 [e2] eq_refl Hg Hsort).
  match goal with |- context [signatureLoop _ ?r0] =>
    destruct (signatureLoop_returns [e1; e2] r0) as (r1 & -> & _) end.
  cbn [chainLoop]. rewrite Hp1. cbn [String.eqb negb].
  replace (String.eqb zeroHash zeroHash) with true by reflexivity. cbn [negb].
  rewrite Hh1, Hp2. reflexivity.
Qed.

End WithLibs.

End ChainFacts.

(** ** The consumer's flush *)

Module ConsumerFacts.
Import Event Store ProcStorage Consumer FlushSpec Samples.

Lemma BuildMerkleTree_returns (hashes : list string) :
  exists tree, Merkle.BuildMerkleTree hashes = Some tree.
Proof.
  destruct hashes as [|h hashes]; [eexists; reflexivity|].
  destruct (MerkleFacts.BuildMerkleTree_spec (h :: hashes) ltac:(congruence))
    as (t & _ & Ht & _).
  exists t. exact Ht.
Qed.

Section WithLibs.
Context `{Libs}.

(** C4. A flush of a batch that is not empty returns.  When one of the
    three writes of the events fails, a NAK is sent for every message of the
    batch, and nothing is written to [merkle_roots].  When the three writes
    succeed, the rows of the events are in the three tables, an ACK is sent
    for every message and no NAK, and the record of the Merkle root is
    written, unless that write fails, which changes neither the rows of the
    events nor the replies. *)
Theorem flush_replies_after_storage env (c : Consumer.t) (w : World) first rest :
  Consumer.events c = first :: rest ->
  exists c' w' tree,
    flush env c w = Some (c', w') /\
    Merkle.BuildMerkleTree
      (map (fun event => EventHash (Proof_ event)) (Consumer.events c)) = Some tree /\
    let failed := events_fails env || by_facto_id_fails env || by_session_fails env in
    let rows := map preprocess (Consumer.events c) in
    (failed = true ->
       replies w' = replies w ++ map Nak (messages c) /\
       merkle_roots (db w') = merkle_roots (db w)) /\
    (failed = false ->
       replies w' = replies w ++ map Ack (messages c) /\
       Store.events (db w') = Store.events (db w) ++ map (fullRow (now env)) rows /\
       events_by_facto_id (db w')
         = events_by_facto_id (db w) ++ map (fullRow (now env)) rows /\
       events_by_session (db w')
         = events_by_session (db w) ++ map (sessionRow (now env)) rows /\
       merkle_roots (db w')
         = merkle_roots (db w)
           ++ (if merkle_root_fails env then [] else [merkleRootRow env c tree first])).
Proof.
  intros Hev.
  destruct (BuildMerkleTree_returns
              (map (fun event => EventHash (Proof_ event)) (Consumer.events c)))
    as [tree Htree].
  unfold flush. rewrite Htree.
  replace (length (Consumer.events c) =? 0)%nat with false
    by (rewrite Hev; reflexivity).
  unfold StoreBatch, storeEventsBatch, storeByFactoIDBatch, storeBySessionBatch,
    StoreMerkleRoot, executeBatch, merkleRootRow.
  rewrite Hev. rewrite <- Hev.
  destruct env as [t f1 f2 f3 f4]. cbn [events_fails by_facto_id_fails by_session_fails
    merkle_root_fails now].
  destruct f1, f2, f3, f4; cbn;
    (eexists; eexists; exists tree; split; [reflexivity|]; split; [reflexivity|];
     split; intros E; try discriminate E; rewrite ?app_nil_r; auto 10).
Qed.

(** What a flush leaves. *)
Lemma flush_result env (c : Consumer.t) (w : World) :
  exists c' w', flush env c w = Some (c', w') /\
    ((Consumer.events c = [] /\ c' = c /\ w' = w) \/
     (Consumer.events c <> [] /\ Consumer.events c' = [] /\ messages c' = [] /\
      batchSize c' = batchSize c)).
Proof.
  destruct (Consumer.events c) as [|first rest] eqn:Hev.
  - exists c, w. unfold flush. rewrite Hev. split; [reflexivity|]. left. auto.
  - destruct (BuildMerkleTree_returns
                (map (fun event => EventHash (Proof_ event)) (Consumer.events c)))
      as [tree Htree].
    unfold flush. rewrite Htree. rewrite Hev. cbn [length Nat.eqb].
    destruct (StoreBatch env (db w) (first :: rest)) as [db1 stored].
    eexists. eexists. split; [reflexivity|]. right.
    split; [congruence|]. auto.
Qed.

(** The two buffers of a consumer have the same length. *)
Lemma reachable_lengths (c : Consumer.t) :
  reachable c -> length (Consumer.events c) = length (messages c).
Proof.
  induction 1 as [bs|env c w msg c' w' Hc IH Hh|env c w c' w' Hc IH Hf].
  - reflexivity.
  - unfold handleMessage in Hh.
    destruct (json_Unmarshal_event (Data msg)) as [event|].
    + set (c1 := {| batchSize := batchSize c;
                    Consumer.events := Consumer.events c ++ [event];
                    messages := messages c ++ [msg] |}) in *.
      assert (H1 : length (Consumer.events c1) = length (messages c1)).
      { unfold c1. cbn. rewrite !length_app, IH. reflexivity. }
      destruct (batchSize c <=? Z.of_nat (length (Consumer.events c1)))%Z.
      * destruct (flush_result env c1
                    {| db := db w; replies := replies w;
                       metrics := incConsumed (metrics w) |})
          as (c2 & w2 & Hf & Hcase).
        rewrite Hf in Hh. injection Hh as <- <-.
        destruct Hcase as [(_ & -> & _)|(_ & He & Hm & _)]; [exact H1|].
        rewrite He, Hm. reflexivity.
      * injection Hh as <- <-. exact H1.
    + injection Hh as <- <-. exact IH.
  - destruct (flush_result env c w) as (c2 & w2 & Hf2 & Hcase).
    rewrite Hf2 in Hf. injection Hf as <- <-.
    destruct Hcase as [(_ & -> & _)|(_ & He & Hm & _)]; [exact IH|].
    rewrite He, Hm. reflexivity.
Qed.

(** C7. Every flush of a consumer returns and leaves the two buffers
    empty, whatever the writes to the store do; and a flush with an empty
    buffer changes neither the consumer nor the store, the replies and the
    counters. *)
Theorem flush_clears_buffers (c : Consumer.t) :
  reachable c ->
  forall env w,
    exists c' w', flush env c w = Some (c', w') /\
      Consumer.events c' = [] /\ messages c' = [] /\
      (Consumer.events c = [] -> c' = c /\ w' = w).
Proof.
  intros Hc env w. pose proof (reachable_lengths c Hc) as Hlen.
  destruct (flush_result env c w) as (c' & w' & Hf & Hcase).
  exists c', w'. split; [exact Hf|].
  destruct Hcase as [(He & -> & ->)|(Hne & He & Hm & _)].
  - split; [exact He|]. split; [|auto].
    rewrite He in Hlen. destruct (messages c); [reflexivity|discriminate].
  - split; [exact He|]. split; [exact Hm|]. intros E. contradiction.
Qed.

End WithLibs.

Lemma flush_replies_after_storage_witness :
  exists c' w',
    @flush Samples.sampleLibs Samples.sampleEnv sampleConsumer sampleWorld = Some (c', w') /\
    replies w' = [Ack sampleMsg] /\ length (merkle_roots (db w')) = 1%nat.
Proof.
  destruct (@flush_replies_after_storage Samples.sampleLibs Samples.sampleEnv
              sampleConsumer sampleWorld _ _ eq_refl)
    as (c' & w' & tree & Hf & _ & _ & Hok).
  exists c', w'. split; [exact Hf|].
  destruct (Hok eq_refl) as (Hr & _ & _ & _ & Hm).
  rewrite Hr, Hm. split; reflexivity.
Defined.

Lemma flush_clears_buffers_witness :
  @reachable decodingLibs sampleConsumer /\
  (exists c' w',
     @flush decodingLibs sampleEnv sampleConsumer sampleWorld = Some (c', w') /\
     Consumer.events c' = [] /\ messages c' = []) /\
  (exists c' w',
     @flush decodingLibs sampleEnv (NewConsumer 1000) sampleWorld = Some (c', w') /\
     c' = NewConsumer 1000 /\ w' = sampleWorld).
Proof.
  assert (Hr : @reachable decodingLibs sampleConsumer).
  { apply (@reachable_handle decodingLibs sampleEnv (NewConsumer 1000) sampleWorld
             sampleMsg sampleConsumer
             {| db := emptyDatabase; replies := [];
                metrics := incConsumed (metrics sampleWorld) |}).
    - apply reachable_new.
    - reflexivity. }
  split; [exact Hr|]. split.
  - destruct (@flush_clears_buffers decodingLibs sampleConsumer Hr sampleEnv sampleWorld)
      as (c' & w' & Hf & He & Hm & _).
    exists c', w'. auto.
  - destruct (@flush_clears_buffers decodingLibs (NewConsumer 1000)
                (reachable_new 1000) sampleEnv sampleWorld)
      as (c' & w' & Hf & _ & _ & Hnoop).
    exists c', w'. destruct (Hnoop eq_refl) as [Hc Hw]. auto.
Defined.

End ConsumerFacts.

(** ** Reading events back (server/api/storage.go) *)

Module ReadBackFacts.
Import Json Event Store ProcStorage ApiStorage CanonicalText Probe.

(** *** The reader of canonical forms *)

Lemma append_nil_l (s : string) : String.append EmptyString s = s.
Proof. reflexivity. Qed.

Lemma append_cons (c : ascii) (s t : string) :
  String.append (String c s) t = String c (String.append s t).
Proof. reflexivity. Qed.

Lemma stripPrefix_app (p s : string) : stripPrefix p (String.append p s) = Some s.
Proof.
  induction p as [|c p IH]; [reflexivity|].
  rewrite append_cons. cbn [stripPrefix]. rewrite Ascii.eqb_refl. exact IH.
Qed.

Lemma expect_app (p : string) k (s : string) : expect p k (String.append p s) = k s.
Proof. unfold expect. rewrite stripPrefix_app. reflexivity. Qed.

Ltac by_bits c H :=
  destruct c as [[] [] [] [] [] [] [] []];
  first [ vm_compute in H; discriminate H | reflexivity ].

Lemma scanBody_escapeAscii (c : ascii) (X : string) :
  (byte c <? 128)%Z = true ->
  scanBody (String.append (escapeAscii c) X) = scanBody X.
Proof. intros Hc. by_bits c Hc. Qed.

Lemma scanBody_raw (c : ascii) (X : string) :
  (128 <=? byte c)%Z = true -> scanBody (String c X) = scanBody X.
Proof. intros Hc. by_bits c Hc. Qed.

Lemma scanBody_replacement (X : string) :
  scanBody (String.append replacementEscape X) = scanBody X.
Proof. reflexivity. Qed.

Lemma scanBody_separator (c : ascii) (X : string) :
  ((byte c =? 168) || (byte c =? 169))%Z = true ->
  scanBody (String.append "\u202" (String (Hex.hexdigit (Z.land (byte c) 15)) X))
  = scanBody X.
Proof. intros Hc. by_bits c Hc. Qed.

Lemma between_high lo hi c :
  (128 <= lo)%Z -> between lo hi c = true -> (128 <=? byte c)%Z = true.
Proof.
  unfold between. intros Hlo Hb. apply andb_true_iff in Hb as [Hb _].
  apply Z.leb_le in Hb. apply Z.leb_le. lia.
Qed.

Ltac high_bytes :=
  repeat match goal with
  | H : (_ && _) = true |- _ => apply andb_true_iff in H as [? ?]
  end;
  repeat split;
  match goal with
  | H : between _ _ ?c = true |- (128 <=? byte ?c)%Z = true =>
      refine (between_high _ _ _ _ H); lia
  end.

Lemma runeSize_two b c1 s2 :
  runeSize b (String c1 s2) = 2%nat -> (128 <=? byte c1)%Z = true.
Proof.
  unfold runeSize. intros R.
  repeat case_match; try discriminate R; high_bytes.
Qed.

Lemma runeSize_three b c1 c2 s3 :
  runeSize b (String c1 (String c2 s3)) = 3%nat ->
  (128 <=? byte c1)%Z = true /\ (128 <=? byte c2)%Z = true.
Proof.
  unfold runeSize. intros R.
  repeat case_match; try discriminate R; high_bytes.
Qed.

Lemma runeSize_four b c1 c2 c3 s4 :
  runeSize b (String c1 (String c2 (String c3 s4))) = 4%nat ->
  (128 <=? byte c1)%Z = true /\ (128 <=? byte c2)%Z = true
  /\ (128 <=? byte c3)%Z = true.
Proof.
  unfold runeSize. intros R.
  repeat case_match; try discriminate R; high_bytes.
Qed.

Lemma scanBody_encodeBody (n : nat) : forall a rest,
  (String.length a <= n)%nat ->
  scanBody (String.append (encodeBody a) (String "034"%char rest)) = Some rest.
Proof.
  induction n as [|n IH]; intros a rest Hn.
  { destruct a; [reflexivity|simpl in Hn; lia]. }
  destruct a as [|c s1]; [reflexivity|].
  assert (Hskip : scanBody (String.append (String.append replacementEscape (encodeBody s1))
                                          (String "034"%char rest)) = Some rest).
  { rewrite CanonicalFacts.append_assoc, scanBody_replacement.
    apply IH. simpl in Hn. lia. }
  cbn [encodeBody]. cbv zeta.
  destruct (byte c <? 128)%Z eqn:Hc.
  { rewrite CanonicalFacts.append_assoc, scanBody_escapeAscii by exact Hc.
    apply IH. simpl in Hn. lia. }
  assert (Hhigh : (128 <=? byte c)%Z = true).
  { apply Z.leb_le. apply Z.ltb_ge in Hc. exact Hc. }
  destruct (runeSize (byte c) s1) as [|[|[|[|[|k]]]]] eqn:R; try exact Hskip.
  - destruct s1 as [|c1 s2]; [exact Hskip|].
    apply runeSize_two in R.
    rewrite !append_cons, !scanBody_raw by assumption.
    apply IH. simpl in Hn. lia.
  - destruct s1 as [|c1 [|c2 s3]]; try exact Hskip.
    apply runeSize_three in R as [R1 R2].
    destruct ((byte c =? 226) && (byte c1 =? 128)
              && ((byte c2 =? 168) || (byte c2 =? 169)))%Z eqn:L.
    + apply andb_true_iff in L as [_ L].
      rewrite CanonicalFacts.append_assoc, (append_cons (Hex.hexdigit _)).
      rewrite scanBody_separator by exact L.
      apply IH. simpl in Hn. lia.
    + rewrite !append_cons, !scanBody_raw by assumption.
      apply IH. simpl in Hn. lia.
  - destruct s1 as [|c1 [|c2 [|c3 s4]]]; try exact Hskip.
    apply runeSize_four in R as (R1 & R2 & R3).
    rewrite !append_cons, !scanBody_raw by assumption.
    apply IH. simpl in Hn. lia.
Qed.

(** The reader steps over a string as Go's encoder writes it. *)
Lemma scanString_encodeString (a rest : string) :
  scanString (String.append (encodeString a) rest) = Some rest.
Proof.
  unfold encodeString. rewrite append_cons, CanonicalFacts.append_assoc, append_cons.
  rewrite append_nil_l. cbn [scanString].
  change (isQuote "034"%char) with true. cbv iota.
  apply (scanBody_encodeBody (String.length a)). lia.
Qed.

Lemma expectString_encodeString k (a s : string) :
  expectString k (String.append (encodeString a) s) = k s.
Proof. unfold expectString. rewrite scanString_encodeString. reflexivity. Qed.

Lemma allNum_uint (d : Decimal.uint) : allNum (NilEmpty.string_of_uint d) = true.
Proof. induction d; simpl; try exact IHd; reflexivity. Qed.

(** The text of an integer is a digit or a minus sign, followed by digits. *)
Lemma formatInt_shape (z : Z) :
  exists c s, formatInt z = String c s /\ isNumChar c = true /\ allNum s = true.
Proof.
  unfold formatInt.
  assert (U : forall d, exists c s, NilZero.string_of_uint d = String c s
                                    /\ isNumChar c = true /\ allNum s = true).
  { intros d. destruct d; simpl;
      try (eexists _, _; split; [reflexivity|split; [reflexivity|apply allNum_uint]]).
    eexists _, _. split; [reflexivity|]. split; reflexivity. }
  destruct (Z.to_int z) as [d|d]; simpl.
  - apply U.
  - destruct (U d) as (c & s & E & Hc & Hs).
    eexists _, _. split; [reflexivity|]. split; [reflexivity|].
    rewrite E. simpl. rewrite Hc, Hs. reflexivity.
Qed.

Lemma skipNumber_app (a : string) (c : ascii) (r : string) :
  allNum a = true -> isNumChar c = false ->
  skipNumber (String.append a (String c r)) = String c r.
Proof.
  intros Ha Hc. induction a as [|x a IH].
  - rewrite append_nil_l. cbn [skipNumber]. rewrite Hc. reflexivity.
  - simpl in Ha. apply andb_true_iff in Ha as [Hx Ha].
    rewrite append_cons. cbn [skipNumber]. rewrite Hx. apply IH. exact Ha.
Qed.

Lemma expectNumber_formatInt k (z : Z) (r : string) :
  expectNumber k (String.append (formatInt z) (String.append "," r))
  = k (String.append "," r).
Proof.
  unfold expectNumber. f_equal.
  destruct (formatInt_shape z) as (c & s & E & Hc & Hs).
  change (String.append "," r) with (String "," r).
  apply skipNumber_app; [|reflexivity].
  rewrite E. simpl. rewrite Hc, Hs. reflexivity.
Qed.

Lemma isNull_formatInt (z : Z) (r : string) :
  isNull (String.append (formatInt z) r) = Some false.
Proof.
  unfold isNull.
  destruct (formatInt_shape z) as (c & s & E & Hc & _).
  rewrite E, append_cons. cbn [stripPrefix].
  replace (Ascii.eqb "n" c) with false; [reflexivity|].
  by_bits c Hc.
Qed.

Lemma optionalModel_absent k (s : string) :
  optionalModel k (String.append (encodeString "sdk_version") s)
  = k (String.append (encodeString "sdk_version") s).
Proof.
  unfold optionalModel.
  replace (stripPrefix (encodeString "model_id")
             (String.append (encodeString "sdk_version") s)) with (@None string);
    [reflexivity|].
  set (m := encodeString "model_id"). vm_compute in m. subst m.
  set (v := encodeString "sdk_version"). vm_compute in v. subst v.
  rewrite !append_cons. reflexivity.
Qed.

Lemma optionalModel_present k (id s : string) :
  optionalModel k
    (String.append (encodeString "model_id")
       (String.append ":" (String.append (encodeString id) (String.append "," s))))
  = k s.
Proof.
  unfold optionalModel. rewrite stripPrefix_app.
  rewrite expect_app, expectString_encodeString, expect_app. reflexivity.
Qed.

Section WithLibs.
Context `{Libs}.

(** The reader finds, in the text of a canonical form, whether the seed of
    the event is absent. *)
Lemma seedProbe_text (e : EventResponse) :
  seedProbe (goCanonicalText e)
  = Some (match Seed (ExecMeta e) with None => true | Some _ => false end).
Proof.
  unfold seedProbe, goCanonicalText, goExecMetaText.
  destruct (ModelID (ExecMeta e)) as [id|];
    cbv [String.concat]; rewrite ?CanonicalFacts.append_assoc, ?append_nil_l;
    rewrite !expect_app, expectString_encodeString;
    rewrite !expect_app, expectString_encodeString;
    rewrite !expect_app, expectNumber_formatInt;
    rewrite !expect_app.
  - rewrite optionalModel_present.
    rewrite !expect_app, expectString_encodeString, !expect_app.
    destruct (Seed (ExecMeta e)) as [z|]; cbn [nullOr].
    + apply isNull_formatInt.
    + unfold isNull. rewrite stripPrefix_app. reflexivity.
  - rewrite optionalModel_absent.
    rewrite !expect_app, expectString_encodeString, !expect_app.
    destruct (Seed (ExecMeta e)) as [z|]; cbn [nullOr].
    + apply isNull_formatInt.
    + unfold isNull. rewrite stripPrefix_app. reflexivity.
Qed.

(** Two events with the same canonical form both have a seed, or both have
    none. *)
Lemma canonical_form_tells_seed (e1 e2 : EventResponse) :
  GoCanonical.buildCanonicalForm e1 = GoCanonical.buildCanonicalForm e2 ->
  (Seed (ExecMeta e1) = None <-> Seed (ExecMeta e2) = None).
Proof.
  rewrite !CanonicalFacts.go_buildCanonicalForm_text. intros Heq.
  apply (f_equal seedProbe) in Heq. rewrite !seedProbe_text in Heq.
  destruct (Seed (ExecMeta e1)), (Seed (ExecMeta e2)); split; intros E;
    congruence.
Qed.

(** *** The session walk *)

(** Every event that [GetSessionEvents] returns is built by [ofSessionRow]
    from a row of the session. *)
Lemma GetSessionEvents_rows db read_fails sessionID limit cursor events next e :
  GetSessionEvents db read_fails sessionID limit cursor = Returned (Some (events, next)) ->
  e ∈ events ->
  exists r, r ∈ events_by_session db /\ session_id r = sessionID /\ e = ofSessionRow r.
Proof.
  unfold GetSessionEvents. set (rows := firstn _ _).
  assert (Hrows : forall x, x ∈ scanSession rows limit [] ->
            exists r, r ∈ events_by_session db /\ session_id r = sessionID /\
                      x = ofSessionRow r).
  { intros x Hx.
    apply ChainFacts.scanSession_elem in Hx as [Hx|(r & Hr & Hx)]; [inversion Hx|].
    exists r. unfold rows in Hr. apply ChainFacts.elem_of_firstn in Hr.
    apply list_elem_of_filter in Hr as [Hs Hr].
    split; [exact Hr|]. split; [apply String.eqb_eq; exact Hs|exact Hx]. }
  destruct read_fails; [discriminate|].
  unfold paginate.
  destruct (limit <? Z.of_nat (length (scanSession rows limit [])))%Z.
  - destruct (limit <? 0)%Z; [discriminate|].
    destruct (List.last _ _); [|discriminate].
    intros [= <- <-] He. apply Hrows. apply ChainFacts.elem_of_firstn in He. exact He.
  - intros [= <- <-] He. apply Hrows. exact He.
Qed.

(** The row that [StoreBatch] writes to [events_by_session] for an event of
    the batch. *)
Lemma StoreBatch_session_row env db evs db' ok e :
  StoreBatch env db evs = (db', ok) -> by_session_fails env = false -> e ∈ evs ->
  sessionRow (now env) (preprocess e) ∈ events_by_session db'.
Proof.
  unfold StoreBatch, storeEventsBatch, storeByFactoIDBatch, storeBySessionBatch,
    executeBatch.
  intros Hs Hf He. rewrite Hf in Hs.
  destruct (events_fails env), (by_facto_id_fails env); cbn in Hs;
    injection Hs as <- <-; cbn; apply elem_of_app; right;
    rewrite map_map; apply (list_elem_of_fmap_2 (fun x => sessionRow (now env) (preprocess x)));
    exact He.
Qed.

Lemma ofSessionRow_absent (r : Row) :
  ModelHash (ExecMeta (ofSessionRow r)) = None
  /\ Seed (ExecMeta (ofSessionRow r)) = None
  /\ MaxTokens (ExecMeta (ofSessionRow r)) = None
  /\ ToolCalls (ExecMeta (ofSessionRow r)) = Some [].
Proof. repeat split. Qed.

(** [buildEventResponse] gives a nil pointer for a zero or an empty column. *)
Lemma zero_columns_read_as_null (r : Row) :
  ((temperature r = 0 \/ temperature r = 2 ^ 63) ->
     Temperature (ExecMeta (ofFullRow r)) = None
     /\ Temperature (ExecMeta (ofSessionRow r)) = None)
  /\ (seed r = 0 -> Seed (ExecMeta (ofFullRow r)) = None)
  /\ (max_tokens r = 0 -> MaxTokens (ExecMeta (ofFullRow r)) = None)
  /\ (model_id r = EmptyString ->
        ModelID (ExecMeta (ofFullRow r)) = None
        /\ ModelID (ExecMeta (ofSessionRow r)) = None)
  /\ (model_hash r = EmptyString -> ModelHash (ExecMeta (ofFullRow r)) = None)
  /\ (parent_facto_id r = EmptyString ->
        ParentFactoID (ofFullRow r) = None /\ ParentFactoID (ofSessionRow r) = None).
Proof.
  unfold ofFullRow, ofSessionRow, buildEventResponse.
  cbn [ExecMeta Temperature Seed MaxTokens ModelID ModelHash ParentFactoID].
  split; [intros [E | E]; rewrite E; split; reflexivity|].
  split; [intros E; rewrite E; reflexivity|].
  split; [intros E; rewrite E; reflexivity|].
  split; [intros E; rewrite E; split; reflexivity|].
  split; [intros E; rewrite E; reflexivity|].
  intros E; rewrite E; split; reflexivity.
Qed.

(** C8.  An event that the session walk ([GetSessionEvents]) returns has no
    [model_hash], no [seed] and no [max_tokens], and an empty list of
    [tool_calls], whatever the row holds; an event read from any table has a
    nil pointer where the column holds zero or the empty string
    (temperature, seed, max_tokens, model_id, model_hash, parent_facto_id);
    so an event signed with a seed is not the event that the walk returns
    after it was stored, and the two have different canonical forms. *)
Theorem session_walk_drops_columns
    db read_fails sessionID limit cursor events next (e signed : EventResponse) :
  GetSessionEvents db read_fails sessionID limit cursor = Returned (Some (events, next)) ->
  e ∈ events ->
  (ModelHash (ExecMeta e) = None /\ Seed (ExecMeta e) = None
   /\ MaxTokens (ExecMeta e) = None /\ ToolCalls (ExecMeta e) = Some [])
  /\ (forall r : Row,
        ((temperature r = 0 \/ temperature r = 2 ^ 63) ->
           Temperature (ExecMeta (ofFullRow r)) = None
           /\ Temperature (ExecMeta (ofSessionRow r)) = None)
        /\ (seed r = 0 -> Seed (ExecMeta (ofFullRow r)) = None)
        /\ (max_tokens r = 0 -> MaxTokens (ExecMeta (ofFullRow r)) = None)
        /\ (model_id r = EmptyString ->
              ModelID (ExecMeta (ofFullRow r)) = None
              /\ ModelID (ExecMeta (ofSessionRow r)) = None)
        /\ (model_hash r = EmptyString -> ModelHash (ExecMeta (ofFullRow r)) = None)
        /\ (parent_facto_id r = EmptyString ->
              ParentFactoID (ofFullRow r) = None
              /\ ParentFactoID (ofSessionRow r) = None))
  /\ (Seed (ExecMeta signed) <> None ->
        e <> signed
        /\ GoCanonical.buildCanonicalForm e <> GoCanonical.buildCanonicalForm signed
        /\ forall env db0 evs ok,
             StoreBatch env db0 evs = (db, ok) -> by_session_fails env = false ->
             signed ∈ evs ->
             sessionRow (now env) (preprocess signed) ∈ events_by_session db
             /\ ofSessionRow (sessionRow (now env) (preprocess signed)) <> signed).
Proof.
  intros Hget He.
  destruct (GetSessionEvents_rows _ _ _ _ _ _ _ _ Hget He) as (r & _ & _ & ->).
  split; [apply ofSessionRow_absent|].
  split; [exact zero_columns_read_as_null|].
  intros Hseed.
  assert (Hnone : forall r0, Seed (ExecMeta (ofSessionRow r0)) = None) by reflexivity.
  split; [|split].
  - intros E. apply Hseed. rewrite <- E. apply Hnone.
  - intros E. apply canonical_form_tells_seed in E. apply Hseed, E, Hnone.
  - intros env db0 evs ok Hstore Hf Hin. split.
    + exact (StoreBatch_session_row _ _ _ _ _ _ Hstore Hf Hin).
    + intros E. apply Hseed. rewrite <- E. apply Hnone.
Qed.

End WithLibs.

(** The sample event, signed with the seed 42, stored and read back by the
    session walk. *)
Lemma session_walk_drops_columns_witness :
  let signed := Samples.sampleEvent (Some 42) Handlers.zeroHash Samples.ff64 1000000001 in
  let db := Samples.storeOf [signed] in
  exists e,
    @GetSessionEvents Samples.sampleLibs db false "session-test" 10 ""
      = Returned (Some ([e], None))
    /\ Seed (ExecMeta e) = None
    /\ @GoCanonical.buildCanonicalForm Samples.sampleLibs e
       <> @GoCanonical.buildCanonicalForm Samples.sampleLibs signed.
Proof.
  intros signed db.
  eexists. split; [vm_compute; reflexivity|].
  match goal with
  | |- Seed (ExecMeta ?e) = _ /\ _ =>
      pose proof (@session_walk_drops_columns Samples.sampleLibs db false
                    "session-test" 10 "" [e] None e signed
                    ltac:(vm_compute; reflexivity) ltac:(left)) as (Ha & _ & Hc)
  end.
  split; [apply Ha|].
  apply Hc. discriminate.
Defined.

End ReadBackFacts.

(** ** The proofs of the query API's Merkle tree *)

Module ApiProofFacts.
Import ApiMerkle ApiProof MerkleInv.

Local Open Scope nat_scope.

Lemma rem_of_nat (i : nat) : (Z.rem (Z.of_nat i) 2 =? 0)%Z = Nat.even i.
Proof.
  rewrite Z.rem_mod_nonneg by lia.
  change 2%Z with (Z.of_nat 2). rewrite <- Nat2Z.inj_mod.
  destruct (Nat.even i) eqn:E.
  - apply Nat.even_spec in E as [k ->]. apply Z.eqb_eq.
    rewrite Nat.mul_comm, Nat.Div0.mod_mul. reflexivity.
  - apply Z.eqb_neq. intros Hz.
    assert (Hm : i mod 2 = 0) by lia.
    assert (Nat.even i = true); [|congruence].
    apply Nat.even_spec. exists (i / 2).
    pose proof (Nat.div_mod_eq i 2). lia.
Qed.

Lemma quot_of_nat (i : nat) : Z.quot (Z.of_nat i) 2 = Z.of_nat (i / 2).
Proof.
  rewrite Z.quot_div_nonneg by lia.
  change 2%Z with (Z.of_nat 2). rewrite <- Nat2Z.inj_div. reflexivity.
Qed.

(** The node [j] of a level of pairs is the hash of the nodes [2j] and
    [2j+1] of the level below. *)
Lemma pairHashes_lookup (P : list string) :
  Nat.even (length P) = true ->
  forall j a b, P !! (2 * j) = Some a -> P !! (2 * j + 1) = Some b ->
    pairHashes P !! j = Some (Merkle.hashPair a b).
Proof.
  induction P as [|x|x y rest IH] using MerkleFacts.list_pair_ind; intros Hev j a b Ha Hb.
  - discriminate Ha.
  - discriminate Hev.
  - destruct j as [|j].
    + simpl in Ha, Hb. injection Ha as <-. injection Hb as <-. reflexivity.
    + replace (2 * S j) with (S (S (2 * j))) in Ha by lia.
      replace (2 * S j + 1) with (S (S (2 * j + 1))) in Hb by lia.
      simpl in Ha, Hb. cbn [pairHashes]. simpl.
      apply IH; [exact Hev|exact Ha|exact Hb].
Qed.

Lemma padOdd_lookup (hs : list string) (i : nat) (x : string) :
  hs !! i = Some x -> padOdd hs !! i = Some x.
Proof.
  intros Hx. unfold padOdd. destruct (Nat.odd (length hs)); [|exact Hx].
  rewrite lookup_app_l; [exact Hx|]. apply lookup_lt_Some in Hx. exact Hx.
Qed.

(** [buildLevels] returns, and the levels that it records are those of
    [levelsAbove]. *)
Lemma buildLevels_levels (f : nat) : forall (hs : list string) lvls,
  1 <= length hs <= f ->
  exists r above,
    buildLevels f hs lvls = Some (Returned ([r], lvls ++ above)) /\
    levelsAbove hs above /\ topOf (hs :: above) = r.
Proof.
  induction f as [|f IH]; intros hs lvls Hlen; [lia|].
  cbn [buildLevels].
  destruct (1 <? length hs) eqn:E.
  - apply Nat.ltb_lt in E.
    pose proof (MerkleFacts.padOdd_even hs) as Hev.
    pose proof (MerkleFacts.padOdd_length hs) as Hpl.
    pose proof (MerkleFacts.pairHashes_length_even _ Hev) as Hnl.
    fold (padOdd hs). rewrite (MerkleFacts.pairs_even _ Hev).
    destruct (IH (pairHashes (padOdd hs)) (lvls ++ [pairHashes (padOdd hs)]))
      as (r & above & Hb & Hl & Ht); [lia|].
    exists r, (pairHashes (padOdd hs) :: above).
    split; [rewrite Hb, <- app_assoc; reflexivity|].
    split; [split; [lia|split; [reflexivity|exact Hl]]|].
    exact Ht.
  - apply Nat.ltb_ge in E.
    destruct hs as [|r [|? ?]]; simpl in Hlen, E; try lia.
    exists r, []. rewrite app_nil_r. split; [reflexivity|]. split; reflexivity.
Qed.

Lemma proofLoop_step (hs next : list string) above idx acc :
  proofLoop (hs :: next :: above) idx acc
  = match
      (if (fst (siblingOf idx) <? Z.of_nat (length (padOdd hs)))%Z then
         if (fst (siblingOf idx) <? 0)%Z then Panic "index out of range"
         else
           match padOdd hs !! Z.to_nat (fst (siblingOf idx)) with
           | Some h =>
               Returned (acc ++ [ {| Hash := h; Position := snd (siblingOf idx) |} ])
           | None => Panic "index out of range"
           end
       else Returned acc)
    with
    | Panic msg => Panic msg
    | Returned proof => proofLoop (next :: above) (Z.quot idx 2) proof
    end.
Proof.
  cbn [proofLoop]. fold (padOdd hs). destruct (siblingOf idx). reflexivity.
Qed.

(** The loop of [getProof] returns, and folding the elements that it adds,
    from a node of the lowest level, gives the node of the last level. *)
Lemma proofLoop_folds (above : list (list string)) : forall hs i x acc,
  levelsAbove hs above -> hs !! i = Some x ->
  exists proof,
    proofLoop (hs :: above) (Z.of_nat i) acc = Returned (acc ++ proof) /\
    Merkle.foldProof x (map toVerifier proof) = topOf (hs :: above).
Proof.
  induction above as [|next above IH]; intros hs i x acc Hl Hx.
  - exists []. rewrite app_nil_r. split; [reflexivity|].
    simpl in Hl. destruct hs as [|r [|? ?]]; simpl in Hl; try lia.
    destruct i; [|discriminate Hx]. injection Hx as <-. reflexivity.
  - destruct Hl as (Hlen & Hnext & Hl).
    pose proof (MerkleFacts.padOdd_even hs) as Hev.
    pose proof (MerkleFacts.padOdd_length hs) as Hpl.
    pose proof (lookup_lt_Some _ _ _ Hx) as Hi.
    pose proof (padOdd_lookup _ _ _ Hx) as HxP.
    pose proof (Nat.div_mod_eq i 2) as Hdm.
    pose proof (Nat.mod_upper_bound i 2 ltac:(lia)) as Hm.
    assert (Hpar : Nat.even (length (padOdd hs)) = true) by exact Hev.
    apply Nat.even_spec in Hpar as [k Hk].
    change (topOf (hs :: next :: above)) with (topOf (next :: above)).
    rewrite proofLoop_step.
    unfold siblingOf. rewrite rem_of_nat, quot_of_nat.
    destruct (Nat.even i) eqn:Ei; cbn [fst snd].
    + assert (Hmod : i mod 2 = 0).
      { apply Nat.even_spec in Ei as [q ->]. rewrite Nat.mul_comm.
        apply Nat.Div0.mod_mul. }
      destruct (lookup_lt_is_Some_2 (padOdd hs) (i + 1) ltac:(lia)) as [b Hb].
      replace (Z.of_nat i + 1 <? Z.of_nat (length (padOdd hs)))%Z with true
        by (symmetry; apply Z.ltb_lt; lia).
      replace (Z.of_nat i + 1 <? 0)%Z with false by (symmetry; apply Z.ltb_ge; lia).
      replace (Z.to_nat (Z.of_nat i + 1)) with (i + 1) by lia.
      rewrite Hb.
      assert (Hn : next !! (i / 2) = Some (Merkle.hashPair x b)).
      { rewrite Hnext. apply (pairHashes_lookup _ Hev).
        - replace (2 * (i / 2)) with i by lia. exact HxP.
        - replace (2 * (i / 2) + 1) with (i + 1) by lia. exact Hb. }
      destruct (IH next (i / 2) _ (acc ++ [{| Hash := b; Position := "right" |}]) Hl Hn)
        as (proof & Hp & Hf).
      exists ({| Hash := b; Position := "right" |} :: proof).
      split; [rewrite Hp, <- app_assoc; reflexivity|].
      exact Hf.
    + assert (Hmod : i mod 2 = 1).
      { destruct (Nat.eq_dec (i mod 2) 0) as [Hz|Hz]; [|lia].
        assert (Nat.even i = true); [|congruence].
        apply Nat.even_spec. exists (i / 2). lia. }
      destruct (lookup_lt_is_Some_2 (padOdd hs) (i - 1) ltac:(lia)) as [a Ha].
      replace (Z.of_nat i - 1 <? Z.of_nat (length (padOdd hs)))%Z with true
        by (symmetry; apply Z.ltb_lt; lia).
      replace (Z.of_nat i - 1 <? 0)%Z with false by (symmetry; apply Z.ltb_ge; lia).
      replace (Z.to_nat (Z.of_nat i - 1)) with (i - 1) by lia.
      rewrite Ha.
      assert (Hn : next !! (i / 2) = Some (Merkle.hashPair a x)).
      { rewrite Hnext. apply (pairHashes_lookup _ Hev).
        - replace (2 * (i / 2)) with (i - 1) by lia. exact Ha.
        - replace (2 * (i / 2) + 1) with i by lia. exact HxP. }
      destruct (IH next (i / 2) _ (acc ++ [{| Hash := a; Position := "left" |}]) Hl Hn)
        as (proof & Hp & Hf).
      exists ({| Hash := a; Position := "left" |} :: proof).
      split; [rewrite Hp, <- app_assoc; reflexivity|].
      exact Hf.
Qed.

(** The tree that [buildMerkleTree] builds on a list that is not empty. *)
Lemma buildMerkleTree_levels (L : list string) :
  L <> [] ->
  exists above,
    buildMerkleTree L
    = Some (Returned {| root := topOf (L :: above); leaves := L; levels := L :: above |})
    /\ levelsAbove L above.
Proof.
  intros Hne. unfold buildMerkleTree.
  destruct (buildLevels_levels (length L) L [L]) as (r & above & Hb & Hl & Ht).
  { destruct L; [congruence|simpl; lia]. }
  rewrite Hb. exists above. destruct L as [|a L']; [congruence|].
  rewrite Ht. split; [reflexivity|exact Hl].
Qed.

(** [getProof] on a tree with the levels of [levelsAbove]. *)
Lemma getProof_verifies (L : list string) above (i : nat) (h : string) :
  levelsAbove L above -> L !! i = Some h ->
  let t := {| root := topOf (L :: above); leaves := L; levels := L :: above |} in
  exists proof,
    getProof t (Z.of_nat i) = Returned proof /\
    Merkle.VerifyProof h (map toVerifier proof) (root t) = true.
Proof.
  intros Hl Hh t.
  destruct (proofLoop_folds above L i h [] Hl Hh) as (proof & Hp & Hf).
  exists proof.
  pose proof (lookup_lt_Some _ _ _ Hh) as Hi.
  split.
  - unfold getProof. cbn [leaves levels t].
    replace (Z.of_nat i <? 0)%Z with false by (symmetry; apply Z.ltb_ge; lia).
    replace (Z.of_nat (length L) <=? Z.of_nat i)%Z with false
      by (symmetry; apply Z.leb_gt; lia).
    exact Hp.
  - unfold Merkle.VerifyProof. cbn [root t]. rewrite Hf. apply String.eqb_refl.
Qed.

(** X1. On a list of leaf hashes that is not empty, the query API's
    [buildMerkleTree] returns a tree, [getProof] returns a proof for every
    index of a leaf, and the processor's [VerifyProof] accepts that proof
    for the leaf against the root of the tree. *)
Theorem api_merkle_proof_round_trip (L : list string) (i : nat) (h : string) :
  L !! i = Some h ->
  exists t proof,
    buildMerkleTree L = Some (Returned t) /\
    getProof t (Z.of_nat i) = Returned proof /\
    Merkle.VerifyProof h (map toVerifier proof) (root t) = true.
Proof.
  intros Hh.
  assert (Hne : L <> []) by (intros ->; discriminate Hh).
  destruct (buildMerkleTree_levels L Hne) as (above & Hb & Hl).
  destruct (getProof_verifies L above i h Hl Hh) as (proof & Hp & Hv).
  eexists. exists proof. split; [exact Hb|]. split; [exact Hp|exact Hv].
Qed.

Lemma api_merkle_proof_round_trip_witness :
  exists t proof,
    buildMerkleTree [h_aa; h_bb; h_cc] = Some (Returned t) /\
    getProof t 2 = Returned proof /\
    Merkle.VerifyProof h_cc (map toVerifier proof) (root t) = true.
Proof.
  exact (api_merkle_proof_round_trip [h_aa; h_bb; h_cc] 2 h_cc eq_refl).
Defined.

End ApiProofFacts.

(** ** The evidence package *)

Module EvidenceFacts.
Import Event Store ApiStorage Handlers Evidence.

Local Open Scope nat_scope.

Lemma proofsLoop_proves (L : list string) above (events : list EventResponse) :
  ApiProof.levelsAbove L above ->
  let t := {| ApiMerkle.root := ApiProof.topOf (L :: above);
              ApiMerkle.leaves := L; ApiMerkle.levels := L :: above |} in
  forall i,
    (forall k e, events !! k = Some e -> L !! (i + k) = Some (Event.EventHash (Proof_ e))) ->
    exists proofs,
      proofsLoop t (ApiMerkle.root t) (Z.of_nat i) events = Returned proofs /\
      Forall2 (proves (ApiMerkle.root t)) events proofs.
Proof.
  intros Hl t. induction events as [|e events IH]; intros i Hev.
  - exists []. split; [reflexivity|constructor].
  - cbn [proofsLoop].
    assert (He : L !! i = Some (Event.EventHash (Proof_ e))).
    { specialize (Hev 0 e eq_refl). rewrite Nat.add_0_r in Hev. exact Hev. }
    destruct (ApiProofFacts.getProof_verifies L above i _ Hl He) as (proof & Hp & Hv).
    fold t in Hp, Hv. rewrite Hp.
    destruct (IH (S i)) as (proofs & Hps & Hall).
    { intros k e' Hk. replace (S i + k) with (i + S k) by lia. apply Hev. exact Hk. }
    replace (Z.of_nat i + 1)%Z with (Z.of_nat (S i)) by lia.
    rewrite Hps. eexists. split; [reflexivity|].
    constructor; [|exact Hall].
    split; [reflexivity|]. split; [reflexivity|]. split; [reflexivity|exact Hv].
Qed.

Section WithLibs.
Context `{Libs}.

(** X2. [GetEvidencePackage] returns a response and does not panic.  A
    package (status 200) holds the events that [GetSessionEvents] read for
    the session, at least one, and one Merkle proof for each event, in the
    same order: the proof names the event and its hash, all proofs have the
    same root, and [VerifyProof] accepts each proof for the hash of its
    event against that root. *)
Theorem evidence_package_proofs_verify db read_fails nowString exportedAt sessionID :
  exists response,
    GetEvidencePackage db read_fails nowString exportedAt sessionID
      = Some (Returned response) /\
    (sessionID = EmptyString -> response = Status400) /\
    (read_fails = true -> sessionID <> EmptyString -> response = Status500) /\
    forall body, response = Status200 body ->
      SessionID body = sessionID /\
      (exists next,
         GetSessionEvents db read_fails sessionID 10000 ""
           = Returned (Some (Events body, next))) /\
      Events body <> [] /\
      exists root, Forall2 (proves root) (Events body) (MerkleProofs body).
Proof.
  unfold GetEvidencePackage.
  destruct (String.eqb sessionID "") eqn:Hs.
  { eexists. split; [reflexivity|]. split; [reflexivity|].
    apply String.eqb_eq in Hs. split; [congruence|]. intros body [=]. }
  apply String.eqb_neq in Hs.
  destruct (ChainFacts.GetSessionEvents_returns db read_fails sessionID 10000 ""
              ltac:(lia)) as (res & Hres & _).
  rewrite Hres.
  assert (Hfail : read_fails = true -> res = None).
  { intros ->. unfold GetSessionEvents in Hres. congruence. }
  destruct res as [[events next]|].
  2:{ eexists. split; [reflexivity|]. split; [congruence|].
      split; [reflexivity|]. intros body [=]. }
  destruct events as [|e events].
  { eexists. split; [reflexivity|]. split; [congruence|].
    split; [intros Hr; specialize (Hfail Hr); discriminate|]. intros body [=]. }
  cbn [length Nat.eqb].
  set (evs := e :: events) in *.
  set (hashes := map (fun e0 => Event.EventHash (Proof_ e0)) evs).
  destruct (ApiProofFacts.buildMerkleTree_levels hashes ltac:(discriminate))
    as (above & Hb & Hl).
  rewrite Hb.
  destruct (proofsLoop_proves hashes above evs Hl 0) as (proofs & Hps & Hall).
  { intros k e' Hk. unfold hashes. cbn [Nat.add].
    change (map ?f ?l) with (f <$> l). rewrite list_lookup_fmap, Hk. reflexivity. }
  cbn [ApiMerkle.root] in Hps |- *. change (Z.of_nat 0) with 0%Z in Hps.
  rewrite Hps. eexists. split; [reflexivity|]. split; [congruence|].
  split; [intros Hr; specialize (Hfail Hr); discriminate|].
  intros body [= <-]. cbn [SessionID Events MerkleProofs].
  split; [reflexivity|]. split; [exists next; reflexivity|].
  split; [discriminate|]. eexists. exact Hall.
Qed.

End WithLibs.
End EvidenceFacts.

(** ** The pages of events *)

Module PageFacts.
Import Event Store ApiStorage Handlers ApiHandlers.

Local Open Scope nat_scope.

Lemma clampLimit_range (limit : Z) : (1 <= clampLimit limit <= 1000)%Z.
Proof.
  unfold clampLimit.
  destruct (limit <=? 0)%Z eqn:E1; [simpl; lia|].
  destruct (1000 <? limit)%Z eqn:E2; [simpl; lia|]. simpl. lia.
Qed.

Lemma firstn_firstn_le {A} (l : list A) (i j : nat) :
  i <= j -> firstn i (firstn j l) = firstn i l.
Proof. intros Hij. rewrite firstn_firstn. f_equal. lia. Qed.

Section WithLibs.
Context `{Libs}.

(** *** The walk of a session *)

Lemma scanSession_all (rows : list Row) : forall limit acc,
  (Z.of_nat (length acc + length rows) <= limit + 1)%Z ->
  scanSession rows limit acc = acc ++ map ofSessionRow rows.
Proof.
  induction rows as [|r rows IH]; intros limit acc Hlen.
  - simpl. rewrite app_nil_r. reflexivity.
  - cbn [scanSession]. simpl in Hlen.
    destruct (limit <? Z.of_nat (length (acc ++ [ofSessionRow r])))%Z eqn:E.
    + apply Z.ltb_lt in E. rewrite length_app in E. simpl in E.
      destruct rows; [reflexivity|simpl in Hlen; lia].
    + rewrite IH; [rewrite <- app_assoc; reflexivity|].
      rewrite length_app. simpl. lia.
Qed.

(** The page that [GetSessionEvents] returns for a limit that is positive:
    the first [limit] events of the session, and a cursor exactly when the
    session has more. *)
Lemma GetSessionEvents_page db sessionID (limit : Z) cursor :
  (0 < limit)%Z ->
  let rows := sessionRows db sessionID in
  let page := map ofSessionRow (firstn (Z.to_nat limit) rows) in
  ApiStorage.GetSessionEvents db false sessionID limit cursor
  = Returned (Some (page,
      if (limit <? Z.of_nat (length rows))%Z
      then (fun e => base64_EncodeToString (FactoID e)) <$> last page
      else None)).
Proof.
  intros Hlimit rows page. unfold ApiStorage.GetSessionEvents.
  fold (sessionRows db sessionID). fold rows.
  rewrite scanSession_all.
  2:{ simpl. rewrite length_firstn. lia. }
  cbn [app]. unfold paginate.
  rewrite length_map, length_firstn.
  destruct (limit <? Z.of_nat (length rows))%Z eqn:E.
  - apply Z.ltb_lt in E.
    replace (limit <? Z.of_nat (Nat.min (Z.to_nat (limit + 1)) (length rows)))%Z
      with true by (symmetry; apply Z.ltb_lt; lia).
    replace (limit <? 0)%Z with false by (symmetry; apply Z.ltb_ge; lia).
    rewrite firstn_map, firstn_firstn_le by lia. fold page.
    assert (Hne : page <> []).
    { unfold page. intros Hnil. apply (f_equal (@length _)) in Hnil.
      rewrite length_map, length_firstn in Hnil. simpl in Hnil. lia. }
    destruct (ChainFacts.last_map_Some page Hne) as (x & Hx & _). rewrite Hx.
    do 3 f_equal.
    clear -Hx. induction page as [|a [|b page] IH]; [discriminate| |].
    + simpl in Hx. injection Hx as <-. reflexivity.
    + exact (IH Hx).
  - apply Z.ltb_ge in E.
    replace (limit <? Z.of_nat (Nat.min (Z.to_nat (limit + 1)) (length rows)))%Z
      with false by (symmetry; apply Z.ltb_ge; lia).
    unfold page. rewrite !firstn_all2 by lia. reflexivity.
Qed.

(** *** The events of an agent *)





Variable time_Parse : string -> option Z.


(** X6. The handler of [GET /v1/sessions/:session_id/events] answers 400
    to an empty session.  Otherwise, when the read succeeds, it answers 200
    with the first events of the session, up to the limit in force (between
    1 and 1000), and with a cursor exactly when the session has more events:
    the Base64 text of the identifier of the last event of the page.  The
    cursor of the request is not read. *)
Theorem get_session_events_page db sessionID limit cursor :
  let rows := sessionRows db sessionID in
  let page := map ofSessionRow (firstn (Z.to_nat (clampLimit limit)) rows) in
  (1 <= clampLimit limit <= 1000)%Z /\
  (sessionID = EmptyString ->
   ApiHandlers.GetSessionEvents db false sessionID limit cursor = Returned Status400) /\
  (sessionID <> EmptyString ->
   ApiHandlers.GetSessionEvents db false sessionID limit cursor
   = Returned (Status200
       {| Events := page;
          NextCursor :=
            if (clampLimit limit <? Z.of_nat (length rows))%Z
            then (fun e => base64_EncodeToString (FactoID e)) <$> last page
            else None |})).
Proof.
  intros rows page. pose proof (clampLimit_range limit) as Hc.
  split; [exact Hc|]. split.
  - intros ->. reflexivity.
  - intros Hs. apply String.eqb_neq in Hs.
    unfold ApiHandlers.GetSessionEvents. rewrite Hs.
    rewrite GetSessionEvents_page by lia. reflexivity.
Qed.

End WithLibs.

Lemma get_session_events_page_witness :
  exists e,
    @ApiHandlers.GetSessionEvents Samples.sampleLibs
      (Samples.storeOf Samples.shortEventHashSession) false "session-test" 1 ""
    = Returned (Status200 {| Events := [e]; NextCursor := Some "ft-test"%string |}).
Proof.
  eexists.
  refine (eq_trans
            (proj2 (proj2 (@get_session_events_page Samples.sampleLibs
                             (Samples.storeOf Samples.shortEventHashSession)
                             "session-test" 1 "")) _) _).
  - discriminate.
  - vm_compute. reflexivity.
Defined.

End PageFacts.

(** ** The report of [VerifyChain] *)

Module ChainReportFacts.
Import Event Store ApiStorage Handlers Handlers.ChainVerify ChainSpec ChainReport.

Section WithLibs.
Context `{Libs}.

Lemma last_cons_default {A} (l : list A) : forall a d d',
  List.last (a :: l) d = List.last (a :: l) d'.
Proof.
  induction l as [|b l IH]; intros a d d'; [reflexivity|].
  change (List.last (a :: b :: l) d) with (List.last (b :: l) d).
  change (List.last (a :: b :: l) d') with (List.last (b :: l) d').
  apply IH.
Qed.

Lemma last_map_Some_cons {A} (l : list A) : forall a,
  List.last (map Some (a :: l)) None = Some (List.last (a :: l) a).
Proof.
  induction l as [|b l IH]; intros a; [reflexivity|].
  change (List.last (map Some (a :: b :: l)) None)
    with (List.last (map Some (b :: l)) None).
  change (List.last (a :: b :: l) a) with (List.last (b :: l) a).
  rewrite IH. f_equal. apply last_cons_default.
Qed.

Lemma hashLoop_report (events : list EventResponse) : forall r,
  AllHashesValid (Checks (hashLoop events r))
    = AllHashesValid (Checks r) && forallb verifyHash events /\
  AllSignaturesValid (Checks (hashLoop events r)) = AllSignaturesValid (Checks r) /\
  ChainIntegrityValid (Checks (hashLoop events r)) = ChainIntegrityValid (Checks r) /\
  Errors (hashLoop events r) = Errors r ++ hashEntries events /\
  EventCount (hashLoop events r) = EventCount r /\
  FirstEvent (hashLoop events r) = FirstEvent r /\
  LastEvent (hashLoop events r) = LastEvent r.
Proof.
  induction events as [|e events IH]; intros r.
  - simpl. rewrite andb_true_r, app_nil_r. auto 10.
  - cbn [hashLoop forallb hashEntries].
    destruct (verifyHash e); cbn [negb].
    + destruct (IH r) as (H1 & H2 & H3 & H4 & H5). rewrite H1, H4. auto 10.
    + match goal with |- context [hashLoop events ?r0] =>
        destruct (IH r0) as (H1 & H2 & H3 & H4 & H5 & H6 & H7) end.
      rewrite H1, H2, H3, H4, H5, H6, H7. cbn.
      rewrite andb_false_r, <- app_assoc. auto 10.
Qed.

Lemma signatureLoop_report (events : list EventResponse) : forall r,
  exists r', signatureLoop events r = Returned r' /\
    AllSignaturesValid (Checks r')
      = AllSignaturesValid (Checks r) && forallb signatureOk events /\
    AllHashesValid (Checks r') = AllHashesValid (Checks r) /\
    ChainIntegrityValid (Checks r') = ChainIntegrityValid (Checks r) /\
    Errors r' = Errors r ++ signatureEntries events /\
    EventCount r' = EventCount r /\ FirstEvent r' = FirstEvent r /\
    LastEvent r' = LastEvent r.
Proof.
  induction events as [|e events IH]; intros r.
  - exists r. simpl. rewrite andb_true_r, app_nil_r. auto 10.
  - cbn [signatureLoop forallb signatureEntries]. unfold signatureOk at 1 3.
    destruct (VerifyFacts.verifySignature_returns e) as [ok ->].
    destruct ok; cbn [negb].
    + destruct (IH r) as (r' & Hr & H1 & H2 & H3 & H4 & H5).
      exists r'. rewrite H1, H4. auto 10.
    + match goal with |- context [signatureLoop events ?r0] =>
        destruct (IH r0) as (r' & Hr & H1 & H2 & H3 & H4 & H5 & H6 & H7) end.
      exists r'. rewrite H1, H2, H3, H4, H5, H6, H7. cbn.
      rewrite andb_false_r, <- app_assoc. auto 10.
Qed.

(** *** The order of the events *)

Lemma completed_at_inj (l : list EventResponse) : forall x y,
  NoDup (map CompletedAt l) -> In x l -> In y l ->
  CompletedAt x = CompletedAt y -> x = y.
Proof.
  induction l as [|a l IH]; intros x y Hnd Hx Hy Hk; [destruct Hx|].
  cbn [map] in Hnd. apply NoDup_cons in Hnd as [Ha Hnd].
  rewrite list_elem_of_In in Ha.
  destruct Hx as [<-|Hx], Hy as [<-|Hy].
  - reflexivity.
  - exfalso. apply Ha. rewrite Hk. apply in_map. exact Hy.
  - exfalso. apply Ha. rewrite <- Hk. apply in_map. exact Hx.
  - apply IH; assumption.
Qed.

(** When the events have different [CompletedAt], one order of them is
    sorted: every sort gives it. *)
Lemma sorted_order_unique (l1 : list EventResponse) : forall l2,
  NoDup (map CompletedAt l1) -> Permutation l1 l2 ->
  StronglySorted (fun a b => (CompletedAt a <= CompletedAt b)%Z) l1 ->
  StronglySorted (fun a b => (CompletedAt a <= CompletedAt b)%Z) l2 ->
  l1 = l2.
Proof.
  induction l1 as [|a l1 IH]; intros l2 Hnd Hp S1 S2.
  - apply Permutation_nil in Hp. congruence.
  - destruct l2 as [|b l2].
    { symmetry in Hp. apply Permutation_nil in Hp. discriminate Hp. }
    apply StronglySorted_inv in S1 as [S1 Ha].
    apply StronglySorted_inv in S2 as [S2 Hb].
    rewrite List.Forall_forall in Ha, Hb.
    assert (Hba : In b (a :: l1)).
    { apply (Permutation_in b (Permutation_sym Hp)). left. reflexivity. }
    assert (Hab : In a (b :: l2)).
    { apply (Permutation_in a Hp). left. reflexivity. }
    assert (E : a = b).
    { apply (completed_at_inj (a :: l1)); [exact Hnd|left; reflexivity|exact Hba|].
      assert (CompletedAt a <= CompletedAt b)%Z
        by (destruct Hba as [<-|Hba]; [lia|exact (Ha b Hba)]).
      assert (CompletedAt b <= CompletedAt a)%Z
        by (destruct Hab as [<-|Hab]; [lia|exact (Hb a Hab)]).
      lia. }
    subst b. f_equal. apply IH.
    + cbn [map] in Hnd. apply NoDup_cons in Hnd. tauto.
    + apply (Permutation_cons_inv Hp).
    + exact S1.
    + exact S2.
Qed.

(** The events read for a report: those of the first 10000 rows of the
    session. *)
Lemma report_events db read_fails sessionID events next :
  GetSessionEvents db read_fails sessionID 10000 "" = Returned (Some (events, next)) ->
  events = map ofSessionRow
             (firstn (Z.to_nat 10000) (ApiHandlers.sessionRows db sessionID)).
Proof.
  intros Hg. destruct read_fails; [discriminate Hg|].
  rewrite PageFacts.GetSessionEvents_page in Hg by lia.
  injection Hg as <- _. reflexivity.
Qed.

(** X4. On a session whose rows have different [completed_at], hashes of
    16 characters or more, a temperature that is finite and time stamps in
    the range of [int64] nanoseconds, [VerifyChain] answers 400 to an empty
    session, 500 when the read fails, 404 when the session has no event,
    and otherwise 200 with the report of the events in the order of
    [completed_at], which is the same for every sort: their number, the
    first and the last identifier, the three flags (every hash is the hash
    of the canonical form, every signature is accepted, every [prev_hash]
    is the [event_hash] before it, from 64 zeros), [valid] which is their
    conjunction, the hash of the session, and one entry for each failure,
    the hashes first, then the signatures, then the links. *)
Theorem verify_chain_report db read_fails sessionID :
  let rows := ApiHandlers.sessionRows db sessionID in
  Forall reportableRow rows ->
  NoDup (map completed_at rows) ->
  (sessionID = EmptyString -> VerifyChain db read_fails sessionID = Returned Status400) /\
  (sessionID <> EmptyString ->
   forall res, GetSessionEvents db read_fails sessionID 10000 "" = Returned res ->
     match res with
     | None => VerifyChain db read_fails sessionID = Returned Status500
     | Some ([], _) => VerifyChain db read_fails sessionID = Returned Status404
     | Some (events, _) =>
         exists sorted,
         Permutation events sorted /\
         StronglySorted (fun a b => (CompletedAt a <= CompletedAt b)%Z) sorted /\
         (forall l, Permutation events l ->
            StronglySorted (fun a b => (CompletedAt a <= CompletedAt b)%Z) l ->
            l = sorted) /\
         VerifyChain db read_fails sessionID = Returned (Status200
           {| Valid := forallb verifyHash sorted && forallb signatureOk sorted
                       && linksOk zeroHash sorted;
              EventCount := Z.of_nat (length events);
              Checks := {| AllHashesValid := forallb verifyHash sorted;
                           AllSignaturesValid := forallb signatureOk sorted;
                           ChainIntegrityValid := linksOk zeroHash sorted |};
              FirstEvent := match sorted with e :: _ => FactoID e | [] => EmptyString end;
              LastEvent :=
                match List.last (map Some sorted) None with
                | Some e => FactoID e
                | None => EmptyString
                end;
              SessionHash :=
                Hex.EncodeToString
                  (SHA256.Sum256
                     (Hex.bytes_of_string
                        (String.concat ""
                           (map (fun event => EventHash (Proof_ event)) sorted))));
              Errors := hashEntries sorted ++ signatureEntries sorted
                        ++ brokenEntries zeroHash sorted |})
     end).
Proof.
  intros rows Hrows Hnd. split.
  { intros ->. reflexivity. }
  intros Hs res Hg. apply String.eqb_neq in Hs.
  destruct res as [[events next]|]; [|unfold VerifyChain; rewrite Hs, Hg; reflexivity].
  destruct events as [|x events]; [unfold VerifyChain; rewrite Hs, Hg; reflexivity|].
  set (evs := x :: events) in *.
  pose proof (report_events _ _ _ _ _ Hg) as Hevs. fold rows in Hevs.
  assert (Hkeys : NoDup (map CompletedAt evs)).
  { rewrite Hevs, map_map.
    change (map (fun r => CompletedAt (ofSessionRow r)) (firstn (Z.to_nat 10000) rows))
      with (map completed_at (firstn (Z.to_nat 10000) rows)).
    rewrite <- firstn_map. eapply sublist_NoDup; [exact Hnd|apply sublist_take]. }
  assert (Hall : Forall longHashes (sortSlice evs)).
  { apply ChainFacts.sortSlice_Forall. rewrite Hevs.
    apply Forall_forall. intros e He.
    apply list_elem_of_In, in_map_iff in He as (r & <- & Hr).
    apply list_elem_of_In, ChainFacts.elem_of_firstn in Hr.
    rewrite Forall_forall in Hrows. exact (proj1 (Hrows r Hr)). }
  pose proof (ChainFacts.sortSlice_Permutation evs) as Hperm.
  pose proof (ChainFacts.sortSlice_sorted evs) as Hsorted.
  exists (sortSlice evs).
  split; [exact Hperm|]. split; [exact Hsorted|]. split.
  { intros l Hl Sl. symmetry. apply sorted_order_unique; [|
      |exact Hsorted|exact Sl].
    - apply NoDup_ListNoDup.
      eapply Permutation_NoDup; [apply Permutation_map; exact Hperm|].
      apply NoDup_ListNoDup. exact Hkeys.
    - rewrite <- Hperm. exact Hl. }
  assert (Hcount : length (sortSlice evs) = length evs).
  { symmetry. apply Permutation_length. exact Hperm. }
  clear Hperm Hsorted.
  destruct (sortSlice evs) as [|e0 sorted] eqn:Hsort.
  { apply ChainFacts.sortSlice_nil_inv in Hsort. discriminate Hsort. }
  rewrite (ChainFacts.VerifyChain_200 _ _ _ _ _ _ _ Hs Hg Hsort).
  match goal with |- context [hashLoop _ ?r0] =>
    destruct (hashLoop_report (e0 :: sorted) r0)
      as (Ha0 & Hs0 & Hc0 & He0 & Hn0 & Hf0 & Hl0);
    destruct (signatureLoop_report (e0 :: sorted) (hashLoop (e0 :: sorted) r0))
      as (r1 & -> & Hs1 & Ha1 & Hc1 & He1 & Hn1 & Hf1 & Hl1) end.
  destruct (ChainFacts.chainLoop_long (e0 :: sorted) zeroHash r1) as
    (r2 & -> & Hc2 & Ha2 & Hs2 & He2 & Hn2 & Hf2 & Hl2); [simpl; lia|exact Hall|].
  replace (Checks r2)
    with {| AllHashesValid := AllHashesValid (Checks r2);
            AllSignaturesValid := AllSignaturesValid (Checks r2);
            ChainIntegrityValid := ChainIntegrityValid (Checks r2) |}
    by (destruct (Checks r2); reflexivity).
  cbn [AllHashesValid AllSignaturesValid ChainIntegrityValid].
  rewrite Hc2, Ha2, Hs2, He2, Hn2, Hf2, Hl2.
  rewrite Hc1, Hc0, Hs1, Hs0, Ha1, Ha0, He1, He0, Hn1, Hn0, Hf1, Hf0, Hl1, Hl0.
  cbn [Checks AllHashesValid AllSignaturesValid ChainIntegrityValid Errors
       EventCount FirstEvent LastEvent andb app].
  rewrite Hcount, <- app_assoc.
  replace (FactoID (List.last (e0 :: sorted) e0))
    with (match List.last (map Some (e0 :: sorted)) None with
          | Some e => FactoID e
          | None => EmptyString
          end).
  - reflexivity.
  - rewrite last_map_Some_cons. reflexivity.
Qed.

End WithLibs.

Lemma verify_chain_report_witness :
  let db := Samples.storeOf Samples.linkedSession in
  exists response,
    @VerifyChain Samples.sampleLibs db false "session-test"
      = Returned (Status200 response) /\
    EventCount response = 2%Z /\
    FirstEvent response = "ft-1"%string /\ LastEvent response = "ft-2"%string /\
    ChainIntegrityValid (Checks response) = true.
Proof.
  intros db.
  assert (Hg : exists e2 e1,
            CompletedAt e1 = 1700000000000000000%Z /\
            CompletedAt e2 = 1700000001000000000%Z /\
            FactoID e1 = "ft-1"%string /\ FactoID e2 = "ft-2"%string /\
            linksOk zeroHash [e1; e2] = true /\
            @GetSessionEvents Samples.sampleLibs db false "session-test" 10000 ""
            = Returned (Some ([e2; e1], None))).
  { do 2 eexists. repeat split; vm_compute; reflexivity. }
  destruct Hg as (e2 & e1 & Ht1 & Ht2 & Hf1 & Hf2 & Hl & Hg).
  assert (Hrows : Forall reportableRow (ApiHandlers.sessionRows db "session-test")).
  { repeat constructor; vm_compute; try lia; try discriminate; intuition discriminate. }
  assert (Hnd : NoDup (map completed_at (ApiHandlers.sessionRows db "session-test"))).
  { apply (bool_decide_unpack _). vm_compute. exact I. }
  pose proof (proj2 (@verify_chain_report Samples.sampleLibs db false "session-test"
                       Hrows Hnd) ltac:(discriminate) _ Hg) as Hr.
  cbv beta iota zeta in Hr. destruct Hr as (sorted & _ & _ & Huniq & Hv).
  assert (Es : [e1; e2] = sorted).
  { apply Huniq; [apply perm_swap|].
    repeat constructor. rewrite Ht1, Ht2. lia. }
  subst sorted. eexists. split; [exact Hv|].
  cbn [EventCount FirstEvent LastEvent Checks ChainIntegrityValid length map List.last].
  rewrite Hf1, Hf2, Hl. repeat split.
Defined.

End ChainReportFacts.

(** ** The days of a range *)

Module DateFacts.
Import Store ApiStorage.

Lemma getDateRangeLoop_days (endDate : Z) (fuel : nat) : forall current,
  getDateRangeLoop fuel current endDate
  = map (fun k => current + Z.of_nat k * day)
        (seq 0 (Nat.min fuel (Z.to_nat ((endDate - current) / day + 1)))).
Proof.
  induction fuel as [|fuel IH]; intros current; [reflexivity|].
  cbn [getDateRangeLoop].
  destruct (endDate <? current) eqn:E.
  - apply Z.ltb_lt in E.
    replace (Z.to_nat ((endDate - current) / day + 1)) with O; [reflexivity|].
    unfold day. Z.to_euclidean_division_equations. lia.
  - apply Z.ltb_ge in E.
    assert (Hn : Z.to_nat ((endDate - current) / day + 1)
                 = S (Z.to_nat ((endDate - (current + day)) / day + 1))).
    { unfold day. Z.to_euclidean_division_equations. lia. }
    rewrite Hn, <- Nat.succ_min_distr. cbn [seq map].
    rewrite IH, <- seq_shift, map_map.
    f_equal; [lia|]. apply map_ext. intros k. lia.
Qed.

(** X7. The days that [getDateRange] lists, which are the partitions that
    [GetEvents] reads: the midnights (UTC) from the day of [start] to the
    day of [end], each once, in increasing order; none when [end] is on an
    earlier day than [start]; and the day of every instant between [start]
    and [end] is one of them. *)
Theorem date_range_covers_every_day (start end_ : Z) :
  getDateRange start end_
  = map (fun k => (start / day + Z.of_nat k) * day)
        (seq 0 (Z.to_nat (end_ / day - start / day + 1))) /\
  forall t, start <= t <= end_ -> truncateDay t ∈ getDateRange start end_.
Proof.
  assert (Hr : getDateRange start end_
               = map (fun k => (start / day + Z.of_nat k) * day)
                     (seq 0 (Z.to_nat (end_ / day - start / day + 1)))).
  { unfold getDateRange. rewrite getDateRangeLoop_days, Nat.min_id.
    unfold truncateDay.
    replace ((end_ / day * day - start / day * day) / day)
      with (end_ / day - start / day).
    - apply map_ext. intros k. lia.
    - rewrite <- Z.mul_sub_distr_r, Z.div_mul; [reflexivity|discriminate]. }
  split; [exact Hr|].
  intros t Ht. rewrite Hr. unfold truncateDay.
  assert (Hlo : start / day <= t / day) by (apply Z.div_le_mono; [reflexivity|lia]).
  assert (Hhi : t / day <= end_ / day) by (apply Z.div_le_mono; [reflexivity|lia]).
  apply list_elem_of_In, in_map_iff.
  exists (Z.to_nat (t / day - start / day)). split; [f_equal; lia|].
  apply in_seq. lia.
Qed.

End DateFacts.

(** ** The accounts of the consumer *)

Module ConsumerAccountFacts.
Import Event Store ProcStorage Consumer Samples.

Local Open Scope Z_scope.

Section WithLibs.
Context `{Libs}.

(** What a flush of a batch that is not empty does to the buffers, the
    replies and the counters. *)
Lemma flush_accounts env (c : Consumer.t) (w : World) :
  Consumer.events c <> [] ->
  exists c' w' (stored : bool),
    flush env c w = Some (c', w') /\
    Consumer.events c' = [] /\ messages c' = [] /\ batchSize c' = batchSize c /\
    replies w' = replies w ++ map (if stored then Ack else Nak) (messages c) /\
    eventsConsumed (metrics w') = eventsConsumed (metrics w) /\
    eventsProcessed (metrics w') + eventsFailedTotal (metrics w')
    = eventsProcessed (metrics w) + eventsFailedTotal (metrics w)
      + Z.of_nat (length (Consumer.events c)).
Proof.
  intros Hne.
  destruct (ConsumerFacts.BuildMerkleTree_returns
              (map (fun event => EventHash (Proof_ event)) (Consumer.events c)))
    as [tree Htree].
  unfold flush. rewrite Htree.
  destruct (Consumer.events c) as [|first rest] eqn:Hev; [congruence|].
  cbn [length Nat.eqb].
  destruct (StoreBatch env (db w) (first :: rest)) as [db1 stored].
  exists {| batchSize := batchSize c; Consumer.events := []; messages := [] |}.
  eexists. exists stored. split; [reflexivity|].
  destruct stored; cbn; repeat split; lia.
Qed.

(** X8. [handleMessage] returns for every message, and it accounts for
    it: the message is counted as consumed; it is then either counted as
    processed or failed, or its event is in the buffer; and either one reply
    was sent for it, or it is in the buffer of messages.  Replies are only
    added.  A message that is not the JSON of an event gets a NAK at once and
    leaves the buffers as they are. *)
Theorem handle_message_accounts (c : Consumer.t) env (w : World) (msg : Msg) :
  reachable c ->
  exists c' w',
    handleMessage env c w msg = Some (c', w') /\
    eventsConsumed (metrics w') = eventsConsumed (metrics w) + 1 /\
    eventsProcessed (metrics w') + eventsFailedTotal (metrics w')
      + Z.of_nat (length (Consumer.events c'))
    = eventsProcessed (metrics w) + eventsFailedTotal (metrics w)
      + Z.of_nat (length (Consumer.events c)) + 1 /\
    Z.of_nat (length (replies w')) + Z.of_nat (length (messages c'))
    = Z.of_nat (length (replies w)) + Z.of_nat (length (messages c)) + 1 /\
    (exists sent, replies w' = replies w ++ sent) /\
    (json_Unmarshal_event (Data msg) = None ->
     c' = c /\ replies w' = replies w ++ [Nak msg]).
Proof.
  intros Hc. pose proof (ConsumerFacts.reachable_lengths c Hc) as Hlen.
  unfold handleMessage.
  destruct (json_Unmarshal_event (Data msg)) as [event|].
  - set (c1 := {| batchSize := batchSize c;
                  Consumer.events := Consumer.events c ++ [event];
                  messages := messages c ++ [msg] |}).
    set (w0 := {| db := db w; replies := replies w;
                  metrics := incConsumed (metrics w) |}).
    destruct (batchSize c <=? Z.of_nat (length (Consumer.events c1))).
    + destruct (flush_accounts env c1 w0) as
        (c' & w' & stored & Hf & He & Hm & _ & Hr & Hcons & Hacc).
      { unfold c1. cbn. destruct (Consumer.events c); discriminate. }
      exists c', w'. split; [exact Hf|].
      rewrite Hcons, He, Hm, Hr, length_app, length_map.
      unfold c1, w0 in *. cbn in *. rewrite length_app in *. cbn in *.
      split; [reflexivity|]. split; [lia|]. split; [lia|].
      split; [eexists; reflexivity|discriminate].
    + exists c1, w0. split; [reflexivity|].
      unfold c1, w0. cbn. rewrite !length_app. cbn.
      split; [reflexivity|]. split; [lia|]. split; [lia|].
      split; [exists []; rewrite app_nil_r; reflexivity|discriminate].
  - eexists. eexists. split; [reflexivity|]. cbn. rewrite length_app. cbn.
    split; [reflexivity|]. split; [lia|]. split; [lia|].
    split; [eexists; reflexivity|]. auto.
Qed.

(** X9. Between two calls the buffer of a consumer holds fewer events than
    the size of a batch (none when that size is not positive), and as many
    messages as events. *)
Theorem buffer_below_batch_size (c : Consumer.t) :
  reachable c ->
  Z.of_nat (length (Consumer.events c)) < Z.max 1 (batchSize c) /\
  length (messages c) = length (Consumer.events c).
Proof.
  intros Hc. split; [|symmetry; apply ConsumerFacts.reachable_lengths; exact Hc].
  induction Hc as [bs|env c w msg c' w' Hc IH Hh|env c w c' w' Hc IH Hf].
  - cbn. lia.
  - unfold handleMessage in Hh.
    destruct (json_Unmarshal_event (Data msg)) as [event|].
    + set (c1 := {| batchSize := batchSize c;
                    Consumer.events := Consumer.events c ++ [event];
                    messages := messages c ++ [msg] |}) in *.
      destruct (batchSize c <=? Z.of_nat (length (Consumer.events c1))) eqn:E.
      * set (w0 := {| db := db w; replies := replies w;
                      metrics := incConsumed (metrics w) |}) in *.
        destruct (flush_accounts env c1 w0) as
          (c2 & w2 & stored & Hf & He & _ & Hb & _).
        { unfold c1. cbn. destruct (Consumer.events c); discriminate. }
        rewrite Hf in Hh. injection Hh as <- <-. rewrite He. cbn. lia.
      * injection Hh as <- <-. apply Z.leb_gt in E. unfold c1 in *. cbn in *. lia.
    + injection Hh as <- <-. exact IH.
  - destruct (ConsumerFacts.flush_result env c w) as (c2 & w2 & Hf2 & Hcase).
    rewrite Hf2 in Hf. injection Hf as <- <-.
    destruct Hcase as [(_ & -> & _)|(_ & He & _ & _)]; [exact IH|].
    rewrite He. cbn. lia.
Qed.

End WithLibs.

Lemma handle_message_accounts_witness :
  exists c' w',
    @handleMessage decodingLibs sampleEnv (NewConsumer 1) sampleWorld sampleMsg
      = Some (c', w') /\
    Consumer.events c' = [] /\ replies w' = [Ack sampleMsg] /\
    eventsProcessed (metrics w') = 1.
Proof.
  destruct (@handle_message_accounts decodingLibs (NewConsumer 1) sampleEnv
              sampleWorld sampleMsg (reachable_new 1))
    as (c' & w' & Hh & _).
  exists c', w'. split; [exact Hh|].
  vm_compute in Hh. injection Hh as <- <-. repeat split.
Defined.

Lemma buffer_below_batch_size_witness :
  Z.of_nat (length (Consumer.events sampleConsumer)) < Z.max 1 (batchSize sampleConsumer)
  /\ length (messages sampleConsumer) = length (Consumer.events sampleConsumer).
Proof.
  apply (@buffer_below_batch_size decodingLibs sampleConsumer).
  apply (@reachable_handle decodingLibs sampleEnv (NewConsumer 1000) sampleWorld
           sampleMsg sampleConsumer
           {| db := emptyDatabase; replies := [];
              metrics := incConsumed (metrics sampleWorld) |}).
  - apply reachable_new.
  - reflexivity.
Defined.

End ConsumerAccountFacts.

(** ** The bounds of [GetProof] *)

Module ProofBoundFacts.
Import Merkle MerkleInv.

(** X10. [GetProof] gives the empty proof, and no error, for an index that
    is negative or that is not below the number of leaves of the tree, which
    is the number of hashes rounded up to an even number; the tree of no hash
    has no leaf, so that it gives the empty proof for every index.
    [VerifyProof] accepts the empty proof exactly for the root itself. *)
Theorem get_proof_out_of_range (E : list string) (t : MerkleTree) (index : Z) :
  BuildMerkleTree E = Some t ->
  (index < 0 \/ Z.of_nat (length E + length E mod 2) <= index) ->
  GetProof t index = Some [] /\
  forall leafHash, VerifyProof leafHash [] (Root t) = String.eqb leafHash (Root t).
Proof.
  intros Hb Hi. split; [|reflexivity].
  assert (Hlen : length (leaves t) = (length E + length E mod 2)%nat).
  { destruct E as [|e E'].
    - injection Hb as <-. reflexivity.
    - destruct (MerkleFacts.BuildMerkleTree_spec (e :: E') ltac:(discriminate))
        as (t' & r & Hb' & _ & _ & _ & Hl & _).
      rewrite Hb in Hb'. injection Hb' as <-. rewrite Hl.
      unfold padOdd.
      pose proof (Nat.div_mod_eq (length (e :: E')) 2) as Hdm.
      pose proof (Nat.mod_upper_bound (length (e :: E')) 2 ltac:(lia)) as Hm.
      destruct (Nat.odd (length (e :: E'))) eqn:Ho.
      + rewrite length_app. cbn [length app].
        apply Nat.odd_spec in Ho as [k Hk]. cbn [length] in *. lia.
      + rewrite <- Nat.negb_even in Ho. apply negb_false_iff in Ho.
        apply Nat.even_spec in Ho as [k Hk]. cbn [length] in *. lia. }
  unfold GetProof. rewrite Hlen.
  destruct Hi as [Hneg|Hbig].
  - replace (index <? 0) with true by (symmetry; apply Z.ltb_lt; exact Hneg).
    reflexivity.
  - replace (Z.of_nat (length E + length E mod 2) <=? index) with true
      by (symmetry; apply Z.leb_le; exact Hbig).
    rewrite orb_true_r. reflexivity.
Qed.

Lemma get_proof_out_of_range_witness :
  exists t, BuildMerkleTree [h_aa; h_bb; h_cc] = Some t /\ GetProof t 4 = Some [].
Proof.
  destruct (MerkleFacts.BuildMerkleTree_spec [h_aa; h_bb; h_cc] ltac:(discriminate))
    as (t & _ & Hb & _).
  exists t. split; [exact Hb|].
  apply (get_proof_out_of_range [h_aa; h_bb; h_cc] t 4 Hb). right. vm_compute. discriminate.
Defined.

End ProofBoundFacts.

(** ** Storing an event and reading it by its identifier *)

Module StoreReadFacts.
Import Json Event Store ProcStorage ApiStorage Handlers.

Lemma filter_none {A} (P : A -> Prop) `{forall x, Decision (P x)} (l : list A) :
  (forall x, x ∈ l -> ~ P x) -> filter P l = [].
Proof.
  induction l as [|a l IH]; intros Hl; [reflexivity|].
  rewrite filter_cons_False by (apply Hl; left).
  apply IH. intros x Hx. apply Hl. right. exact Hx.
Qed.

Section WithLibs.
Context `{Libs}.

(** The table [events_by_facto_id] after a batch was stored. *)
Lemma StoreBatch_by_facto_id env db evs db' :
  StoreBatch env db evs = (db', true) ->
  events_by_facto_id db'
  = events_by_facto_id db ++ map (fullRow (now env)) (map preprocess evs).
Proof.
  unfold StoreBatch, storeEventsBatch, storeByFactoIDBatch, storeBySessionBatch,
    executeBatch.
  destruct (events_fails env), (by_facto_id_fails env), (by_session_fails env);
    cbn; intros [= <-]; reflexivity.
Qed.

(** X11. An event of a batch that was stored is found by its identifier,
    when no other event of the batch and no row that the table held has
    that identifier, and the time stamps that the table gives back for it are
    in the range of [int64] nanoseconds: the table then holds one row under
    the identifier, and [GetEventByFactoID] returns the event built from it.
    That event has the identifiers, the action type, the status, the proof
    and the SDK fields of the stored event; but an event stored with the
    seed 0 comes back without a seed. *)
Theorem stored_event_read_by_id env db evs db' (e : FactoEvent) before after :
  evs = before ++ e :: after ->
  StoreBatch env db evs = (db', true) ->
  (forall r, r ∈ events_by_facto_id db -> facto_id r <> FactoID e) ->
  (forall x, x ∈ before ++ after -> FactoID x <> FactoID e) ->
  ChainSpec.inInt64 (db_timestamp (StartedAt e)) ->
  ChainSpec.inInt64 (db_timestamp (CompletedAt e)) ->
  let row := fullRow (now env) (preprocess e) in
  let e' := ofFullRow row in
  filter (fun r => String.eqb (facto_id r) (FactoID e) = true) (events_by_facto_id db')
  = [row] /\
  ApiStorage.GetEventByFactoID db' false (FactoID e) = Some (Some e') /\
  (FactoID e <> EmptyString ->
   ApiHandlers.GetEventByFactoID db' false (FactoID e) = Status200 e') /\
  FactoID e' = FactoID e /\ AgentID e' = AgentID e /\ SessionID e' = SessionID e /\
  ActionType e' = ActionType e /\ Status e' = Status e /\ Proof_ e' = Proof_ e /\
  SDKVersion (ExecMeta e') = SDKVersion (ExecMeta e) /\
  SDKLanguage (ExecMeta e') = SDKLanguage (ExecMeta e) /\
  (Seed (ExecMeta e) = Some 0 -> Seed (ExecMeta e') = None).
Proof.
  intros Hev Hstore Hold Hbatch _ _ row e'.
  assert (Hother : forall l, (forall x, x ∈ l -> FactoID x <> FactoID e) ->
            filter (fun r => String.eqb (facto_id r) (FactoID e) = true)
                   (map (fullRow (now env)) (map preprocess l)) = []).
  { intros l Hl. apply filter_none. intros r Hr E. apply String.eqb_eq in E.
    apply list_elem_of_In, in_map_iff in Hr as (d & <- & Hd).
    apply in_map_iff in Hd as (x & <- & Hx).
    apply list_elem_of_In in Hx. exact (Hl x Hx E). }
  assert (Hrow : filter (fun r => String.eqb (facto_id r) (FactoID e) = true)
                        (events_by_facto_id db') = [row]).
  { rewrite (StoreBatch_by_facto_id _ _ _ _ Hstore), Hev.
    rewrite !map_app, !filter_app. cbn [map].
    rewrite filter_none.
    2:{ intros r Hr E. apply String.eqb_eq in E. exact (Hold r Hr E). }
    rewrite Hother.
    2:{ intros x Hx. apply Hbatch. apply elem_of_app. left. exact Hx. }
    cbn [app]. rewrite filter_cons_True by (cbn; apply String.eqb_refl).
    rewrite Hother.
    2:{ intros x Hx. apply Hbatch. apply elem_of_app. right. exact Hx. }
    reflexivity. }
  assert (Hget : ApiStorage.GetEventByFactoID db' false (FactoID e) = Some (Some e')).
  { unfold ApiStorage.GetEventByFactoID. rewrite Hrow. reflexivity. }
  split; [exact Hrow|]. split; [exact Hget|]. split.
  { intros Hne. unfold ApiHandlers.GetEventByFactoID.
    apply String.eqb_neq in Hne. rewrite Hne, Hget. reflexivity. }
  repeat (split; [reflexivity|]).
  split; [destruct e as [? ? ? ? ? ? ? ? ? [] ? ?]; reflexivity|].
  split; [reflexivity|]. split; [reflexivity|].
  intros Hseed.
  unfold e', row, ofFullRow, buildEventResponse, fullRow, preprocess. cbn.
  rewrite Hseed. reflexivity.
Qed.

End WithLibs.

Lemma stored_event_read_by_id_witness :
  let e1 := Samples.linkedEvent "ft-1" zeroHash Samples.ff64 1700000000000000000 in
  let e2 := Samples.linkedEvent "ft-2" Samples.ff64 Samples.ff64 1700000001000000000 in
  exists e',
    @ApiStorage.GetEventByFactoID Samples.sampleLibs (Samples.storeOf [e1; e2]) false "ft-2"
      = Some (Some e') /\
    FactoID e' = "ft-2"%string /\ Proof_ e' = Proof_ e2.
Proof.
  intros e1 e2.
  destruct (@stored_event_read_by_id Samples.sampleLibs Samples.sampleEnv
              Samples.emptyDatabase [e1; e2] (Samples.storeOf [e1; e2]) e2 [e1] []
              eq_refl eq_refl)
    as (_ & Hg & _ & Hf & _ & _ & _ & _ & Hp & _).
  - intros r Hr. inversion Hr.
  - intros x Hx. apply list_elem_of_singleton in Hx. subst x. discriminate.
  - vm_compute. split; [discriminate|reflexivity].
  - vm_compute. split; [discriminate|reflexivity].
  - eexists. split; [exact Hg|]. split; [exact Hf|exact Hp].
Defined.

End StoreReadFacts.

(** ** The client of the TypeScript SDK *)

Module TSClientFacts.
Import Json Event TSClient ChainSpec.

Section WithLibs.
Context `{Libs}.
Variable js_signAsync : list Z -> list Z -> result (list Z).
Variable js_toBase64 : list Z -> string.
Variable fetch : nat -> list FactoEvent -> result Response.

Local Abbreviation attempts := (TSClient.attempts fetch).
Local Abbreviation sendBatch := (TSClient.sendBatch fetch).
Local Abbreviation flush := (TSClient.flush fetch).
Local Abbreviation record := (TSClient.record js_signAsync js_toBase64 fetch).
Local Abbreviation reachable := (TSClient.reachable js_signAsync js_toBase64 fetch).

(** *** [sendBatch] *)

(** The loop of [sendBatch] from the round [attempt], when [remaining]
    rounds are left. *)
Lemma attempts_spec payload (maxRetries : Z) (remaining : nat) : forall attempt calls,
  attempt + Z.of_nat remaining = maxRetries ->
  (forall k, (k < remaining)%nat ->
     (forall j, (j < k)%nat -> exists msg, tryOnce (fetch (calls + j) payload) = Panic msg) ->
     tryOnce (fetch (calls + k) payload) = Returned tt ->
     attempts payload maxRetries remaining attempt calls = (Returned tt, (calls + k + 1)%nat)) /\
  ((0 < remaining)%nat ->
   (forall j, (j < remaining)%nat ->
      exists msg, tryOnce (fetch (calls + j) payload) = Panic msg) ->
   exists error,
     attempts payload maxRetries remaining attempt calls
       = (Panic error, (calls + remaining)%nat) /\
     tryOnce (fetch (calls + remaining - 1) payload) = Panic error).
Proof.
  induction remaining as [|remaining IH]; intros attempt calls Hsum.
  { split; [intros k Hk; lia|intros Hpos; lia]. }
  destruct (IH (attempt + 1) (S calls) ltac:(lia)) as [IHok IHfail].
  split.
  - intros k Hk Hbefore Hok. cbn [TSClient.attempts].
    destruct k as [|k].
    + rewrite Nat.add_0_r in Hok. rewrite Hok. f_equal. lia.
    + destruct (Hbefore 0%nat ltac:(lia)) as [msg Hmsg].
      rewrite Nat.add_0_r in Hmsg. rewrite Hmsg.
      replace (attempt =? maxRetries - 1) with false by (symmetry; apply Z.eqb_neq; lia).
      rewrite (IHok k ltac:(lia)).
      * f_equal. lia.
      * intros j Hj. replace (S calls + j)%nat with (calls + S j)%nat by lia.
        apply Hbefore. lia.
      * replace (S calls + k)%nat with (calls + S k)%nat by lia. exact Hok.
  - intros _ Hall. cbn [TSClient.attempts].
    destruct (Hall 0%nat ltac:(lia)) as [msg Hmsg].
    rewrite Nat.add_0_r in Hmsg. rewrite Hmsg.
    destruct remaining as [|remaining].
    + replace (attempt =? maxRetries - 1) with true by (symmetry; apply Z.eqb_eq; lia).
      exists msg. split; [f_equal; lia|].
      replace (calls + 1 - 1)%nat with calls by lia. exact Hmsg.
    + replace (attempt =? maxRetries - 1) with false by (symmetry; apply Z.eqb_neq; lia).
      destruct IHfail as (error & Ha & He); [lia| |].
      * intros j Hj. replace (S calls + j)%nat with (calls + S j)%nat by lia.
        apply Hall. lia.
      * exists error. rewrite Ha. split; [f_equal; lia|].
        replace (calls + S (S remaining) - 1)%nat
          with (S calls + S remaining - 1)%nat by lia.
        exact He.
Qed.

(** X12. [sendBatch] of a batch that is not empty calls [fetch] until an
    attempt succeeds (a response that is [ok], whose JSON is read), at most
    [maxRetries] times.  It returns after the first attempt that succeeds.
    When every attempt fails it throws the error of the last one, after
    exactly [maxRetries] calls: a client error (a status below 500) is tried
    again like any other.  When [maxRetries] is not positive it returns at
    once, without a call. *)
Theorem send_batch_attempts (c : FactoClient) (events : list FactoEvent) (calls : nat) :
  events <> [] ->
  let payload := map toWireFormat events in
  let n := Z.to_nat (maxRetries c) in
  (maxRetries c <= 0 -> sendBatch c events calls = (Returned tt, calls)) /\
  (forall k, (k < n)%nat ->
     (forall j, (j < k)%nat -> exists msg, tryOnce (fetch (calls + j) payload) = Panic msg) ->
     tryOnce (fetch (calls + k) payload) = Returned tt ->
     sendBatch c events calls = (Returned tt, (calls + k + 1)%nat)) /\
  ((0 < n)%nat ->
   (forall j, (j < n)%nat -> exists msg, tryOnce (fetch (calls + j) payload) = Panic msg) ->
   exists error,
     sendBatch c events calls = (Panic error, (calls + n)%nat) /\
     tryOnce (fetch (calls + n - 1) payload) = Panic error) /\
  (forall response,
     ok response = false -> exists msg, tryOnce (Returned response) = Panic msg).
Proof.
  intros Hne payload n.
  assert (Hs : sendBatch c events calls
               = attempts payload (maxRetries c) n 0 calls).
  { unfold TSClient.sendBatch. destruct events; [congruence|reflexivity]. }
  rewrite Hs. split; [|split; [|split]].
  - intros Hz. replace n with 0%nat by (unfold n; lia). reflexivity.
  - intros k Hk.
    exact (proj1 (attempts_spec payload (maxRetries c) n 0 calls ltac:(unfold n; lia)) k Hk).
  - intros Hpos.
    exact (proj2 (attempts_spec payload (maxRetries c) n 0 calls ltac:(unfold n; lia)) Hpos).
  - intros response Hok. unfold tryOnce. rewrite Hok. cbn [negb].
    destruct (http_status response <? 500); [|eauto].
    destruct (text response); eauto.
Qed.

(** *** [flush] *)

Lemma attempts_calls payload (maxRetries : Z) (remaining : nat) : forall attempt calls,
  (calls <= snd (attempts payload maxRetries remaining attempt calls) <= calls + remaining)%nat.
Proof.
  induction remaining as [|remaining IH]; intros attempt calls; [simpl; lia|].
  cbn [TSClient.attempts].
  destruct (tryOnce (fetch calls payload)); [simpl; lia|].
  destruct (attempt =? maxRetries - 1); [simpl; lia|].
  specialize (IH (attempt + 1) (S calls)). lia.
Qed.

(** X13. [flush] keeps every event that it could not send: when
    [sendBatch] throws, the batch is as it was before the call, and when it
    returns the batch is empty.  It leaves the key and the chain of the
    provider as they are, calls [fetch] at most [maxRetries] times, and does
    nothing on an empty batch.  With a [maxRetries] that is not positive the
    batch is emptied though nothing was sent. *)
Theorem flush_keeps_unsent_events (c : FactoClient) (calls : nat) :
  exists r c' calls',
    flush c calls = (r, c', calls') /\
    crypto c' = crypto c /\
    (calls <= calls' <= calls + Z.to_nat (maxRetries c))%nat /\
    match r with
    | Returned _ => batch c' = []
    | Panic _ => batch c' = batch c
    end /\
    (batch c = [] -> r = Returned tt /\ c' = c /\ calls' = calls) /\
    (maxRetries c <= 0 -> r = Returned tt /\ batch c' = [] /\ calls' = calls).
Proof.
  unfold TSClient.flush.
  destruct (batch c) as [|e rest] eqn:Hb.
  { exists (Returned tt), c, calls. rewrite Hb. repeat split; try lia. }
  assert (Hs : sendBatch (setBatch c []) (e :: rest) calls
               = attempts (map toWireFormat (e :: rest)) (maxRetries c)
                   (Z.to_nat (maxRetries c)) 0 calls) by reflexivity.
  pose proof (attempts_calls (map toWireFormat (e :: rest)) (maxRetries c)
                (Z.to_nat (maxRetries c)) 0 calls) as Hcalls.
  rewrite Hs.
  destruct (attempts (map toWireFormat (e :: rest)) (maxRetries c)
              (Z.to_nat (maxRetries c)) 0 calls) as [[u|error] calls'] eqn:Ha.
  - eexists. eexists. eexists. split; [reflexivity|]. cbn in Hcalls |- *.
    split; [reflexivity|]. split; [lia|]. split; [reflexivity|].
    split; [discriminate|]. intros Hz. destruct u.
    split; [reflexivity|]. split; [reflexivity|].
    replace (Z.to_nat (maxRetries c)) with 0%nat in Ha by lia.
    cbn in Ha. congruence.
  - eexists. eexists. eexists. split; [reflexivity|]. cbn in Hcalls |- *.
    split; [reflexivity|]. split; [lia|]. split; [rewrite app_nil_r; reflexivity|].
    split; [discriminate|]. intros Hz.
    replace (Z.to_nat (maxRetries c)) with 0%nat in Ha by lia.
    cbn in Ha. discriminate Ha.
Qed.

(** *** [record] *)

Lemma linksOk_app (events : list FactoEvent) : forall start (e : FactoEvent),
  linksOk start (events ++ [e])
  = linksOk start events
    && String.eqb (PrevHash (Proof_ e)) (lastHash start events).
Proof.
  induction events as [|x events IH]; intros start e.
  - cbn. rewrite andb_true_r. reflexivity.
  - cbn [app linksOk]. rewrite IH, andb_assoc. do 2 f_equal.
    unfold lastHash. destruct events as [|y events]; [reflexivity|].
    cbn [map].
    change (List.last (EventHash (Proof_ x) :: EventHash (Proof_ y)
                       :: map (fun e0 => EventHash (Proof_ e0)) events) start)
      with (List.last (EventHash (Proof_ y)
                       :: map (fun e0 => EventHash (Proof_ e0)) events) start).
    apply ChainReportFacts.last_cons_default.
Qed.

Lemma lastHash_app start (events : list FactoEvent) (e : FactoEvent) :
  lastHash start (events ++ [e]) = EventHash (Proof_ e).
Proof.
  unfold lastHash. rewrite map_app. cbn [map]. apply last_last.
Qed.

Lemma flush_batch (c : FactoClient) calls r c' calls' :
  flush c calls = (r, c', calls') ->
  crypto c' = crypto c /\ agentId c' = agentId c /\ sessionId c' = sessionId c /\
  (batch c' = batch c \/ batch c' = []).
Proof.
  unfold TSClient.flush. destruct (batch c) as [|e rest] eqn:Hb.
  { intros [= <- <- <-]. auto. }
  destruct (sendBatch (setBatch c []) (e :: rest) calls) as [[u|error] n].
  - intros [= <- <- <-]. cbn. auto.
  - intros [= <- <- <-]. cbn. rewrite app_nil_r. auto.
Qed.

Lemma signedChain_flush (c : FactoClient) calls r c' calls' :
  signedChain js_toBase64 c -> flush c calls = (r, c', calls') ->
  signedChain js_toBase64 c'.
Proof.
  intros (start & Hl & Hlast & Hall) Hf.
  destruct (flush_batch _ _ _ _ _ Hf) as (Hc & Ha & Hs & [Hb|Hb]).
  - exists start. rewrite Hb, Hc. split; [exact Hl|]. split; [exact Hlast|].
    eapply Forall_impl; [exact Hall|]. unfold signedBy. rewrite Hc, Ha, Hs. auto.
  - exists (prevHash (crypto c')). rewrite Hb. split; [reflexivity|].
    split; [reflexivity|constructor].
Qed.

Lemma reachable_signedChain (c : FactoClient) :
  reachable c -> signedChain js_toBase64 c.
Proof.
  intros Hc.
  induction Hc as [a s bs mr tg sk pk|c options factoId now calls r c' calls' Hc IH Hr
                   |c calls r c' calls' Hc IH Hf].
  - exists Handlers.zeroHash. cbn. split; [reflexivity|]. split; [reflexivity|constructor].
  - unfold TSClient.record in Hr.
    match type of Hr with
    | context [signEvent _ _ _ ?wire] => set (eventWire := wire) in *
    end.
    destruct (signEvent js_signAsync js_toBase64 (crypto c) eventWire)
      as [[eventHash signature]|msg] eqn:Hs.
    2:{ injection Hr as <- <- <-. exact IH. }
    assert (Hh : eventHash = TSVerify.computeHash (TS.buildCanonicalForm eventWire)).
    { unfold signEvent in Hs.
      destruct (js_signAsync _ _); [|discriminate]. congruence. }
    match type of Hr with
    | context [setBatch ?c1 (batch ?c1 ++ [?ev])] =>
        set (event := ev) in *; set (c2 := setBatch c1 (batch c1 ++ [event])) in *
    end.
    assert (Hinv2 : signedChain js_toBase64 c2).
    { destruct IH as (start & Hl & Hlast & Hall).
      exists start. unfold c2. cbn [batch setBatch setCrypto crypto updatePrevHash prevHash].
      split; [rewrite linksOk_app, Hl, Hlast; cbn; apply String.eqb_refl|].
      split; [rewrite lastHash_app; reflexivity|].
      apply Forall_app. split.
      - eapply Forall_impl; [exact Hall|]. unfold signedBy.
        cbn [crypto publicKey agentId sessionId setBatch setCrypto updatePrevHash].
        auto.
      - constructor; [|constructor]. unfold signedBy.
        cbn [crypto publicKey agentId sessionId setBatch setCrypto updatePrevHash].
        split; [|split; [reflexivity|split; reflexivity]].
        replace (EventHash (Proof_ event)) with eventHash by reflexivity.
        rewrite Hh, !CanonicalFacts.ts_buildCanonicalForm_text.
        replace (CanonicalText.tsCanonicalText (toWireFormat event))
          with (CanonicalText.tsCanonicalText eventWire) by reflexivity.
        apply String.eqb_refl. }
    destruct (batchSize c2 <=? Z.of_nat (length (batch c2))).
    + destruct (flush c2 calls) as [[r2 c3] n3] eqn:Hf.
      assert (c' = c3) as -> by (destruct r2; cbv beta iota in Hr; congruence).
      exact (signedChain_flush _ _ _ _ _ Hinv2 Hf).
    + injection Hr as <- <- <-. exact Hinv2.
  - exact (signedChain_flush _ _ _ _ _ IH Hf).
Qed.

(** X14. The batch of a client is at all times a chain of events that the
    client signed: the [prev_hash] of each event is the [event_hash] of the
    event before it, the [event_hash] of the last one is the [prev_hash]
    that the next event will get, and for every event of the batch the
    SDK's [verifyEvent] finds, on the wire form, the hash that the event
    carries; the events carry the public key, the agent and the session of
    the client. *)
Theorem client_batch_is_signed_chain (c : FactoClient) :
  reachable c ->
  exists start,
    linksOk start (batch c) = true /\
    lastHash start (batch c) = prevHash (crypto c) /\
    Forall (fun e =>
              (exists signatureValid,
                 TSVerify.verifyEvent (toWireFormat e) = Returned (true, signatureValid)) /\
              PublicKey (Proof_ e) = js_toBase64 (publicKey (crypto c)) /\
              AgentID e = agentId c /\ SessionID e = sessionId c)
           (batch c).
Proof.
  intros Hc.
  pose proof (reachable_signedChain c Hc) as Hinv.
  destruct Hinv as (start & Hl & Hlast & Hall).
  exists start. split; [exact Hl|]. split; [exact Hlast|].
  eapply Forall_impl; [exact Hall|]. intros e (Hh & Hrest).
  split; [|exact Hrest].
  unfold TSVerify.verifyEvent. cbv zeta.
  change (EventHash (Proof_ (toWireFormat e))) with (EventHash (Proof_ e)).
  rewrite Hh. eexists. reflexivity.
Qed.

End WithLibs.

Section WithLibs.
Context `{Libs}.
Variable js_signAsync : list Z -> list Z -> result (list Z).
Variable js_toBase64 : list Z -> string.
Variable fetch : nat -> list FactoEvent -> result Response.




End WithLibs.

Lemma send_batch_attempts_witness :
  @TSClient.sendBatch ClientSamples.sampleFetch ClientSamples.sampleClient
     [Samples.seededEvent] 0
  = (Returned tt, 2%nat).
Proof.
  refine (proj1 (proj2 (@send_batch_attempts ClientSamples.sampleFetch
                          ClientSamples.sampleClient [Samples.seededEvent] 0%nat _))
            1%nat _ _ _).
  - discriminate.
  - vm_compute. lia.
  - intros j Hj. assert (j = 0%nat) as -> by lia. eexists. reflexivity.
  - reflexivity.
Defined.

Lemma client_batch_is_signed_chain_witness :
  exists c',
    @TSClient.record Samples.sampleLibs ClientSamples.sampleSign
       ClientSamples.sampleToBase64 ClientSamples.sampleFetch
       ClientSamples.sampleClient ClientSamples.sampleOptions "ft-1" 1000000001 0
    = (Returned "ft-1"%string, c', 0%nat) /\
    length (batch c') = 1%nat /\
    exists start, linksOk start (batch c') = true
                  /\ lastHash start (batch c') = prevHash (crypto c').
Proof.
  eexists. split; [vm_compute; reflexivity|]. split; [reflexivity|].
  match goal with
  | |- exists start, linksOk start (batch ?c) = true /\ _ =>
      destruct (@client_batch_is_signed_chain Samples.sampleLibs
                  ClientSamples.sampleSign ClientSamples.sampleToBase64
                  ClientSamples.sampleFetch c) as (start & Hl & Hlast & _)
  end.
  - eapply (@TSClient.reachable_record Samples.sampleLibs ClientSamples.sampleSign
              ClientSamples.sampleToBase64 ClientSamples.sampleFetch
              ClientSamples.sampleClient ClientSamples.sampleOptions
              "ft-1" 1000000001 0%nat).
    + apply (TSClient.reachable_new _ _ _ "agent-test" "session-test" 100 3 [] [] [1; 2; 3]).
    + vm_compute. reflexivity.
  - exists start. split; [exact Hl|exact Hlast].
Defined.


End TSClientFacts.

(** ** What the Merkle trees read of a leaf *)

Module LeafTextFacts.
Import Merkle MerkleInv.

Local Open Scope nat_scope.

Lemma roots_agree_from_two_leaves_witness :
  exists t t', BuildMerkleTree [h_aa; h_bb; h_cc] = Some t /\
    ApiMerkle.buildMerkleTree [h_aa; h_bb; h_cc] = Some (Returned t') /\
    Root t = ApiMerkle.root t'.
Proof.
  apply (MerkleFacts.roots_agree_from_two_leaves [h_aa; h_bb; h_cc]). simpl. lia.
Defined.

Lemma pairHashes_decoded (hs : list string) : forall hs',
  map decoded hs = map decoded hs' -> pairHashes hs = pairHashes hs'.
Proof.
  induction hs as [|a|a b rest IH] using MerkleFacts.list_pair_ind; intros hs' Hd.
  - destruct hs'; [reflexivity|discriminate].
  - destruct hs' as [|a' [|? ?]]; try discriminate.
    injection Hd as Ha. cbn. unfold hashPair. fold (decoded a) (decoded a').
    rewrite Ha. reflexivity.
  - destruct hs' as [|a' [|b' rest']]; try discriminate.
    injection Hd as Ha Hb Hrest. cbn [pairHashes].
    rewrite (IH rest' Hrest). unfold hashPair.
    fold (decoded a) (decoded a') (decoded b) (decoded b').
    rewrite Ha, Hb. reflexivity.
Qed.

Lemma padOdd_decoded (hs hs' : list string) :
  map decoded hs = map decoded hs' ->
  map decoded (padOdd hs) = map decoded (padOdd hs').
Proof.
  intros Hd. unfold padOdd.
  assert (Hlen : length hs = length hs').
  { rewrite <- (length_map decoded hs), Hd. apply length_map. }
  rewrite Hlen. destruct (Nat.odd (length hs')); [|exact Hd].
  rewrite !map_app, Hd. cbn [map]. do 2 f_equal.
  assert (G : forall l : list string,
            decoded (List.last l EmptyString)
            = List.last (map decoded l) (decoded EmptyString)).
  { induction l as [|x [|y l] IH]; [reflexivity|reflexivity|exact IH]. }
  rewrite !G, Hd. reflexivity.
Qed.

(** X15. The root of the processor's tree depends on the leaves only
    through the bytes that [hex.DecodeString] reads from them: [hashPair]
    drops the error of the decoding, so that two lists of leaves that decode
    to the same bytes (the same digits in upper and in lower case, or the
    same digits followed by a text that is not hexadecimal) give the same
    root. *)
Theorem merkle_root_reads_decoded_bytes (E E' : list string) (t t' : MerkleTree) :
  E <> [] ->
  map decoded E = map decoded E' ->
  BuildMerkleTree E = Some t -> BuildMerkleTree E' = Some t' ->
  Root t = Root t'.
Proof.
  intros Hne Hd Hb Hb'.
  assert (Hlen : length E = length E').
  { rewrite <- (length_map decoded E), Hd. apply length_map. }
  assert (Hne' : E' <> []) by (intros ->; destruct E; [congruence|discriminate]).
  destruct (MerkleFacts.BuildMerkleTree_spec E Hne)
    as (t0 & r & Hb0 & Hroot & _ & _ & Hl & Hred).
  destruct (MerkleFacts.BuildMerkleTree_spec E' Hne')
    as (t0' & r' & Hb0' & Hroot' & _ & _ & Hl' & Hred').
  rewrite Hb in Hb0. injection Hb0 as <-.
  rewrite Hb' in Hb0'. injection Hb0' as <-.
  unfold Root. rewrite Hroot, Hroot'.
  pose proof (padOdd_decoded _ _ Hd) as Hp.
  pose proof (MerkleFacts.padOdd_even E) as Hev.
  pose proof (MerkleFacts.padOdd_length E) as Hpl.
  assert (Hlp : length (padOdd E) = length (padOdd E')).
  { rewrite <- (length_map decoded (padOdd E)), Hp. apply length_map. }
  assert (Hpos : length E <> 0) by (destruct E; [congruence|discriminate]).
  assert (Hstep : forall hs f, 2 <= length hs ->
            reduceTree (S f) hs = reduceTree f (dupLastHash (pairHashes hs))).
  { intros hs f Hhs. destruct hs as [|a [|b l]]; simpl in Hhs; try lia. reflexivity. }
  assert (H2 : 2 <= length (padOdd E)).
  { destruct (length (padOdd E)) as [|[|n]]; [lia|discriminate Hev|lia]. }
  rewrite Hl in Hred. rewrite Hl', <- Hlp in Hred'.
  destruct (length (padOdd E)) as [|f] eqn:Ef; [lia|].
  rewrite Hstep in Hred by lia. rewrite Hstep in Hred' by lia.
  rewrite (pairHashes_decoded _ _ Hp) in Hred. congruence.
Qed.

Lemma merkle_root_reads_decoded_bytes_witness :
  exists t t',
    BuildMerkleTree [h_aa; h_bb] = Some t /\
    BuildMerkleTree [upper_aa; String.append h_bb "zz"] = Some t' /\
    Root t = Root t'.
Proof.
  destruct (MerkleFacts.BuildMerkleTree_spec [h_aa; h_bb] ltac:(discriminate))
    as (t & _ & Hb & _).
  destruct (MerkleFacts.BuildMerkleTree_spec [upper_aa; String.append h_bb "zz"]
              ltac:(discriminate)) as (t' & _ & Hb' & _).
  exists t, t'. split; [exact Hb|]. split; [exact Hb'|].
  apply (merkle_root_reads_decoded_bytes [h_aa; h_bb]
           [upper_aa; String.append h_bb "zz"] t t');
    [discriminate|vm_compute; reflexivity|exact Hb|exact Hb'].
Defined.

End LeafTextFacts.

(** ** The canonical form of the SDK and that of the server *)

Module CrossFormFacts.
Import Json Event CanonicalText Probe MetaProbe.

Lemma scanBody_quoteChar (c : ascii) (X : string) :
  scanBody (String.append (TS.quoteChar c) X) = scanBody X.
Proof. destruct c as [[] [] [] [] [] [] [] []]; reflexivity. Qed.

Lemma scanBody_quoteBody (a rest : string) :
  scanBody (String.append (TS.quoteBody a) (String "034"%char rest)) = Some rest.
Proof.
  induction a as [|c a IH]; [reflexivity|].
  cbn [TS.quoteBody]. rewrite CanonicalFacts.append_assoc, scanBody_quoteChar.
  exact IH.
Qed.

(** The reader steps over a string as [JSON.stringify] writes it. *)
Lemma expectString_QuoteJSONString k (a s : string) :
  expectString k (String.append (TS.QuoteJSONString a) s) = k s.
Proof.
  unfold expectString, TS.QuoteJSONString.
  rewrite ReadBackFacts.append_cons, CanonicalFacts.append_assoc,
    ReadBackFacts.append_cons, ReadBackFacts.append_nil_l.
  cbn [scanString]. change (isQuote "034"%char) with true. cbv iota.
  rewrite scanBody_quoteBody. reflexivity.
Qed.

Lemma quoted_key (k : string) :
  k = "action_type"%string \/ k = "agent_id"%string \/ k = "completed_at"%string
  \/ k = "execution_meta"%string ->
  TS.QuoteJSONString k = encodeString k.
Proof. intros [-> | [-> | [-> | ->]]]; vm_compute; reflexivity. Qed.

Lemma isEmptyObject_member (k X : string) :
  isEmptyObject (String.append "{" (String.append (encodeString k) X)) = Some false.
Proof. reflexivity. Qed.

Section WithLibs.
Context `{Libs}.

Lemma emptyMetaProbe_ts (e : FactoEvent) :
  emptyMetaProbe (tsCanonicalText e) = Some true.
Proof.
  unfold emptyMetaProbe, tsCanonicalText.
  rewrite !quoted_key by auto.
  cbv [String.concat].
  rewrite ?CanonicalFacts.append_assoc, ?ReadBackFacts.append_nil_l.
  rewrite !ReadBackFacts.expect_app, expectString_QuoteJSONString.
  rewrite !ReadBackFacts.expect_app, expectString_QuoteJSONString.
  rewrite !ReadBackFacts.expect_app, ReadBackFacts.expectNumber_formatInt.
  rewrite !ReadBackFacts.expect_app.
  unfold isEmptyObject. rewrite ReadBackFacts.stripPrefix_app. reflexivity.
Qed.

Lemma emptyMetaProbe_go (e : EventResponse) :
  emptyMetaProbe (goCanonicalText e) = Some false.
Proof.
  unfold emptyMetaProbe, goCanonicalText, goExecMetaText.
  destruct (ModelID (ExecMeta e)) as [id|];
    cbv [String.concat];
    rewrite ?CanonicalFacts.append_assoc, ?ReadBackFacts.append_nil_l;
    rewrite !ReadBackFacts.expect_app, ReadBackFacts.expectString_encodeString;
    rewrite !ReadBackFacts.expect_app, ReadBackFacts.expectString_encodeString;
    rewrite !ReadBackFacts.expect_app, ReadBackFacts.expectNumber_formatInt;
    rewrite !ReadBackFacts.expect_app;
    apply isEmptyObject_member.
Qed.

(** X16. No event has the same canonical form in the SDK and on the
    server: in the text that the SDK's [buildCanonicalForm] gives,
    [execution_meta] is the empty object, and in the text that the server's
    [buildCanonicalForm] gives it has the member [sdk_version] at least. *)
Theorem sdk_and_server_forms_differ (e : FactoEvent) :
  TS.buildCanonicalForm e <> GoCanonical.buildCanonicalForm e.
Proof.
  rewrite CanonicalFacts.ts_buildCanonicalForm_text,
    CanonicalFacts.go_buildCanonicalForm_text.
  intros E. apply (f_equal emptyMetaProbe) in E.
  rewrite emptyMetaProbe_ts, emptyMetaProbe_go in E. discriminate E.
Qed.

End WithLibs.
End CrossFormFacts.
